(** * Session and token lifecycle of the Financial Analysis Platform front end

    A shallow embedding of

    - [frontend/src/services/auth.js]  (token store, [parseJwt],
      [isTokenExpired], the axios instance [api] and its two interceptors),
    - [frontend/src/utils/sessionTimeout.js]  (the inactivity timers),
    - [frontend/src/components/AppWrapper.js] and
      [frontend/src/components/auth/SessionTimeoutWarning.js]  (the effects
      that start the timers and the handlers they run),
    - [frontend/src/contexts/AuthContext.js]  (the state of [AuthProvider]
      and its functions) and [frontend/src/App.js]  ([ProtectedRoute]),

    together with the part of the browser these files call: [localStorage],
    [atob], [JSON.parse], the coercions behind [!x] and [x < y],
    [setTimeout]/[setInterval]/[clearTimeout], [document] event listeners and
    the network as seen through axios.

    Conventions.
    - A JavaScript string is a Rocq [string] when it is a token, a storage key
      or a header (code units below 256) and a list of UTF-16 code units
      ([ustring]) when it comes out of [JSON.parse], whose escapes reach
      every code unit.
    - A JavaScript number is an IEEE 754 double: a sign and a magnitude
      that is a whole multiple of [2^-1074], or an infinity, or NaN.  What
      is read from text, and every quotient, is rounded to the nearest
      double, ties to even.
    - Code that may throw returns a [Completion]. *)

From Stdlib Require Import ZArith String Ascii List Bool Lia.
From stdpp Require Import gmap strings.
Import ListNotations.

Open Scope Z_scope.

(** ** JavaScript values *)

Module Js.

(** UTF-16 code units. *)
Definition ustring := list Z.

Definition code (c : ascii) : Z := Z.of_N (N_of_ascii c).

Definition codes (s : string) : ustring := map code (list_ascii_of_string s).

Definition ustring_eqb (a b : ustring) : bool :=
  bool_decide (a = b).

(** *** Numbers

    The Number type is the set of IEEE 754 binary64 values.  Every finite
    double is a whole multiple of [2^-1074], the smallest subnormal:
    [Fin negative k] is the double with that sign bit and the magnitude
    [k * 2^-1074], so the two zeros are [Fin false 0] and [Fin true 0].
    The values that are built here come out of [nearest_double], which
    yields doubles only. *)
Inductive Number :=
| NaN
| PosInf
| NegInf
| Fin (negative : bool) (k : Z).

Definition signed (negative : bool) (k : Z) : Z :=
  if negative then - k else k.

(** [x < y] on numbers; [None] is the [undefined] that a NaN operand gives.
    The two zeros are equal. *)
Definition Number_lt (x y : Number) : option bool :=
  match x, y with
  | NaN, _ | _, NaN => None
  | PosInf, _ => Some false
  | _, NegInf => Some false
  | NegInf, _ => Some true
  | _, PosInf => Some true
  | Fin n1 k1, Fin n2 k2 => Some (signed n1 k1 <? signed n2 k2)
  end.

(** The order of the values, for stating how rounding behaves; NaN is
    related to nothing. *)
Definition Number_le (x y : Number) : Prop :=
  match x, y with
  | NaN, _ | _, NaN => False
  | NegInf, _ => True
  | _, PosInf => True
  | Fin n1 k1, Fin n2 k2 => signed n1 k1 ≤ signed n2 k2
  | _, _ => False
  end.

Definition Number_neg (x : Number) : Number :=
  match x with
  | NaN => NaN
  | PosInf => NegInf
  | NegInf => PosInf
  | Fin negative k => Fin (negb negative) k
  end.

(** The whole number nearest to [p / q], for [q] positive: of two equally
    near, the even one. *)
Definition round_half_even (p q : Z) : Z :=
  let n := p / q in
  let r := p mod q in
  if 2 * r <? q then n
  else if q <? 2 * r then n + 1
  else if Z.even n then n else n + 1.

(** The magnitude, in units of [2^-1074], of the double nearest to the
    rational [p / q], for [p] not negative and [q] positive.  With the
    value in these units at least [2^l] and below [2^(l+1)], a significand
    of 53 bits leaves a spacing of [2^(l-52)] between doubles, and of one
    unit among the subnormals. *)
Definition nearest_magnitude (p q : Z) : Z :=
  let scaled := p * 2 ^ 1074 in
  let e := Z.max 0 (Z.log2 (scaled / q) - 52) in
  round_half_even scaled (q * 2 ^ e) * 2 ^ e.

(** [2^1024] in units of [2^-1074]: what rounds this far is an infinity. *)
Definition overflow : Z := 2 ^ 2098.

(** The Number value for the rational [p / q], [q] positive. *)
Definition nearest_double (p q : Z) : Number :=
  let k := nearest_magnitude (Z.abs p) q in
  if overflow <=? k then (if p <? 0 then NegInf else PosInf)
  else Fin (p <? 0) k.

(** The Number value for a whole number, and for [m * 10^x] as a decimal
    literal gives it, [m] not negative. *)
Definition integer (n : Z) : Number := nearest_double n 1.

Definition decimal (m x : Z) : Number :=
  if 0 <=? x then nearest_double (m * 10 ^ x) 1
  else nearest_double m (10 ^ (- x)).

(** The values [JSON.parse] can build.  An object keeps its members in
    source order; a later duplicate key shadows an earlier one. *)
#[warnings="-register-all"]
Inductive JSON :=
| JNull
| JBool (b : bool)
| JNum (n : Number)
| JStr (s : ustring)
| JArr (items : list JSON)
| JObj (members : list (ustring * JSON)).

(** A value or [undefined]. *)
Definition Value := option JSON.

Definition undefined : Value := None.

(** Normal completion or a thrown exception. *)
Inductive Completion (E A : Type) :=
| Normal (a : A)
| Throw (e : E).

Arguments Normal {E A} a.
Arguments Throw {E A} e.

(** [ToBoolean]. *)
Definition ToBoolean (v : Value) : bool :=
  match v with
  | None => false
  | Some JNull => false
  | Some (JBool b) => b
  | Some (JNum (Fin _ k)) => negb (k =? 0)
  | Some (JNum NaN) => false
  | Some (JNum _) => true
  | Some (JStr s) => negb (ustring_eqb s [])
  | Some (JArr _) => true
  | Some (JObj _) => true
  end.

(** Own property lookup on an object built by [JSON.parse]. *)
Fixpoint own_property (key : ustring) (members : list (ustring * JSON))
  : Value :=
  match members with
  | [] => None
  | (k, v) :: rest =>
      match own_property key rest with
      | Some later => Some later
      | None => if ustring_eqb k key then Some v else None
      end
  end.

(** [v.name] for a name that no built-in prototype defines (such as [exp]):
    only an object's own members can answer. *)
Definition Get (v : JSON) (name : string) : Value :=
  match v with
  | JObj members => own_property (codes name) members
  | _ => undefined
  end.

(** *** [StringToNumber] *)

Definition is_digit (c : Z) : bool := (48 <=? c) && (c <=? 57).

Definition hex_value (c : Z) : option Z :=
  if is_digit c then Some (c - 48)
  else if (97 <=? c) && (c <=? 102) then Some (c - 87)
  else if (65 <=? c) && (c <=? 70) then Some (c - 55)
  else None.

(** [WhiteSpace] and [LineTerminator] of the ECMAScript grammar. *)
Definition is_StrWhiteSpaceChar (c : Z) : bool :=
  bool_decide (c ∈ [9; 10; 11; 12; 13; 32; 160; 5760; 8232; 8233; 8239; 8287;
                    12288; 65279])
  || ((8192 <=? c) && (c <=? 8202)).

Fixpoint drop_while (p : Z → bool) (l : ustring) : ustring :=
  match l with
  | [] => []
  | c :: rest => if p c then drop_while p rest else l
  end.

Definition trim (l : ustring) : ustring :=
  rev (drop_while is_StrWhiteSpaceChar (rev (drop_while is_StrWhiteSpaceChar l))).

(** Leading decimal digits and what follows them. *)
Fixpoint span_digits (l : ustring) : list Z * ustring :=
  match l with
  | [] => ([], [])
  | c :: rest =>
      if is_digit c
      then let '(ds, tl) := span_digits rest in (c - 48 :: ds, tl)
      else ([], l)
  end.

Definition digits_value (base : Z) (ds : list Z) : Z :=
  fold_left (λ acc d, acc * base + d) ds 0.

(** Every code unit is a digit of [base] (at most 16); the value read. *)
Definition radix_literal (base : Z) (l : ustring) : Number :=
  match mapM hex_value l with
  | Some (d :: ds) =>
      if forallb (λ x, x <? base) (d :: ds)
      then integer (digits_value base (d :: ds))
      else NaN
  | _ => NaN
  end.

(** [ExponentPart] opt, then end of input: the exponent read. *)
Definition exponent_part (l : ustring) : option Z :=
  match l with
  | [] => Some 0
  | c :: rest =>
      if (c =? 101) || (c =? 69) then
        let '(neg, rest) :=
          match rest with
          | s :: rest' =>
              if s =? 45 then (true, rest')
              else if s =? 43 then (false, rest')
              else (false, rest)
          | [] => (false, rest)
          end in
        match span_digits rest with
        | (d :: ds, []) =>
            let x := digits_value 10 (d :: ds) in
            Some (if neg then - x else x)
        | _ => None
        end
      else None
  end.

(** [StrUnsignedDecimalLiteral]. *)
Definition unsigned_decimal (l : ustring) : Number :=
  if ustring_eqb l (codes "Infinity") then PosInf
  else
    let '(ip, rest) := span_digits l in
    let '(fp, rest) :=
      match rest with
      | c :: rest' => if c =? 46 then span_digits rest' else ([], rest)
      | [] => ([], rest)
      end in
    match ip, fp with
    | [], [] => NaN
    | _, _ =>
        match exponent_part rest with
        | Some x =>
            decimal (digits_value 10 (ip ++ fp)) (x - Z.of_nat (length fp))
        | None => NaN
        end
    end.

Definition StringToNumber (s : ustring) : Number :=
  match trim s with
  | [] => integer 0
  | c :: rest =>
      let radix :=
        match rest with
        | r :: body =>
            if c =? 48 then
              if (r =? 120) || (r =? 88) then Some (16, body)
              else if (r =? 111) || (r =? 79) then Some (8, body)
              else if (r =? 98) || (r =? 66) then Some (2, body)
              else None
            else None
        | [] => None
        end in
      match radix with
      | Some (base, body) => radix_literal base body
      | None =>
          if c =? 45 then Number_neg (unsigned_decimal rest)
          else if c =? 43 then unsigned_decimal rest
          else unsigned_decimal (c :: rest)
      end
  end.

(** *** [ToNumber] of a value built by [JSON.parse]

    An object or array goes through [OrdinaryToPrimitive]: the inherited
    [valueOf] returns the object itself, so [toString] decides.  A member
    named [toString] shadows the inherited method with a value that cannot
    be called, and the conversion throws a TypeError.  [Array.prototype.join]
    turns [null] into the empty string and converts every other element with
    [ToString]. *)

Definition has_own (name : string) (members : list (ustring * JSON)) : bool :=
  existsb (λ kv, ustring_eqb (fst kv) (codes name)) members.

(** [ToString v] throws. *)
Fixpoint ToString_throws (v : JSON) : bool :=
  match v with
  | JObj members => has_own "toString" members
  | JArr items =>
      (fix any (l : list JSON) : bool :=
         match l with
         | [] => false
         | x :: rest => ToString_throws x || any rest
         end) items
  | _ => false
  end.

(** [StringToNumber (ToString n)]: the digits that [ToString] prints
    identify the double, so a number printed and read again is itself,
    except that the negative zero prints as "0". *)
Definition print_and_read (n : Number) : Number :=
  match n with
  | Fin true 0 => Fin false 0
  | _ => n
  end.

(** [StringToNumber (ToString x)] for an element [x] of a joined array that
    does not throw; [null] joins as the empty string, and two or more
    elements leave a comma in the text, which no numeric literal has. *)
Fixpoint element_number (x : JSON) : Number :=
  match x with
  | JNull => integer 0
  | JBool _ => NaN
  | JNum n => print_and_read n
  | JStr s => StringToNumber s
  | JArr inner =>
      match inner with
      | [] => integer 0
      | [y] => element_number y
      | _ :: _ :: _ => NaN
      end
  | JObj _ => NaN
  end.

(** [StringToNumber (items.join(","))] when no element throws. *)
Definition join_number (items : list JSON) : Number :=
  element_number (JArr items).

Inductive Exception :=
| TypeError.

Definition ToNumber (v : Value) : Completion Exception Number :=
  match v with
  | None => Normal NaN
  | Some JNull => Normal (integer 0)
  | Some (JBool b) => Normal (integer (if b then 1 else 0))
  | Some (JNum n) => Normal n
  | Some (JStr s) => Normal (StringToNumber s)
  | Some (JArr items) =>
      if ToString_throws (JArr items) then Throw TypeError
      else Normal (join_number items)
  | Some (JObj members) =>
      if has_own "toString" members then Throw TypeError
      else Normal NaN
  end.

(** [v < n] for a number [n]: an undefined comparison is [false]. *)
Definition lt_number (v : Value) (n : Number) : Completion Exception bool :=
  match ToNumber v with
  | Throw e => Throw e
  | Normal x =>
      match Number_lt x n with
      | Some b => Normal b
      | None => Normal false
      end
  end.

End Js.

(** ** The browser functions behind [parseJwt] *)

Module Browser.

Import Js.

(** *** [String.prototype.split] with a one-character separator *)

Fixpoint split (sep : ascii) (s : string) : list string :=
  match s with
  | EmptyString => [EmptyString]
  | String c rest =>
      if Ascii.eqb c sep then EmptyString :: split sep rest
      else
        match split sep rest with
        | seg :: segs => String c seg :: segs
        | [] => [String c EmptyString]
        end
  end.

(** *** [atob]: the forgiving-base64 decode of the WHATWG Infra standard *)

Definition is_ascii_whitespace (c : Z) : bool :=
  bool_decide (c ∈ [9; 10; 12; 13; 32]).

Definition base64_value (c : Z) : option Z :=
  if (65 <=? c) && (c <=? 90) then Some (c - 65)
  else if (97 <=? c) && (c <=? 122) then Some (c - 71)
  else if is_digit c then Some (c + 4)
  else if c =? 43 then Some 62
  else if c =? 47 then Some 63
  else None.

(** Up to two trailing [=] removed. *)
Definition strip_padding (l : ustring) : ustring :=
  match rev l with
  | 61 :: 61 :: r => rev r
  | 61 :: r => rev r
  | _ => l
  end.

(** Four sextets give three bytes; a tail of three gives two and a tail of
    two gives one, the spare low bits dropped. *)
Fixpoint sextets_to_bytes (l : list Z) : list Z :=
  match l with
  | a :: b :: c :: d :: rest =>
      let n := ((a * 64 + b) * 64 + c) * 64 + d in
      n / 65536 :: (n / 256) mod 256 :: n mod 256 :: sextets_to_bytes rest
  | [a; b; c] =>
      let n := ((a * 64 + b) * 64 + c) / 4 in
      [n / 256; n mod 256]
  | [a; b] => [(a * 64 + b) / 16]
  | _ => []
  end.

Definition byte_string (bytes : list Z) : string :=
  string_of_list_ascii (map (λ b, ascii_of_N (Z.to_N b)) bytes).

(** [None] is the InvalidCharacterError that [atob] throws. *)
Definition atob (data : string) : option string :=
  let data := filter (λ c, is_ascii_whitespace c = false) (codes data) in
  let data :=
    if Z.of_nat (length data) mod 4 =? 0 then strip_padding data else data in
  if Z.of_nat (length data) mod 4 =? 1 then None
  else byte_string ∘ sextets_to_bytes <$> mapM base64_value data.

(** *** [JSON.parse] *)

Definition is_json_whitespace (c : Z) : bool :=
  bool_decide (c ∈ [9; 10; 13; 32]).

(** The code unit an escape stands for, by the letter after the backslash:
    quote, backslash, slash, b, f, n, r, t. *)
Definition escape_value (c : Z) : option Z :=
  if c =? 34 then Some 34
  else if c =? 92 then Some 92
  else if c =? 47 then Some 47
  else if c =? 98 then Some 8
  else if c =? 102 then Some 12
  else if c =? 110 then Some 10
  else if c =? 114 then Some 13
  else if c =? 116 then Some 9
  else None.

(** The text after an opening quote: the string's code units and how many
    code units of text it took, closing quote included. *)
Fixpoint scan_string (l : ustring) : option (ustring * nat) :=
  match l with
  | [] => None
  | c :: rest =>
      if c =? 34 then Some ([], 1%nat)
      else if c =? 92 then
        match rest with
        | [] => None
        | e :: rest1 =>
            if e =? 117 then
              match rest1 with
              | h1 :: h2 :: h3 :: h4 :: rest2 =>
                  a ← hex_value h1; b ← hex_value h2;
                  c ← hex_value h3; d ← hex_value h4;
                  '(s, n) ← scan_string rest2;
                  Some ((((a * 16 + b) * 16 + c) * 16 + d) :: s, (6 + n)%nat)
              | _ => None
              end
            else
              x ← escape_value e;
              '(s, n) ← scan_string rest1;
              Some (x :: s, (2 + n)%nat)
        end
      else if c <? 32 then None
      else '(s, n) ← scan_string rest; Some (c :: s, (1 + n)%nat)
  end.

(** A number at the head of the text and the code units it took: an
    optional minus sign; a single zero, or a non-zero digit and any digits;
    optionally a point and at least one digit; optionally [e] or [E], an
    optional sign and at least one digit.  Its value is the double nearest
    to what the digits say. *)
Definition scan_number (l : ustring) : option (Number * nat) :=
  let '(neg, l) :=
    match l with
    | c :: r => if c =? 45 then (true, r) else (false, l)
    | [] => (false, l)
    end in
  '(ip, l) ←
    match l with
    | c :: r =>
        if c =? 48 then Some ([0], r)
        else match span_digits l with
             | ([], _) => None
             | found => Some found
             end
    | [] => None
    end;
  '(fp, l) ←
    match l with
    | c :: r =>
        if c =? 46 then
          match span_digits r with
          | ([], _) => None
          | found => Some found
          end
        else Some ([], l)
    | [] => Some ([], l)
    end;
  '(x, xlen) ←
    match l with
    | c :: r =>
        if (c =? 101) || (c =? 69) then
          let '(xneg, r, slen) :=
            match r with
            | s :: r' =>
                if s =? 45 then (true, r', 1%nat)
                else if s =? 43 then (false, r', 1%nat)
                else (false, r, 0%nat)
            | [] => (false, r, 0%nat)
            end in
          match span_digits r with
          | ([], _) => None
          | (ds, _) =>
              let x := digits_value 10 ds in
              Some (if xneg then - x else x, (1 + slen + length ds)%nat)
          end
        else Some (0, 0%nat)
    | [] => Some (0, 0%nat)
    end;
  let m := digits_value 10 (ip ++ fp) in
  let value := decimal m (x - Z.of_nat (length fp)) in
  Some (if neg then Number_neg value else value,
        ((if neg then 1 else 0) + length ip
         + (match fp with [] => 0 | _ => 1 + length fp end) + xlen)%nat).

Fixpoint starts_with (prefix l : ustring) : bool :=
  match prefix, l with
  | [], _ => true
  | p :: prefix', c :: l' => (p =? c) && starts_with prefix' l'
  | _ :: _, [] => false
  end.

(** The parser is a pushdown automaton over the text.  A frame is an array
    or object under construction; an object frame holds the key whose value
    is being read. *)
Inductive Frame :=
| InArray (done : list JSON)
| InObject (done : list (ustring * JSON)) (key : option ustring).

Inductive Phase :=
| AtValue        (* a value starts here *)
| AtFirstItem    (* just after [: a value or ] *)
| AtFirstKey     (* just after {: a key or } *)
| AtKey          (* after a comma in an object *)
| AtColon        (* after a key *)
| AfterValue     (* inside a frame, after a value: a comma or the close *)
| AtEnd (v : JSON). (* the top-level value is complete *)

Definition Parser := (list Frame * Phase)%type.

(** A complete value goes to the innermost open frame. *)
Definition deliver (v : JSON) (stack : list Frame) : option Parser :=
  match stack with
  | [] => Some ([], AtEnd v)
  | InArray done :: below => Some (InArray (v :: done) :: below, AfterValue)
  | InObject done (Some k) :: below =>
      Some (InObject ((k, v) :: done) None :: below, AfterValue)
  | InObject _ None :: _ => None
  end.

(** One code unit [c] followed by [rest]: the new state, and how many code
    units of [rest] belong to the token that [c] opened. *)
Definition parser_step (c : Z) (rest : ustring) (p : Parser)
  : option (Parser * nat) :=
  let '(stack, phase) := p in
  if is_json_whitespace c then Some (p, 0%nat)
  else
    let value :=
      if c =? 91 then Some (InArray [] :: stack, AtFirstItem, 0%nat)
      else if c =? 123 then Some (InObject [] None :: stack, AtFirstKey, 0%nat)
      else if c =? 34 then
        '(s, n) ← scan_string rest; q ← deliver (JStr s) stack; Some (q, n)
      else if (c =? 45) || is_digit c then
        '(x, n) ← scan_number (c :: rest);
        q ← deliver (JNum x) stack; Some (q, pred n)
      else if (c =? 116) && starts_with (codes "rue") rest then
        q ← deliver (JBool true) stack; Some (q, 3%nat)
      else if (c =? 102) && starts_with (codes "alse") rest then
        q ← deliver (JBool false) stack; Some (q, 4%nat)
      else if (c =? 110) && starts_with (codes "ull") rest then
        q ← deliver JNull stack; Some (q, 3%nat)
      else None in
    let key :=
      if c =? 34 then
        match stack with
        | InObject done None :: below =>
            '(s, n) ← scan_string rest;
            Some (InObject done (Some s) :: below, AtColon, n)
        | _ => None
        end
      else None in
    let close :=
      match stack with
      | InArray done :: below =>
          if c =? 93 then q ← deliver (JArr (rev done)) below; Some (q, 0%nat)
          else None
      | InObject done None :: below =>
          if c =? 125 then q ← deliver (JObj (rev done)) below; Some (q, 0%nat)
          else None
      | _ => None
      end in
    match phase with
    | AtValue => value
    | AtFirstItem => if c =? 93 then close else value
    | AtFirstKey => if c =? 125 then close else key
    | AtKey => key
    | AtColon => if c =? 58 then Some (stack, AtValue, 0%nat) else None
    | AfterValue =>
        if c =? 44 then
          match stack with
          | InArray _ :: _ => Some (stack, AtValue, 0%nat)
          | InObject _ None :: _ => Some (stack, AtKey, 0%nat)
          | _ => None
          end
        else close
    | AtEnd _ => None
    end.

(** [skip] code units still belong to the token read last. *)
Fixpoint parser_run (l : ustring) (skip : nat) (p : Parser) : option JSON :=
  match l with
  | [] =>
      match skip, p with
      | O, (_, AtEnd v) => Some v
      | _, _ => None
      end
  | c :: rest =>
      match skip with
      | S k => parser_run rest k p
      | O => '(q, n) ← parser_step c rest p; parser_run rest n q
      end
  end.

(** [None] is the SyntaxError that [JSON.parse] throws. *)
Definition JSON_parse (text : string) : option JSON :=
  parser_run (codes text) 0 ([], AtValue).

End Browser.

(** ** [services/auth.js]: the token store and the token inspector *)

Module Auth.

Import Js Browser.

Definition ACCESS_TOKEN_KEY : string := "financial_analysis_access_token".
Definition REFRESH_TOKEN_KEY : string := "financial_analysis_refresh_token".

(** [localStorage] maps keys to strings.  [setItem] stores the string form
    of its argument, which for [undefined] is the text "undefined". *)
Abbreviation Storage := (gmap string string).

Definition String_of (v : option string) : string :=
  match v with
  | Some s => s
  | None => "undefined"
  end.

Definition setItem (key : string) (value : option string) (ls : Storage)
  : Storage :=
  <[key := String_of value]> ls.

Definition getItem (key : string) (ls : Storage) : option string :=
  ls !! key.

Definition removeItem (key : string) (ls : Storage) : Storage :=
  delete key ls.

(** A string or [null] in a condition: only a non-empty string is truthy. *)
Definition truthy (v : option string) : bool :=
  match v with
  | Some s => negb (String.eqb s "")
  | None => false
  end.

Definition saveTokens (accessToken refreshToken : option string)
  (ls : Storage) : Storage :=
  setItem REFRESH_TOKEN_KEY refreshToken
    (setItem ACCESS_TOKEN_KEY accessToken ls).

Definition getToken (ls : Storage) : option string :=
  getItem ACCESS_TOKEN_KEY ls.

Definition getRefreshToken (ls : Storage) : option string :=
  getItem REFRESH_TOKEN_KEY ls.

Definition clearTokens (ls : Storage) : Storage :=
  removeItem REFRESH_TOKEN_KEY (removeItem ACCESS_TOKEN_KEY ls).

Definition isAuthenticated (ls : Storage) : bool :=
  let token := getToken ls in
  truthy token.

(** [token.split('.')[1]] as [atob] receives it: a missing second segment
    is [undefined], which [atob] reads as the text "undefined". *)
Definition payload_segment (token : string) : string :=
  String_of (split "." token !! 1%nat).

(** The [catch] turns both exceptions into [null]. *)
Definition parseJwt (token : string) : JSON :=
  match atob (payload_segment token) with
  | None => JNull
  | Some text =>
      match JSON_parse text with
      | None => JNull
      | Some payload => payload
      end
  end.

(** [now] is [Date.now()]: a whole number of milliseconds, at most
    8.64e15 in magnitude and so a double as it is.  [Date.now() / 1000] is
    the quotient of two doubles, which is the rational [now / 1000] rounded
    to the nearest double. *)
Definition isTokenExpired (now : Z) (token : option string)
  : Completion Exception bool :=
  match token with
  | None => Normal true
  | Some token =>
      if negb (truthy (Some token)) then Normal true
      else
        let payload := parseJwt token in
        if negb (ToBoolean (Some payload)) then Normal true
        else
          let now := nearest_double now 1000 in
          lt_number (Get payload "exp") now
  end.

End Auth.

(** ** [services/auth.js]: the axios instance [api] and its interceptors *)

Module Api.

Import Js Auth.

(** The request configuration, cut down to what the interceptors read and
    write: the target, the [Authorization] header and the [_retry] mark. *)
Record Config := {
  url : string;
  Authorization : option string;
  _retry : bool
}.

Definition set_Authorization (a : option string) (c : Config) : Config :=
  {| url := url c; Authorization := a; _retry := _retry c |}.

Definition set_retry (b : bool) (c : Config) : Config :=
  {| url := url c; Authorization := Authorization c; _retry := b |}.

(** A response body as the interceptor reads it: the [access] and [refresh]
    members, each a string when present, and the rest of the body. *)
Record Data := {
  access : option string;
  refresh : option string;
  content : string
}.

(** [data] is [None] when the body is [null]. *)
Record Response := {
  status : Z;
  data : option Data
}.

(** What goes on the network: a request of the [api] instance, or the bare
    [axios.post] to [/token/refresh/] carrying a refresh token. *)
Inductive Call :=
| ApiCall (config : Config)
| RefreshCall (refresh : string).

(** What a caller's promise can be rejected with. *)
Inductive Error :=
| ApiError (config : Config) (response : option Response)
| RefreshError (response : option Response)
| ThrownError (e : Exception).

Inductive Outcome :=
| Fulfilled (response : Response)
| Rejected (error : Error).

(** [defaults] is [api.defaults.headers.common['Authorization']], [href] the
    last value assigned to [window.location.href], [wire] every call made so
    far, oldest first. *)
Record World := {
  localStorage : Storage;
  defaults : option string;
  href : option string;
  wire : list Call
}.

Definition set_localStorage (f : Storage → Storage) (w : World) : World :=
  {| localStorage := f (localStorage w); defaults := defaults w;
     href := href w; wire := wire w |}.

Definition set_defaults (a : option string) (w : World) : World :=
  {| localStorage := localStorage w; defaults := a;
     href := href w; wire := wire w |}.

Definition set_href (u : string) (w : World) : World :=
  {| localStorage := localStorage w; defaults := defaults w;
     href := Some u; wire := wire w |}.

(** The network answers the [k]-th call with [env k]; [None] is a call that
    gets no response at all. *)
Definition Network := nat → option Response.

Definition send (call : Call) (w : World) : World :=
  {| localStorage := localStorage w; defaults := defaults w;
     href := href w; wire := wire w ++ [call] |}.

(** axios fulfils on a status from 200 to 299 and rejects otherwise. *)
Definition settle (reply : option Response) : Response + option Response :=
  match reply with
  | Some r => if (200 <=? status r) && (status r <? 300) then inl r
              else inr (Some r)
  | None => inr None
  end.

(** axios merges the instance defaults under the request's own headers. *)
Definition mergeConfig (w : World) (config : Config) : Config :=
  match Authorization config with
  | Some _ => config
  | None => set_Authorization (defaults w) config
  end.

Definition Bearer (token : option string) : string :=
  "Bearer " +:+ String_of token.

(** The request interceptor. *)
Definition onRequest (w : World) (config : Config) : Config :=
  let token := getToken (localStorage w) in
  if truthy token then set_Authorization (Some (Bearer token)) config
  else config.

(** The response interceptor's success handler. *)
Definition onResponse (response : Response) : Response := response.

(** The response interceptor's error handler is an [async] function with one
    [await]; it runs in two turns of the event loop. *)
Inductive Suspended :=
| AwaitRefresh (originalRequest : Config) (refreshToken : option string).

(** The [catch] block. *)
Definition onRefreshFailed (refreshError : Error) (w : World)
  : World * Outcome :=
  let w := set_localStorage clearTokens w in
  let w := set_href "/login?expired=true" w in
  (w, Rejected refreshError).

(** First turn: from the rejection to the [await].  [error.config] and
    [originalRequest] are one object, so the error that is handed back
    carries the [_retry] mark set here.  [now] is what [Date.now()] returns
    during this turn, the only one that reads the clock. *)
Definition onRejected_begin (now : Z) (w : World)
  (config : Config) (response : option Response)
  : World * (Outcome + Suspended) :=
  let originalRequest := config in
  if bool_decide (status <$> response = Some 401)
     && negb (_retry originalRequest) then
    let originalRequest := set_retry true originalRequest in
    let error := ApiError originalRequest response in
    let refreshToken := getRefreshToken (localStorage w) in
    match
      (if negb (truthy refreshToken) then Normal true
       else isTokenExpired now refreshToken)
    with
    | Normal true =>
        let w := set_localStorage clearTokens w in
        let w := set_href "/login" w in
        (w, inl (Rejected error))
    | Normal false =>
        let w := send (RefreshCall (String_of refreshToken)) w in
        (w, inr (AwaitRefresh originalRequest refreshToken))
    | Throw e =>
        let '(w, o) := onRefreshFailed (ThrownError e) w in (w, inl o)
    end
  else (w, inl (Rejected (ApiError config response))).

(** Second turn: from the answer of the refresh call to the retry.  The
    promise of the retry is returned without [await], so its rejection does
    not reach the [catch]. *)
Definition onRejected_resume (api : World → Config → option (World * Outcome))
  (w : World) (s : Suspended) (reply : option Response)
  : option (World * Outcome) :=
  let 'AwaitRefresh originalRequest refreshToken := s in
  match settle reply with
  | inr failed => Some (onRefreshFailed (RefreshError failed) w)
  | inl response =>
      match data response with
      | None => Some (onRefreshFailed (ThrownError TypeError) w)
      | Some d =>
          let access := access d in
          let w := set_localStorage (saveTokens access refreshToken) w in
          let w := set_defaults (Some (Bearer access)) w in
          let originalRequest :=
            set_Authorization (Some (Bearer access)) originalRequest in
          api w originalRequest
      end
  end.

(** Both turns in sequence, the refresh call answered by the network. *)
Definition onRejected (api : World → Config → option (World * Outcome))
  (env : Network) (now : Z) (w : World)
  (config : Config) (response : option Response)
  : option (World * Outcome) :=
  let k := length (wire w) in
  match onRejected_begin now w config response with
  | (w, inl outcome) => Some (w, outcome)
  | (w, inr suspended) => onRejected_resume api w suspended (env k)
  end.

(** [api(config)]: defaults merged, request interceptor, the call, response
    interceptor.  The handler calls [api] again for the retry; [fuel] bounds
    that nesting and [None] is a run that needs more. *)
Fixpoint api (fuel : nat) (env : Network) (now : Z) (w : World)
  (config : Config) : option (World * Outcome) :=
  match fuel with
  | O => None
  | S fuel =>
      let config := onRequest w (mergeConfig w config) in
      let k := length (wire w) in
      let w := send (ApiCall config) w in
      match settle (env k) with
      | inl response => Some (w, Fulfilled (onResponse response))
      | inr response => onRejected (api fuel env now) env now w config response
      end
  end.

(** The configuration that [api(config)] puts on the wire. *)
Definition sent (w : World) (config : Config) : Config :=
  onRequest w (mergeConfig w config).

(** The first half of [api(config)]: the request leaves, its answer is
    still to come. *)
Definition dispatch (config : Config) (w : World) : World :=
  send (ApiCall (sent w config)) w.

(** Calls on the wire that are renewals, and requests of the [api] instance
    for a given target. *)
Definition is_refresh (c : Call) : bool :=
  match c with
  | RefreshCall _ => true
  | ApiCall _ => false
  end.

Definition is_request_to (target : string) (c : Call) : bool :=
  match c with
  | ApiCall config => String.eqb (url config) target
  | RefreshCall _ => false
  end.

Definition refresh_calls (w : World) : nat :=
  length (filter (λ c, is_refresh c = true) (wire w)).

Definition requests_to (target : string) (w : World) : nat :=
  length (filter (λ c, is_request_to target c = true) (wire w)).

(** [n] rejections handled in the same stretch of the event loop, before
    any refresh call is answered: each handler runs its first turn. *)
Fixpoint concurrent_begin (now : Z) (w : World)
  (errors : list (Config * option Response))
  : World * list (Outcome + Suspended) :=
  match errors with
  | [] => (w, [])
  | (config, response) :: rest =>
      let '(w, r) := onRejected_begin now w config response in
      let '(w, rs) := concurrent_begin now w rest in
      (w, r :: rs)
  end.

End Api.

(** ** [utils/sessionTimeout.js], [AppWrapper.js], [SessionTimeoutWarning.js] *)

Module Page.

Import Auth.

(** *** Functions as data

    The functions that timers and listeners hold are closures of the
    source; each constructor names one of them and carries what it
    captured. *)

(** What [onTimeout] can be bound to. *)
Inductive Handler :=
| handleTimeout           (* AppWrapper.js, inside the second effect *)
| handleTimeout_onReset   (* AppWrapper.js, inside handleResetTimeout *)
| EventObject.            (* the event a listener is called with: no function *)

Inductive Callback :=
| InactivityWarning                            (* sessionTimeout.js, warningTimer *)
| InactivityTimeout (onTimeout : option Handler) (* sessionTimeout.js, inactivityTimer *)
| DialogWarning                                (* SessionTimeoutWarning.js, warningTimer *)
| DialogTick                                   (* SessionTimeoutWarning.js, intervalTimer *)
| DialogLogout.                                (* SessionTimeoutWarning.js, logoutTimer *)

(** A listener is either one of the arrow functions that
    [initializeInactivityTracking] creates, each a new object ([serial]
    tells them apart), or the exported function [resetInactivityTimer]. *)
Inductive Listener :=
| ResetArrow (serial : nat) (onTimeout : option Handler)
| resetInactivityTimer_function.

#[global] Instance Handler_eq_dec : EqDecision Handler.
Proof. solve_decision. Defined.

#[global] Instance Listener_eq_dec : EqDecision Listener.
Proof. solve_decision. Defined.

#[global] Instance Callback_eq_dec : EqDecision Callback.
Proof. solve_decision. Defined.

Record Timer := {
  timer_id : Z;
  due : Z;
  period : option Z;
  callback : Callback
}.

(** The mounted [SessionTimeoutWarning]: its props, its state and the three
    variables of its effect.  The [progress] state is left out: it is
    computed from [timeLeft] for the progress bar and read nowhere else. *)
Record Dialog := {
  warningThreshold : Z;
  logoutTime : Z;
  open : bool;
  timeLeft : Z;
  dialog_warningTimer : option Z;
  dialog_intervalTimer : option Z;
  dialog_logoutTimer : option Z
}.

Record Page := {
  localStorage : Storage;
  clock : Z;                            (* Date.now() *)
  timers : list Timer;                  (* pending, in order of creation *)
  next_id : Z;
  listeners : list (string * Listener); (* on document, in order of registration *)
  next_serial : nat;
  inactivityTimer : option Z;           (* sessionTimeout.js *)
  warningTimer : option Z;              (* sessionTimeout.js *)
  console : list string;
  location : string;
  app_isAuthenticated : bool;           (* AppWrapper state *)
  dialog : option Dialog                (* SessionTimeoutWarning, when rendered *)
}.

Definition set_localStorage (f : Storage → Storage) (p : Page) : Page :=
  {| localStorage := f (localStorage p); clock := clock p; timers := timers p;
     next_id := next_id p; listeners := listeners p;
     next_serial := next_serial p; inactivityTimer := inactivityTimer p;
     warningTimer := warningTimer p; console := console p;
     location := location p; app_isAuthenticated := app_isAuthenticated p;
     dialog := dialog p |}.

Definition set_clock (t : Z) (p : Page) : Page :=
  {| localStorage := localStorage p; clock := t; timers := timers p;
     next_id := next_id p; listeners := listeners p;
     next_serial := next_serial p; inactivityTimer := inactivityTimer p;
     warningTimer := warningTimer p; console := console p;
     location := location p; app_isAuthenticated := app_isAuthenticated p;
     dialog := dialog p |}.

Definition set_timers (f : list Timer → list Timer) (p : Page) : Page :=
  {| localStorage := localStorage p; clock := clock p; timers := f (timers p);
     next_id := next_id p; listeners := listeners p;
     next_serial := next_serial p; inactivityTimer := inactivityTimer p;
     warningTimer := warningTimer p; console := console p;
     location := location p; app_isAuthenticated := app_isAuthenticated p;
     dialog := dialog p |}.

Definition set_next_id (n : Z) (p : Page) : Page :=
  {| localStorage := localStorage p; clock := clock p; timers := timers p;
     next_id := n; listeners := listeners p;
     next_serial := next_serial p; inactivityTimer := inactivityTimer p;
     warningTimer := warningTimer p; console := console p;
     location := location p; app_isAuthenticated := app_isAuthenticated p;
     dialog := dialog p |}.

Definition set_listeners
  (f : list (string * Listener) → list (string * Listener)) (p : Page)
  : Page :=
  {| localStorage := localStorage p; clock := clock p; timers := timers p;
     next_id := next_id p; listeners := f (listeners p);
     next_serial := next_serial p; inactivityTimer := inactivityTimer p;
     warningTimer := warningTimer p; console := console p;
     location := location p; app_isAuthenticated := app_isAuthenticated p;
     dialog := dialog p |}.

Definition set_next_serial (n : nat) (p : Page) : Page :=
  {| localStorage := localStorage p; clock := clock p; timers := timers p;
     next_id := next_id p; listeners := listeners p;
     next_serial := n; inactivityTimer := inactivityTimer p;
     warningTimer := warningTimer p; console := console p;
     location := location p; app_isAuthenticated := app_isAuthenticated p;
     dialog := dialog p |}.

Definition set_inactivityTimer (id : option Z) (p : Page) : Page :=
  {| localStorage := localStorage p; clock := clock p; timers := timers p;
     next_id := next_id p; listeners := listeners p;
     next_serial := next_serial p; inactivityTimer := id;
     warningTimer := warningTimer p; console := console p;
     location := location p; app_isAuthenticated := app_isAuthenticated p;
     dialog := dialog p |}.

Definition set_warningTimer (id : option Z) (p : Page) : Page :=
  {| localStorage := localStorage p; clock := clock p; timers := timers p;
     next_id := next_id p; listeners := listeners p;
     next_serial := next_serial p; inactivityTimer := inactivityTimer p;
     warningTimer := id; console := console p;
     location := location p; app_isAuthenticated := app_isAuthenticated p;
     dialog := dialog p |}.

Definition log (line : string) (p : Page) : Page :=
  {| localStorage := localStorage p; clock := clock p; timers := timers p;
     next_id := next_id p; listeners := listeners p;
     next_serial := next_serial p; inactivityTimer := inactivityTimer p;
     warningTimer := warningTimer p; console := console p ++ [line];
     location := location p; app_isAuthenticated := app_isAuthenticated p;
     dialog := dialog p |}.

Definition set_location (u : string) (p : Page) : Page :=
  {| localStorage := localStorage p; clock := clock p; timers := timers p;
     next_id := next_id p; listeners := listeners p;
     next_serial := next_serial p; inactivityTimer := inactivityTimer p;
     warningTimer := warningTimer p; console := console p;
     location := u; app_isAuthenticated := app_isAuthenticated p;
     dialog := dialog p |}.

Definition set_app_isAuthenticated (b : bool) (p : Page) : Page :=
  {| localStorage := localStorage p; clock := clock p; timers := timers p;
     next_id := next_id p; listeners := listeners p;
     next_serial := next_serial p; inactivityTimer := inactivityTimer p;
     warningTimer := warningTimer p; console := console p;
     location := location p; app_isAuthenticated := b;
     dialog := dialog p |}.

Definition set_dialog (d : option Dialog) (p : Page) : Page :=
  {| localStorage := localStorage p; clock := clock p; timers := timers p;
     next_id := next_id p; listeners := listeners p;
     next_serial := next_serial p; inactivityTimer := inactivityTimer p;
     warningTimer := warningTimer p; console := console p;
     location := location p; app_isAuthenticated := app_isAuthenticated p;
     dialog := d |}.

(** *** Timers of the browser *)

Definition schedule (cb : Callback) (delay : Z) (every : option Z)
  (p : Page) : Z * Page :=
  let id := next_id p in
  let timer :=
    {| timer_id := id; due := clock p + delay; period := every;
       callback := cb |} in
  (id, set_next_id (id + 1) (set_timers (λ ts, ts ++ [timer]) p)).

Definition setTimeout (cb : Callback) (delay : Z) (p : Page) : Z * Page :=
  schedule cb delay None p.

Definition setInterval (cb : Callback) (delay : Z) (p : Page) : Z * Page :=
  schedule cb delay (Some delay) p.

(** Clearing [undefined], [null] or an id that is not pending does nothing. *)
Definition clearTimeout (id : option Z) (p : Page) : Page :=
  match id with
  | Some id =>
      set_timers (filter (λ tm, timer_id tm ≠ id)) p
  | None => p
  end.

Definition clearInterval := clearTimeout.

(** A timer id in a condition: every number but zero is truthy. *)
Definition truthy_id (id : option Z) : bool :=
  match id with
  | Some n => negb (n =? 0)
  | None => false
  end.

(** *** [utils/sessionTimeout.js] *)

Definition TIMEOUT_DURATION : Z := 15 * 60 * 1000.
Definition WARNING_DURATION : Z := 14 * 60 * 1000.

Definition clearInactivityTimer (p : Page) : Page :=
  let p :=
    if truthy_id (inactivityTimer p) then clearTimeout (inactivityTimer p) p
    else p in
  if truthy_id (warningTimer p) then clearTimeout (warningTimer p) p
  else p.

Definition startInactivityTimer (onTimeout : option Handler) (p : Page)
  : Page :=
  let p := clearInactivityTimer p in
  let '(id, p) := setTimeout InactivityWarning WARNING_DURATION p in
  let p := set_warningTimer (Some id) p in
  let '(id, p) :=
    setTimeout (InactivityTimeout onTimeout) TIMEOUT_DURATION p in
  set_inactivityTimer (Some id) p.

Definition resetInactivityTimer (onTimeout : option Handler) (p : Page)
  : Page :=
  let p := clearInactivityTimer p in
  startInactivityTimer onTimeout p.

(** [document.addEventListener]: a listener already registered for the
    type is not added again. *)
Definition addEventListener (type : string) (l : Listener) (p : Page)
  : Page :=
  if bool_decide ((type, l) ∈ listeners p) then p
  else set_listeners (λ ls, ls ++ [(type, l)]) p.

(** [document.removeEventListener]: removes that very function, if it is
    registered for the type. *)
Definition removeEventListener (type : string) (l : Listener) (p : Page)
  : Page :=
  set_listeners (filter (λ entry, entry ≠ (type, l))) p.

(** A new arrow function that calls [resetInactivityTimer(onTimeout)]. *)
Definition new_arrow (onTimeout : option Handler) (p : Page)
  : Listener * Page :=
  (ResetArrow (next_serial p) onTimeout,
   set_next_serial (S (next_serial p)) p).

Definition initializeInactivityTracking (onTimeout : option Handler)
  (p : Page) : Page :=
  let '(f, p) := new_arrow onTimeout p in
  let p := addEventListener "mousemove" f p in
  let '(f, p) := new_arrow onTimeout p in
  let p := addEventListener "keydown" f p in
  let '(f, p) := new_arrow onTimeout p in
  let p := addEventListener "click" f p in
  startInactivityTimer onTimeout p.

Definition removeInactivityTracking (p : Page) : Page :=
  let p := removeEventListener "mousemove" resetInactivityTimer_function p in
  let p := removeEventListener "keydown" resetInactivityTimer_function p in
  let p := removeEventListener "click" resetInactivityTimer_function p in
  clearInactivityTimer p.

(** *** [SessionTimeoutWarning.js] *)

(** The effect, run when the component is rendered with [isAuthenticated]. *)
Definition SessionTimeoutWarning_mount (threshold total : Z) (p : Page)
  : Page :=
  let '(id, p) :=
    setTimeout DialogWarning ((total - threshold) * 1000) p in
  set_dialog
    (Some {| warningThreshold := threshold; logoutTime := total;
             open := false; timeLeft := threshold;
             dialog_warningTimer := Some id;
             dialog_intervalTimer := None;
             dialog_logoutTimer := None |}) p.

(** The cleanup of the effect. *)
Definition SessionTimeoutWarning_unmount (p : Page) : Page :=
  match dialog p with
  | Some d =>
      let p := clearTimeout (dialog_warningTimer d) p in
      let p := clearTimeout (dialog_logoutTimer d) p in
      let p := clearInterval (dialog_intervalTimer d) p in
      set_dialog None p
  | None => p
  end.

(** *** [AppWrapper.js] *)

(** A change of the [isAuthenticated] state: the conditional rendering of
    [SessionTimeoutWarning] and the second effect follow it, the effect of
    the child before the effect of the parent. *)
Definition setIsAuthenticated (b : bool) (p : Page) : Page :=
  if Bool.eqb b (app_isAuthenticated p) then p
  else
    let p := set_app_isAuthenticated b p in
    if b then
      let p := SessionTimeoutWarning_mount 60 900 p in
      initializeInactivityTracking (Some handleTimeout) p
    else
      let p := clearInactivityTimer p in
      SessionTimeoutWarning_unmount p.

(** The first effect, run on every change of [location]. *)
Definition AppWrapper_location_effect (p : Page) : Page :=
  let token := getToken (localStorage p) in
  setIsAuthenticated (truthy token) p.

(** [navigate(to)] of the router: the location changes and the first
    effect runs.  The function [navigate] itself is taken to be the same
    object across renders, so the second effect follows [isAuthenticated]
    alone. *)
Definition navigate (to : string) (p : Page) : Page :=
  AppWrapper_location_effect (set_location to p).

(** Calling [onTimeout]: the two functions of [AppWrapper], or a value
    that is no function, whose call throws and leaves the page as it is. *)
Definition call_handler (h : Handler) (p : Page) : Page :=
  match h with
  | handleTimeout =>
      let p := log "Session timeout due to inactivity" p in
      let p := set_localStorage clearTokens p in
      navigate "/login?session_expired=true" p
  | handleTimeout_onReset =>
      let p := set_localStorage clearTokens p in
      navigate "/login?session_expired=true" p
  | EventObject => p
  end.

Definition handleResetTimeout (p : Page) : Page :=
  if app_isAuthenticated p then
    let p := clearInactivityTimer p in
    initializeInactivityTracking (Some handleTimeout_onReset) p
  else p.

Definition update_dialog (f : Dialog → Dialog) (p : Page) : Page :=
  set_dialog (f <$> dialog p) p.

Definition setOpen (b : bool) (d : Dialog) : Dialog :=
  {| warningThreshold := warningThreshold d; logoutTime := logoutTime d;
     open := b; timeLeft := timeLeft d;
     dialog_warningTimer := dialog_warningTimer d;
     dialog_intervalTimer := dialog_intervalTimer d;
     dialog_logoutTimer := dialog_logoutTimer d |}.

Definition setTimeLeft (f : Z → Z) (d : Dialog) : Dialog :=
  {| warningThreshold := warningThreshold d; logoutTime := logoutTime d;
     open := open d; timeLeft := f (timeLeft d);
     dialog_warningTimer := dialog_warningTimer d;
     dialog_intervalTimer := dialog_intervalTimer d;
     dialog_logoutTimer := dialog_logoutTimer d |}.

Definition set_dialog_timers (interval logout : option Z) (d : Dialog)
  : Dialog :=
  {| warningThreshold := warningThreshold d; logoutTime := logoutTime d;
     open := open d; timeLeft := timeLeft d;
     dialog_warningTimer := dialog_warningTimer d;
     dialog_intervalTimer := interval;
     dialog_logoutTimer := logout |}.

Definition handleLogout (p : Page) : Page :=
  let p := update_dialog (setOpen false) p in
  let p := set_localStorage clearTokens p in
  navigate "/login" p.

Definition handleStayLoggedIn (p : Page) : Page :=
  match dialog p with
  | Some d =>
      let p := update_dialog (setOpen false) p in
      let p := update_dialog (setTimeLeft (λ _, warningThreshold d)) p in
      handleResetTimeout p
  | None => p
  end.

(** *** Running timers and events *)

Definition run_callback (cb : Callback) (p : Page) : Page :=
  match cb with
  | InactivityWarning =>
      log "You will be logged out soon due to inactivity." p
  | InactivityTimeout onTimeout =>
      match onTimeout with
      | Some h => call_handler h p
      | None => p
      end
  | DialogWarning =>
      match dialog p with
      | Some d =>
          let p := update_dialog (setOpen true) p in
          let '(interval, p) := setInterval DialogTick 1000 p in
          let '(logout, p) :=
            setTimeout DialogLogout (warningThreshold d * 1000) p in
          update_dialog (set_dialog_timers (Some interval) (Some logout)) p
      | None => p
      end
  | DialogTick => update_dialog (setTimeLeft (λ prev, prev - 1)) p
  | DialogLogout => handleLogout p
  end.

(** The pending timer that is due first; of two due together, the one
    created first. *)
Fixpoint earliest (ts : list Timer) : option Timer :=
  match ts with
  | [] => None
  | tm :: rest =>
      match earliest rest with
      | Some tm' => if due tm' <? due tm then Some tm' else Some tm
      | None => Some tm
      end
  end.

Definition next_due (t : Z) (p : Page) : option Timer :=
  match earliest (timers p) with
  | Some tm => if due tm <=? t then Some tm else None
  | None => None
  end.

(** A timer fires: a timeout leaves the table, an interval is set again. *)
Definition fire (tm : Timer) (p : Page) : Page :=
  let p := set_clock (Z.max (clock p) (due tm)) p in
  let p :=
    match period tm with
    | None => clearTimeout (Some (timer_id tm)) p
    | Some d =>
        set_timers
          (map (λ x, if bool_decide (timer_id x = timer_id tm)
                     then {| timer_id := timer_id x; due := due x + d;
                             period := period x; callback := callback x |}
                     else x)) p
    end in
  run_callback (callback tm) p.

(** Time passes until [t]: every timer due by then fires, in order.
    [None] is a run that needs more fuel. *)
Fixpoint run_until (fuel : nat) (t : Z) (p : Page) : option Page :=
  match next_due t p with
  | None => Some (set_clock (Z.max (clock p) t) p)
  | Some tm =>
      match fuel with
      | O => None
      | S fuel => run_until fuel t (fire tm p)
      end
  end.

Definition call_listener (l : Listener) (p : Page) : Page :=
  match l with
  | ResetArrow _ onTimeout => resetInactivityTimer onTimeout p
  | resetInactivityTimer_function => resetInactivityTimer (Some EventObject) p
  end.

(** An event of the given type reaches [document]: the listeners registered
    for it run in order of registration. *)
Definition dispatchEvent (type : string) (p : Page) : Page :=
  fold_left (λ p entry, call_listener (snd entry) p)
    (filter (λ entry, fst entry = type) (listeners p)) p.

(** A timeline: at each time, after the timers due by then, one event. *)
Fixpoint run_events (fuel : nat) (events : list (Z * string)) (p : Page)
  : option Page :=
  match events with
  | [] => Some p
  | (t, type) :: rest =>
      p ← run_until fuel t p;
      run_events fuel rest (dispatchEvent type p)
  end.

(** A document that has just been loaded: no timer, no listener, the
    module variables of [sessionTimeout.js] still [undefined], the state of
    [AppWrapper] at its initial value. *)
Definition blank (ls : Storage) (now : Z) (path : string) : Page :=
  {| localStorage := ls; clock := now; timers := []; next_id := 1;
     listeners := []; next_serial := 0; inactivityTimer := None;
     warningTimer := None; console := []; location := path;
     app_isAuthenticated := false; dialog := None |}.

(** The application mounted in it: the first effect of [AppWrapper] runs. *)
Definition load (ls : Storage) (now : Z) (path : string) : Page :=
  AppWrapper_location_effect (blank ls now path).

(** The three events that [initializeInactivityTracking] listens to. *)
Definition activity (type : string) : Prop :=
  type ∈ ["mousemove"; "keydown"; "click"].

(** A timeline of activity in which every event comes before the warning
    that the event before it (or the start, at [last]) has scheduled. *)
Fixpoint before_warning (last : Z) (events : list (Z * string)) : Prop :=
  match events with
  | [] => True
  | (t, type) :: rest =>
      last ≤ t < last + WARNING_DURATION ∧ activity type
      ∧ before_warning t rest
  end.

(** The time of the last event, or [start] if there is none. *)
Fixpoint last_time (start : Z) (events : list (Z * string)) : Z :=
  match events with
  | [] => start
  | (t, _) :: rest => last_time t rest
  end.

(** The page as [initializeInactivityTracking(h)] leaves a blank document
    whose last reset was at [t0]: the two timers of [sessionTimeout.js] are
    the only ones pending, measured from [t0], and the three arrow
    functions are the only listeners. *)
Definition tracking (h : option Handler) (t0 : Z) (p : Page) : Prop :=
  ∃ idw idt a b c,
    warningTimer p = Some idw ∧ inactivityTimer p = Some idt
    ∧ idw ≠ 0 ∧ idt ≠ 0 ∧ idw ≠ idt ∧ 0 < next_id p
    ∧ timers p =
        [ {| timer_id := idw; due := t0 + WARNING_DURATION; period := None;
             callback := InactivityWarning |};
          {| timer_id := idt; due := t0 + TIMEOUT_DURATION; period := None;
             callback := InactivityTimeout h |} ]
    ∧ listeners p =
        [("mousemove", ResetArrow a h); ("keydown", ResetArrow b h);
         ("click", ResetArrow c h)]
    ∧ clock p = t0.

End Page.

(** ** Tokens and pages used in the examples *)

Module Samples.

Import Js Auth Api Page.

(** Three segments; the second is the base64 text of the JSON payload
    named in each comment. *)
Definition header : string := "eyJhbGciOiJIUzI1NiIsInR5cCI6IkpXVCJ9".

Definition jwt (payload : string) : string :=
  header +:+ "." +:+ payload +:+ ".c2ln".

(* {"sub":"u"} *)
Definition token_without_exp : string := jwt "eyJzdWIiOiJ1In0".

(* {"exp":1700000000} *)
Definition token_exp_1700000000 : string := jwt "eyJleHAiOjE3MDAwMDAwMDB9".

(* {"exp":1700000010} *)
Definition token_exp_1700000010 : string := jwt "eyJleHAiOjE3MDAwMDAwMTB9".

(* {"token_type":"refresh","exp":4102444800,"user_id":1} *)
Definition refresh_token_2100 : string :=
  jwt "eyJ0b2tlbl90eXBlIjoicmVmcmVzaCIsImV4cCI6NDEwMjQ0NDgwMCwidXNlcl9pZCI6MX0".

(* {"exp":{"toString":1}} *)
Definition token_exp_object : string := jwt "eyJleHAiOnsidG9TdHJpbmciOjF9fQ".

(* "abc" *)
Definition token_payload_string : string := jwt "ImFiYyI".

(* [1] *)
Definition token_payload_array : string := jwt "WzFd".

(* {"exp":"soon"} *)
Definition token_exp_soon : string := jwt "eyJleHAiOiJzb29uIn0".

(* {"exp":1699999999.99999999} *)
Definition token_exp_fraction : string :=
  jwt "eyJleHAiOjE2OTk5OTk5OTkuOTk5OTk5OTl9".

(* 1e-400 *)
Definition token_payload_tiny : string := jwt "MWUtNDAw".

(** 2023-11-14T22:13:20Z, in milliseconds. *)
Definition t_1700000000 : Z := 1700000000000.

(** A logged-in browser: an access token that has run out and a refresh
    token good until 2100; nothing on the wire yet. *)
Definition logged_in : World :=
  {| Api.localStorage :=
       saveTokens (Some token_exp_1700000000) (Some refresh_token_2100) ∅;
     defaults := None; href := None; wire := [] |}.

Definition get_stocks : Config :=
  {| url := "/stocks/"; Authorization := None; _retry := false |}.

Definition get_news : Config :=
  {| url := "/news/"; Authorization := None; _retry := false |}.

Definition unauthorized : Response := {| status := 401; data := None |}.

Definition ok (body : string) : Response :=
  {| status := 200;
     data := Some {| access := None; refresh := None; content := body |} |}.

(** The reply of the credential server to a renewal. *)
Definition renewed (access refresh : option string) : Response :=
  {| status := 200;
     data := Some {| access := access; refresh := refresh; content := "" |} |}.

(** The network answers call number [k] with the [k]-th entry of a script
    and does not answer later calls. *)
Definition script (replies : list (option Response)) : Network :=
  λ k, mjoin (replies !! k).

(** The storage of [logged_in]. *)
Definition tokens : Storage :=
  saveTokens (Some token_exp_1700000000) (Some refresh_token_2100) ∅.

(** A user who moves the mouse once a minute, from the first minute after
    the page was loaded (at time 0) to the thirteenth. *)
Definition a_move_every_minute : list (Z * string) :=
  map (λ i, (60000 * Z.of_nat i, "mousemove")) (seq 1 13).

End Samples.

(** ** The specification's token inspector, in its own words *)

Module Spec.

Import Js Browser Auth.

(** What decoding a token yields: nothing, or claims whose expiry may be
    absent. *)
Inductive Claims :=
| Undecodable
| Decoded (expiresAtEpochSeconds : option Number).

(** [isExpired(token, skewSeconds)]: true if the claims cannot be decoded,
    if the expiry is absent, or if [now + skewSeconds >= expiry]; false
    otherwise.  [now] is in milliseconds, as the clock gives it, and the
    comparison is that of the values, in exact arithmetic: the token is
    not expired only if [now / 1000 + skewSeconds] is below the expiry. *)
Definition isExpired (claims : Claims) (now skewSeconds : Z) : bool :=
  match claims with
  | Undecodable => true
  | Decoded None => true
  | Decoded (Some expiry) =>
      match expiry with
      | Fin negative k =>
          negb ((now + 1000 * skewSeconds) * 2 ^ 1074
                <? 1000 * signed negative k)
      | PosInf => false
      | NegInf | NaN => true
      end
  end.

(** The claims in a payload, where the specification speaks of them: no
    payload, or an object whose [exp] is a number or is missing. *)
Definition claims_of (payload : JSON) : option Claims :=
  match payload with
  | JNull => Some Undecodable
  | JObj members =>
      match own_property (codes "exp") members with
      | None => Some (Decoded None)
      | Some (JNum n) => Some (Decoded (Some n))
      | Some _ => None
      end
  | _ => None
  end.

(** A token is malformed when no claims can be decoded from it: there is
    no payload, or the payload is not an object, or its [exp] is not a
    number. *)
Definition malformed (token : string) : Prop :=
  match claims_of (parseJwt token) with
  | Some (Decoded _) => False
  | _ => True
  end.

(** The [try] block of [parseJwt] throws: [atob] rejects the second
    segment, or [JSON.parse] rejects the decoded text. *)
Definition undecodable (token : string) : Prop :=
  match atob (payload_segment token) with
  | None => True
  | Some text => JSON_parse text = None
  end.

End Spec.

(** ** [services/auth.js]: [authAPI.login] and [authAPI.loginDirect] *)

Module AuthAPI.

Import Auth.

Record Credentials := {
  email : string;
  password : string
}.

(** The body of a login reply as the handlers read it: [access], [refresh]
    and [token], each a string when present. *)
Record LoginData := {
  access : option string;
  refresh : option string;
  token : option string
}.

(** [data] is [None] when the body is [null]. *)
Record LoginResponse := {
  status : Z;
  data : option LoginData
}.

(** [http://localhost:8002/api/token/] and
    [http://localhost:8002/api/accounts/direct-login/]. *)
Inductive Endpoint :=
| token_endpoint
| direct_login_endpoint.

Inductive LoginError :=
| NewError (message : string)
| AxiosError (endpoint : Endpoint) (response : option LoginResponse).

Inductive LoginOutcome :=
| LoggedIn (response : LoginResponse)
| Failed (error : LoginError).

(** The storage, and every [axios.post] made so far, oldest first.  Both
    functions post with the bare [axios], so no interceptor runs. *)
Record Browser := {
  localStorage : Storage;
  posts : list (Endpoint * Credentials)
}.

Definition LoginNetwork := nat → option LoginResponse.

Definition post (endpoint : Endpoint) (loginData : Credentials) (b : Browser)
  : Browser :=
  {| localStorage := localStorage b;
     posts := posts b ++ [(endpoint, loginData)] |}.

Definition set_localStorage (f : Storage → Storage) (b : Browser) : Browser :=
  {| localStorage := f (localStorage b); posts := posts b |}.

Definition settle (reply : option LoginResponse)
  : LoginResponse + option LoginResponse :=
  match reply with
  | Some r => if (200 <=? status r) && (status r <? 300) then inl r
              else inr (Some r)
  | None => inr None
  end.

(** [response.data && response.data.member]. *)
Definition member (f : LoginData → option string) (response : LoginResponse)
  : option string :=
  match data response with
  | Some d => f d
  | None => None
  end.

Definition loginDirect (env : LoginNetwork) (b : Browser)
  (credentials : Credentials) : Browser * LoginOutcome :=
  let loginData :=
    {| email := email credentials; password := password credentials |} in
  let k := length (posts b) in
  let b := post direct_login_endpoint loginData b in
  match settle (env k) with
  | inl response =>
      let b :=
        if truthy (member access response) then
          set_localStorage
            (saveTokens (member access response) (member refresh response)) b
        else if truthy (member token response) then
          set_localStorage (setItem "authToken" (member token response)) b
        else b in
      (b, LoggedIn response)
  | inr response => (b, Failed (AxiosError direct_login_endpoint response))
  end.

Definition login (env : LoginNetwork) (b : Browser)
  (credentials : Credentials) : Browser * LoginOutcome :=
  let loginData :=
    {| email := email credentials; password := password credentials |} in
  let k := length (posts b) in
  let b := post token_endpoint loginData b in
  match settle (env k) with
  | inl response =>
      let b :=
        if truthy (member access response) then
          set_localStorage
            (saveTokens (member access response) (member refresh response)) b
        else b in
      (b, LoggedIn response)
  | inr response =>
      if bool_decide (status <$> response = Some 404) then
        loginDirect env b credentials
      else if bool_decide (status <$> response = Some 401) then
        (b, Failed (NewError "Invalid email or password. Please try again."))
      else (b, Failed (AxiosError token_endpoint response))
  end.

End AuthAPI.

(** ** [services/auth.js]: [fetchNewsArticle] *)

Module News.

Import Auth Api.

(** What the function throws: an [Error] it made, or the error it caught. *)
Inductive Thrown :=
| NewError (message : string)
| Caught (error : Error).

Inductive Result :=
| Returned (data : option Data)
| Threw (e : Thrown).

(** A string or [null] inside a template literal. *)
Definition template (v : option string) : string :=
  match v with
  | Some s => s
  | None => "null"
  end.

(** [newsAPI.getNews(page, category)]: a request for [/news/] with an
    [Authorization] header of its own, made from the stored token when the
    call is made. *)
Definition getNews (w : World) : Config :=
  {| url := "/news/";
     Authorization :=
       Some ("Bearer " +:+ template (getToken (Api.localStorage w)));
     _retry := false |}.

(** [newsAPI.getNewsDetail(id)] is [api.get(`/news/${id}/`)]. *)
Definition getNewsDetail (id : string) : Config :=
  {| url := "/news/" +:+ id +:+ "/"; Authorization := None;
     _retry := false |}.

(** [error.response], and whether [error.request] is set: an error of
    axios carries the request it made, a thrown exception carries none. *)
Definition error_response (e : Error) : option Response :=
  match e with
  | ApiError _ response => response
  | RefreshError response => response
  | ThrownError _ => None
  end.

Definition error_request (e : Error) : bool :=
  match e with
  | ApiError _ _ => true
  | RefreshError _ => true
  | ThrownError _ => false
  end.

(** The [catch] block, for an error that came out of [api]. *)
Definition onError (error : Error) (w : World) : World * Result :=
  match error_response error with
  | Some response =>
      if status response =? 401 then
        let w := Api.set_localStorage clearTokens w in
        let w := set_href "/login?session_expired=true" w in
        (w, Threw (NewError "Your session has expired. Please log in again."))
      else if status response =? 404 then
        (w, Threw (NewError "News article not found."))
      else if status response =? 500 then
        (w, Threw (NewError "Server error. The team has been notified."))
      else (w, Threw (Caught error))
  | None =>
      if error_request error then
        (w, Threw (NewError
          "Unable to connect to the server. Please check your internet connection."))
      else (w, Threw (Caught error))
  end.

(** The [Error] thrown for a missing token is caught by the same [catch];
    it has neither [response] nor [request] and is thrown again as it is.
    [None] is a run of [api] that needs more fuel. *)
Definition fetchNewsArticle (env : Network) (now : Z) (w : World)
  (id : string) : option (World * Result) :=
  let token := getToken (Api.localStorage w) in
  if negb (truthy token) then
    Some (w, Threw (NewError "Authentication required. Please log in again."))
  else
    match api 2 env now w (getNewsDetail id) with
    | Some (w, Fulfilled response) => Some (w, Returned (data response))
    | Some (w, Rejected error) => Some (onError error w)
    | None => None
    end.

End News.

(** ** [contexts/AuthContext.js]: the provider's state and its functions *)

Module AuthProvider.

Import Auth Api.

(** [user] is [null] or the body of the profile reply. *)
Record State := {
  user : option Data;
  isAuthenticated : bool;
  isLoading : bool
}.

Definition initial : State :=
  {| user := None; isAuthenticated := false; isLoading := true |}.

(** [authAPI.getProfile()] is [api.get('/accounts/users/me/')]. *)
Definition getProfile : Config :=
  {| url := "/accounts/users/me/"; Authorization := None; _retry := false |}.

(** The effect run once when the provider mounts. *)
Definition checkAuth (env : Network) (now : Z) (w : World) (st : State)
  : option (World * State) :=
  if Auth.isAuthenticated (Api.localStorage w) then
    match api 2 env now w getProfile with
    | Some (w, Fulfilled response) =>
        Some (w, {| user := data response; isAuthenticated := true;
                    isLoading := false |})
    | Some (w, Rejected _) =>
        Some (Api.set_localStorage clearTokens w,
              {| user := None; isAuthenticated := false;
                 isLoading := false |})
    | None => None
    end
  else
    Some (w, {| user := None; isAuthenticated := false; isLoading := false |}).

Definition logout (w : World) (st : State) : World * State :=
  (Api.set_localStorage clearTokens w,
   {| user := None; isAuthenticated := false; isLoading := isLoading st |}).

(** What [login] ends with: the profile it returns, or what it throws. *)
Inductive LoginResult :=
| Profile (data : option Data)
| LoginFailed (error : AuthAPI.LoginError)
| ProfileFailed (error : Error)
| Thrown (e : Js.Exception).

(** [login(credentials)]: [authAPI.login], then the pair of the reply is
    saved whatever it holds, then the profile is fetched through [api]. *)
Definition login (lenv : AuthAPI.LoginNetwork) (env : Network) (now : Z)
  (posts : list (AuthAPI.Endpoint * AuthAPI.Credentials))
  (w : World) (st : State) (credentials : AuthAPI.Credentials)
  : option (list (AuthAPI.Endpoint * AuthAPI.Credentials)
            * World * State * LoginResult) :=
  let '(b, outcome) :=
    AuthAPI.login lenv
      {| AuthAPI.localStorage := Api.localStorage w; AuthAPI.posts := posts |}
      credentials in
  let w := Api.set_localStorage (λ _, AuthAPI.localStorage b) w in
  let posts := AuthAPI.posts b in
  match outcome with
  | AuthAPI.Failed error => Some (posts, w, st, LoginFailed error)
  | AuthAPI.LoggedIn response =>
      match AuthAPI.data response with
      | None => Some (posts, w, st, Thrown Js.TypeError)
      | Some d =>
          let w :=
            Api.set_localStorage
              (saveTokens (AuthAPI.access d) (AuthAPI.refresh d)) w in
          match api 2 env now w getProfile with
          | Some (w, Fulfilled userResponse) =>
              Some (posts, w,
                    {| user := data userResponse; isAuthenticated := true;
                       isLoading := isLoading st |},
                    Profile (data userResponse))
          | Some (w, Rejected error) =>
              Some (posts, w, st, ProfileFailed error)
          | None => None
          end
      end
  end.

(** [getUserFromToken()]: the payload of the stored access token. *)
Definition getUserFromToken (w : World) : Js.JSON :=
  match getToken (Api.localStorage w) with
  | Some token => if truthy (Some token) then parseJwt token else Js.JNull
  | None => Js.JNull
  end.

End AuthProvider.

(** ** [App.js]: [ProtectedRoute] under [AuthProvider] and [AppWrapper] *)

Module App.

Import Auth Api.

(** What [ProtectedRoute] renders. *)
Inductive Rendered :=
| Loading
| Navigate (to : string)
| Children.

Definition ProtectedRoute (st : AuthProvider.State) : Rendered :=
  if AuthProvider.isLoading st then Loading
  else if negb (AuthProvider.isAuthenticated st) then Navigate "/auth"
  else Children.

(** The mounted application: the state of [AuthProvider], and below it
    the page with [AppWrapper], the timers and the listeners. *)
Record Tree := {
  provider : AuthProvider.State;
  page : Page.Page
}.

(** [AppWithProviders] mounts.  The first effect of [AppWrapper] runs at
    once; [checkAuth] of [AuthProvider] ends when its request is answered,
    and what it did to the storage is what the page then has. *)
Definition mount (env : Network) (now : Z) (w : World) (path : string)
  : option (World * Tree) :=
  let p := Page.load (Api.localStorage w) now path in
  '(w', st) ← AuthProvider.checkAuth env now w AuthProvider.initial;
  Some (w', {| provider := st;
               page := Page.set_localStorage (λ _, Api.localStorage w') p |}).

(** Time passes until [t].  The callbacks of the timers are functions of
    [sessionTimeout.js], [AppWrapper.js] and [SessionTimeoutWarning.js];
    none of them is given, or calls, a function of the [AuthContext], and
    [navigate] of the router loads no document, so the state of the
    provider is carried along as it is. *)
Definition run_until (fuel : nat) (t : Z) (a : Tree) : option Tree :=
  p ← Page.run_until fuel t (page a);
  Some {| provider := provider a; page := p |}.

(** A click on "Logout Now" in the warning dialog. *)
Definition click_logout_now (a : Tree) : Tree :=
  {| provider := provider a; page := Page.handleLogout (page a) |}.

End App.

(** * Properties *)

Import Js Browser Auth.

(** ** Token store *)

Section TokenStore.

Implicit Types (ls : Storage) (a r : option string).

Lemma getToken_saveTokens ls a r :
  getToken (saveTokens a r ls) = Some (String_of a).
Proof.
  unfold getToken, saveTokens, getItem, setItem.
  rewrite lookup_insert_ne by discriminate.
  apply lookup_insert_eq.
Qed.

Lemma getRefreshToken_saveTokens ls a r :
  getRefreshToken (saveTokens a r ls) = Some (String_of r).
Proof.
  unfold getRefreshToken, saveTokens, getItem, setItem.
  apply lookup_insert_eq.
Qed.

Lemma getToken_clearTokens ls : getToken (clearTokens ls) = None.
Proof.
  unfold getToken, clearTokens, getItem, removeItem.
  rewrite lookup_delete_ne by discriminate.
  apply lookup_delete_eq.
Qed.

Lemma getRefreshToken_clearTokens ls :
  getRefreshToken (clearTokens ls) = None.
Proof.
  unfold getRefreshToken, clearTokens, getItem, removeItem.
  apply lookup_delete_eq.
Qed.

Lemma isAuthenticated_clearTokens ls :
  isAuthenticated (clearTokens ls) = false.
Proof. unfold isAuthenticated. now rewrite getToken_clearTokens. Qed.

(** Saving a pair leaves every other key alone, and so does clearing. *)
Lemma saveTokens_other ls a r key :
  key ≠ ACCESS_TOKEN_KEY → key ≠ REFRESH_TOKEN_KEY →
  getItem key (saveTokens a r ls) = getItem key ls.
Proof.
  intros Ha Hr. unfold saveTokens, getItem, setItem.
  now rewrite !lookup_insert_ne by congruence.
Qed.

Lemma clearTokens_other ls key :
  key ≠ ACCESS_TOKEN_KEY → key ≠ REFRESH_TOKEN_KEY →
  getItem key (clearTokens ls) = getItem key ls.
Proof.
  intros Ha Hr. unfold clearTokens, getItem, removeItem.
  now rewrite !lookup_delete_ne by congruence.
Qed.

Lemma truthy_Some_iff (v : option string) :
  truthy v = true ↔ ∃ s, v = Some s ∧ s ≠ "".
Proof.
  destruct v as [s|]; simpl.
  - rewrite negb_true_iff, String.eqb_neq. split.
    + intros H. now exists s.
    + now intros (s' & [= <-] & H).
  - split; [discriminate | now intros (s & ? & _)].
Qed.

End TokenStore.

(** C10, as the code has it.  [isAuthenticated()] is [!!getToken()]: it is
    true exactly when the storage holds a string that is not empty under
    the access-token key, and false when the key holds nothing or the empty
    string.  Nothing else decides it: not the refresh token or any other
    key, and not the clock or the claims of the token, so a stored token
    that [isTokenExpired] reports as expired still makes it true. *)
Theorem isAuthenticated_iff_token_stored (ls : Storage) :
  (isAuthenticated ls = true
   ↔ ∃ token, ls !! ACCESS_TOKEN_KEY = Some token ∧ token ≠ "")
  ∧ (isAuthenticated ls = false
     ↔ ls !! ACCESS_TOKEN_KEY = None ∨ ls !! ACCESS_TOKEN_KEY = Some "")
  ∧ (∀ ls' : Storage,
       ls' !! ACCESS_TOKEN_KEY = ls !! ACCESS_TOKEN_KEY →
       isAuthenticated ls' = isAuthenticated ls)
  ∧ (∀ now token,
       ls !! ACCESS_TOKEN_KEY = Some token → token ≠ "" →
       isTokenExpired now (Some token) = Normal true →
       isAuthenticated ls = true).
Proof.
  unfold isAuthenticated, getToken, getItem. cbv zeta.
  split; [apply truthy_Some_iff | split; [|split]].
  - destruct (ls !! ACCESS_TOKEN_KEY) as [s|]; simpl.
    + rewrite negb_false_iff, String.eqb_eq. split.
      * intros ->. now right.
      * now intros [[=] | [= ->]].
    + split; [now left | reflexivity].
  - now intros ls' ->.
  - intros now token Hstored Hne _. apply truthy_Some_iff. now exists token.
Qed.

(** A stored token that expired a second ago still counts as
    authenticated, and an empty storage does not. *)
Lemma isAuthenticated_iff_token_stored_witness :
  let ls : Storage :=
    saveTokens (Some Samples.token_exp_1700000000) None ∅ in
  isTokenExpired (Samples.t_1700000000 + 1000)
    (Some Samples.token_exp_1700000000) = Normal true
  ∧ isAuthenticated ls = true
  ∧ isAuthenticated (∅ : Storage) = false.
Proof.
  intros ls. split; [vm_compute; reflexivity |]. split.
  - apply (proj2 (proj2 (proj2 (isAuthenticated_iff_token_stored ls)))
             (Samples.t_1700000000 + 1000) Samples.token_exp_1700000000).
    + reflexivity.
    + discriminate.
    + vm_compute. reflexivity.
  - apply (proj1 (proj2 (isAuthenticated_iff_token_stored ∅))).
    left. reflexivity.
Defined.

(** C10, as the specification has it, fails: an access token is present
    in storage, put there by [saveTokens], and [isAuthenticated()] is
    false, because the stored string is empty. *)
Lemma isAuthenticated_false_with_token_stored :
  let ls : Storage :=
    saveTokens (Some "") (Some Samples.refresh_token_2100) ∅ in
  ls !! ACCESS_TOKEN_KEY = Some ""
  ∧ getToken ls = Some ""
  ∧ isAuthenticated ls = false.
Proof. intros ls. repeat split. Qed.

(** ** Numbers *)

Section Rounding.

Lemma round_half_even_bounds p q :
  0 < q → p / q ≤ round_half_even p q ≤ p / q + 1.
Proof.
  intros Hq. unfold round_half_even. cbv zeta.
  destruct (_ <? _); [lia|]. destruct (_ <? _); [lia|].
  destruct (Z.even _); lia.
Qed.

Lemma round_half_even_mono p p' q :
  0 < q → p ≤ p' → round_half_even p q ≤ round_half_even p' q.
Proof.
  intros Hq Hle.
  assert (Hn : p / q ≤ p' / q) by (apply Z.div_le_mono; lia).
  destruct (Z.eq_dec (p / q) (p' / q)) as [Heq|Hne].
  - assert (Hr : p mod q ≤ p' mod q).
    { rewrite !Z.mod_eq by lia. rewrite Heq. lia. }
    unfold round_half_even. cbv zeta. rewrite <- Heq.
    repeat match goal with
           | |- context [?a <? ?b] => destruct (Z.ltb_spec a b)
           end; destruct (Z.even (p / q)); lia.
  - pose proof (round_half_even_bounds p q Hq).
    pose proof (round_half_even_bounds p' q Hq). lia.
Qed.

Lemma round_half_even_exact n q :
  0 < q → round_half_even (n * q) q = n.
Proof.
  intros Hq. unfold round_half_even. cbv zeta.
  rewrite Z.div_mul, Z.mod_mul by lia.
  destruct (Z.ltb_spec (2 * 0) q); [reflexivity|lia].
Qed.

Lemma round_half_even_upper p q n :
  0 < q → p ≤ n * q → round_half_even p q ≤ n.
Proof.
  intros Hq Hle.
  rewrite <- (round_half_even_exact n q Hq).
  now apply round_half_even_mono.
Qed.

Lemma round_half_even_lower p q n :
  0 < q → n * q ≤ p → n ≤ round_half_even p q.
Proof.
  intros Hq Hle.
  rewrite <- (round_half_even_exact n q Hq) at 1.
  now apply round_half_even_mono.
Qed.

Lemma round_half_even_scale p q c :
  0 < q → 0 < c → round_half_even (p * c) (q * c) = round_half_even p q.
Proof.
  intros Hq Hc. unfold round_half_even. cbv zeta.
  rewrite Z.div_mul_cancel_r by lia.
  rewrite Z.mul_mod_distr_r by lia.
  assert (H1 : (2 * (p mod q * c) <? q * c) = (2 * (p mod q) <? q)).
  { destruct (Z.ltb_spec (2 * (p mod q)) q), 
      (Z.ltb_spec (2 * (p mod q * c)) (q * c)); try reflexivity; nia. }
  assert (H2 : (q * c <? 2 * (p mod q * c)) = (q <? 2 * (p mod q))).
  { destruct (Z.ltb_spec q (2 * (p mod q))),
      (Z.ltb_spec (q * c) (2 * (p mod q * c))); try reflexivity; nia. }
  now rewrite H1, H2.
Qed.

Lemma nearest_magnitude_nonneg p q :
  0 ≤ p → 0 < q → 0 ≤ nearest_magnitude p q.
Proof.
  intros Hp Hq. unfold nearest_magnitude. cbv zeta.
  set (e := Z.max 0 _).
  assert (0 < 2 ^ e) by (apply Z.pow_pos_nonneg; lia).
  apply Z.mul_nonneg_nonneg; [|lia].
  apply (round_half_even_lower _ _ 0); [nia|].
  assert (0 < 2 ^ 1074) by (apply Z.pow_pos_nonneg; lia). nia.
Qed.

Lemma nearest_magnitude_mono p p' q :
  0 ≤ p → p ≤ p' → 0 < q →
  nearest_magnitude p q ≤ nearest_magnitude p' q.
Proof.
  intros Hp Hle Hq. unfold nearest_magnitude. cbv zeta.
  assert (Hpow : 0 < 2 ^ 1074) by (apply Z.pow_pos_nonneg; lia).
  set (P := p * 2 ^ 1074). set (P' := p' * 2 ^ 1074).
  assert (HP : 0 ≤ P) by (unfold P; nia).
  assert (HPP : P ≤ P') by (unfold P, P'; nia).
  assert (Hf : 0 ≤ P / q) by (apply Z.div_pos; lia).
  assert (Hff : P / q ≤ P' / q) by (apply Z.div_le_mono; lia).
  set (l := Z.log2 (P / q)). set (l' := Z.log2 (P' / q)).
  assert (Hl : l ≤ l') by (apply Z.log2_le_mono; exact Hff).
  assert (Hl0 : 0 ≤ l) by apply Z.log2_nonneg.
  set (e := Z.max 0 (l - 52)). set (e' := Z.max 0 (l' - 52)).
  assert (He0 : 0 ≤ e) by lia.
  assert (HA : 0 < 2 ^ e) by (apply Z.pow_pos_nonneg; lia).
  destruct (Z.eq_dec e e') as [<-|Hne].
  - apply Z.mul_le_mono_nonneg_r; [lia|].
    apply round_half_even_mono; [nia|exact HPP].
  - assert (He : e < e') by lia.
    assert (He' : e' = l' - 52) by lia.
    assert (Hll : l + 1 ≤ l') by lia.
    assert (HA' : 0 < 2 ^ e') by (apply Z.pow_pos_nonneg; lia).
    (* the boundary between the two binades *)
    assert (Hlow : P / q < 2 ^ l').
    { apply Z.lt_le_trans with (2 ^ (l + 1)).
      - destruct (Z.eq_dec (P / q) 0) as [->|Hnz].
        + apply Z.pow_pos_nonneg; lia.
        + apply Z.log2_spec. lia.
      - apply Z.pow_le_mono_r; lia. }
    assert (Hhigh : 2 ^ l' ≤ P' / q).
    { apply Z.log2_spec.
      destruct (Z.eq_dec (P' / q) 0) as [E|Hnz]; [|lia].
      unfold l' in Hll. rewrite E in Hll. cbn in Hll. lia. }
    assert (HPlow : P < 2 ^ l' * q).
    { pose proof (Z.mul_div_le P q Hq).
      pose proof (Z.mod_pos_bound P q Hq).
      rewrite (Z.div_mod P q) by lia. nia. }
    assert (HPhigh : 2 ^ l' * q ≤ P').
    { pose proof (Z.mul_div_le P' q Hq). nia. }
    assert (Hsplit : 2 ^ l' = 2 ^ (l' - e) * 2 ^ e).
    { rewrite <- Z.pow_add_r by lia. f_equal. lia. }
    assert (Hsplit' : 2 ^ l' = 2 ^ 52 * 2 ^ e').
    { rewrite <- Z.pow_add_r by lia. f_equal. lia. }
    apply Z.le_trans with (2 ^ l').
    + rewrite Hsplit. apply Z.mul_le_mono_nonneg_r; [lia|].
      apply round_half_even_upper; [nia|].
      rewrite Hsplit in HPlow. nia.
    + rewrite Hsplit'. apply Z.mul_le_mono_nonneg_r; [lia|].
      apply round_half_even_lower; [nia|].
      rewrite Hsplit' in HPhigh. nia.
Qed.

Lemma nearest_magnitude_scale p q c :
  0 < q → 0 < c → nearest_magnitude (p * c) (q * c) = nearest_magnitude p q.
Proof.
  intros Hq Hc. unfold nearest_magnitude. cbv zeta.
  replace (p * c * 2 ^ 1074) with (p * 2 ^ 1074 * c) by ring.
  rewrite Z.div_mul_cancel_r by lia.
  set (e := Z.max 0 _).
  assert (0 < 2 ^ e) by (apply Z.pow_pos_nonneg; lia).
  replace (q * c * 2 ^ e) with (q * 2 ^ e * c) by ring.
  rewrite round_half_even_scale by nia. reflexivity.
Qed.

(** A value that is a double is its own nearest double: [m * 2^t] with
    [m] below [2^53], in units of [2^-1074]. *)
Lemma nearest_magnitude_exact p q m t :
  0 < q → 0 ≤ m < 2 ^ 53 → 0 ≤ t →
  p * 2 ^ 1074 = m * 2 ^ t * q →
  nearest_magnitude p q = m * 2 ^ t.
Proof.
  intros Hq Hm Ht Hp. unfold nearest_magnitude. cbv zeta.
  rewrite Hp, Z.div_mul by lia.
  destruct (Z.eq_dec m 0) as [->|Hnz].
  { rewrite !Z.mul_0_l.
    pose proof (round_half_even_exact 0 (q * 2 ^ Z.max 0 (Z.log2 0 - 52)))
      as H0.
    rewrite Z.mul_0_l in H0. rewrite H0; [reflexivity|].
    cbn. lia. }
  rewrite Z.log2_mul_pow2 by lia.
  assert (Hlog : Z.log2 m < 53) by (apply Z.log2_lt_pow2; lia).
  set (e := Z.max 0 (t + Z.log2 m - 52)).
  assert (He : 0 ≤ e ≤ t) by lia.
  assert (HA : 0 < 2 ^ e) by (apply Z.pow_pos_nonneg; lia).
  assert (Hsplit : 2 ^ t = 2 ^ (t - e) * 2 ^ e).
  { rewrite <- Z.pow_add_r by lia. f_equal. lia. }
  rewrite Hsplit.
  replace (m * (2 ^ (t - e) * 2 ^ e) * q)
    with (m * 2 ^ (t - e) * (q * 2 ^ e)) by ring.
  rewrite round_half_even_exact by nia. ring.
Qed.

Lemma nearest_double_mono p p' q :
  0 < q → p ≤ p' → Number_le (nearest_double p q) (nearest_double p' q).
Proof.
  intros Hq Hle. unfold nearest_double. cbv zeta.
  pose proof (nearest_magnitude_nonneg (Z.abs p) q (Z.abs_nonneg p) Hq).
  pose proof (nearest_magnitude_nonneg (Z.abs p') q (Z.abs_nonneg p') Hq).
  destruct (Z.ltb_spec p 0), (Z.ltb_spec p' 0); try lia.
  - pose proof (nearest_magnitude_mono (Z.abs p') (Z.abs p) q
                  (Z.abs_nonneg p') ltac:(lia) Hq).
    destruct (Z.leb_spec overflow (nearest_magnitude (Z.abs p) q)),
      (Z.leb_spec overflow (nearest_magnitude (Z.abs p') q));
      cbn; try lia; exact I.
  - destruct (Z.leb_spec overflow (nearest_magnitude (Z.abs p) q)),
      (Z.leb_spec overflow (nearest_magnitude (Z.abs p') q));
      cbn; try lia; exact I.
  - pose proof (nearest_magnitude_mono (Z.abs p) (Z.abs p') q
                  (Z.abs_nonneg p) ltac:(lia) Hq).
    destruct (Z.leb_spec overflow (nearest_magnitude (Z.abs p) q)),
      (Z.leb_spec overflow (nearest_magnitude (Z.abs p') q));
      cbn; try lia; exact I.
Qed.

Lemma Number_lt_le x a b :
  Number_le a b → Number_lt x a = Some true → Number_lt x b = Some true.
Proof.
  destruct x as [| | |nx kx], a as [| | |na ka], b as [| | |nb kb];
    cbn; try easy.
  intros Hle [= Hlt]. f_equal. apply Z.ltb_lt. apply Z.ltb_lt in Hlt. lia.
Qed.


Lemma nearest_double_scale p q c :
  0 < q → 0 < c → nearest_double (p * c) (q * c) = nearest_double p q.
Proof.
  intros Hq Hc. unfold nearest_double. cbv zeta.
  rewrite Z.abs_mul, (Z.abs_eq c) by lia.
  rewrite nearest_magnitude_scale by lia.
  assert (Hsign : (p * c <? 0) = (p <? 0)).
  { destruct (Z.ltb_spec (p * c) 0), (Z.ltb_spec p 0);
      try reflexivity; nia. }
  now rewrite Hsign.
Qed.

Lemma nearest_double_exact p q m t :
  0 ≤ p → 0 < q → 0 ≤ m < 2 ^ 53 → 0 ≤ t ≤ 1074 →
  p * 2 ^ 1074 = m * 2 ^ t * q →
  nearest_double p q = Fin false (m * 2 ^ t).
Proof.
  intros Hp Hq Hm Ht Heq. unfold nearest_double. cbv zeta.
  rewrite Z.abs_eq by lia.
  rewrite (nearest_magnitude_exact p q m t) by (assumption || lia).
  assert (Hbound : m * 2 ^ t < overflow).
  { unfold overflow.
    assert (2 ^ t ≤ 2 ^ 1074) by (apply Z.pow_le_mono_r; lia).
    assert (0 < 2 ^ t) by (apply Z.pow_pos_nonneg; lia).
    replace (2 ^ 2098) with (2 ^ 53 * 2 ^ 1074 * 2 ^ 971)
      by (rewrite <- !Z.pow_add_r by lia; reflexivity).
    assert (0 < 2 ^ 971) by (apply Z.pow_pos_nonneg; lia).
    assert (0 < 2 ^ 53) by (apply Z.pow_pos_nonneg; lia).
    nia. }
  destruct (Z.leb_spec overflow (m * 2 ^ t)); [lia|].
  destruct (Z.ltb_spec p 0); [lia|reflexivity].
Qed.

(** A whole number below [2^53] is a double. *)
Lemma integer_exact n :
  0 ≤ n < 2 ^ 53 → integer n = Fin false (n * 2 ^ 1074).
Proof.
  intros Hn. unfold integer.
  apply nearest_double_exact; lia || ring.
Qed.

(** [exp < Date.now() / 1000] for an [exp] that is a whole number of
    seconds: the rounding of the quotient does not reach the next whole
    number, since [exp + 1/1024] is a double that lies between. *)
Lemma integer_lt_seconds seconds now :
  0 ≤ seconds < 2 ^ 42 →
  Number_lt (integer seconds) (nearest_double now 1000)
  = Some (seconds * 1000 <? now).
Proof.
  intros Hs.
  assert (H53 : 2 ^ 42 * 1024 + 1 < 2 ^ 53) by (cbn; lia).
  rewrite integer_exact by (cbn in *; lia).
  destruct (Z.ltb_spec (seconds * 1000) now) as [Hlt|Hge].
  - assert (Hmid : nearest_double (seconds * 1024 + 1) 1024
                   = Fin false ((seconds * 1024 + 1) * 2 ^ 1064)).
    { apply nearest_double_exact; lia. }
    assert (Hle : Number_le (nearest_double (seconds * 1024 + 1) 1024)
                    (nearest_double now 1000)).
    { rewrite <- (nearest_double_scale (seconds * 1024 + 1) 1024 125)
        by lia.
      rewrite <- (nearest_double_scale now 1000 128) by lia.
      apply nearest_double_mono; lia. }
    rewrite Hmid in Hle.
    replace (2 ^ 1074) with (1024 * 2 ^ 1064) by reflexivity.
    assert (0 < 2 ^ 1064) by (apply Z.pow_pos_nonneg; lia).
    destruct (nearest_double now 1000) as [| | |negative k];
      cbn in Hle |- *; try easy.
    f_equal. apply Z.ltb_lt. destruct negative; cbn in Hle |- *; nia.
  - assert (Hat : nearest_double (seconds * 1000) 1000
                  = Fin false (seconds * 2 ^ 1074)).
    { apply nearest_double_exact; lia || ring. }
    assert (Hle : Number_le (nearest_double now 1000)
                    (nearest_double (seconds * 1000) 1000)).
    { apply nearest_double_mono; lia. }
    rewrite Hat in Hle.
    destruct (nearest_double now 1000) as [| | |negative k];
      cbn in Hle |- *; try easy.
    f_equal. apply Z.ltb_ge. exact Hle.
Qed.

End Rounding.

(** ** Token inspector *)

Section TokenInspector.

Lemma parseJwt_undecodable token :
  Spec.undecodable token → parseJwt token = JNull.
Proof.
  unfold Spec.undecodable, parseJwt.
  destruct (atob (payload_segment token)) as [text|]; [|reflexivity].
  now intros ->.
Qed.

(** A token without a dot has no second segment. *)
Lemma undecodable_one_segment token :
  split "." token !! 1%nat = None → Spec.undecodable token.
Proof.
  intros H. unfold Spec.undecodable, payload_segment. rewrite H. exact I.
Qed.

Lemma Get_Some_truthy payload name v :
  Get payload name = Some v → ToBoolean (Some payload) = true.
Proof. destruct payload; simpl; try discriminate. reflexivity. Qed.

(** After the two guards, the answer is that of the comparison. *)
Lemma isTokenExpired_compares now token :
  token ≠ "" → ToBoolean (Some (parseJwt token)) = true →
  isTokenExpired now (Some token)
  = lt_number (Get (parseJwt token) "exp") (nearest_double now 1000).
Proof.
  intros Hne Htruthy. unfold isTokenExpired.
  assert (Hnonempty : negb (truthy (Some token)) = false).
  { simpl. rewrite negb_involutive. now apply String.eqb_neq. }
  now rewrite Hnonempty, Htruthy.
Qed.

Lemma isTokenExpired_falsy now token :
  ToBoolean (Some (parseJwt token)) = false →
  isTokenExpired now (Some token) = Normal true.
Proof.
  intros Hfalsy. unfold isTokenExpired.
  destruct (negb (truthy (Some token))); [reflexivity|].
  now rewrite Hfalsy.
Qed.

End TokenInspector.

(** C6, as the code has it.  [isTokenExpired] is fail-closed where decoding
    throws or yields a falsy payload, and only there.  When [atob] or
    [JSON.parse] throws inside [parseJwt] the payload is [null] and the
    answer is true, and so it is for every falsy payload.  A token whose
    second segment decodes to JSON that is truthy and no object (a string,
    an array, [true], a number other than zero) has no [exp]: the comparison
    is with [undefined] and the answer is false, at every time.  The same
    holds for an object whose [exp] is a string that is no numeric
    literal. *)
Theorem isTokenExpired_fail_closed (now : Z) (token : string) :
  let payload := parseJwt token in
  (Spec.undecodable token →
   payload = JNull ∧ isTokenExpired now (Some token) = Normal true)
  ∧ (ToBoolean (Some payload) = false →
     isTokenExpired now (Some token) = Normal true)
  ∧ (token ≠ "" → ToBoolean (Some payload) = true →
     (∀ members, payload ≠ JObj members) →
     isTokenExpired now (Some token) = Normal false)
  ∧ (token ≠ "" →
     ∀ s, Get payload "exp" = Some (JStr s) → StringToNumber s = NaN →
          isTokenExpired now (Some token) = Normal false).
Proof.
  intros payload. split; [|split; [|split]].
  - intros H. pose proof (parseJwt_undecodable token H) as Hnull.
    split; [exact Hnull|]. apply isTokenExpired_falsy.
    now rewrite Hnull.
  - apply isTokenExpired_falsy.
  - intros Hne Htruthy Hobject.
    rewrite isTokenExpired_compares by assumption. fold payload.
    destruct payload as [|b|n|s|items|members]; try reflexivity.
    now destruct (Hobject members).
  - intros Hne s Hexp Hnan.
    rewrite isTokenExpired_compares;
      [|assumption|exact (Get_Some_truthy _ _ _ Hexp)].
    fold payload. rewrite Hexp. unfold lt_number, ToNumber.
    now rewrite Hnan.
Qed.

Lemma isTokenExpired_fail_closed_witness :
  isTokenExpired Samples.t_1700000000 (Some "not-a-token") = Normal true
  ∧ isTokenExpired Samples.t_1700000000 (Some Samples.token_payload_tiny)
    = Normal true
  ∧ isTokenExpired Samples.t_1700000000 (Some Samples.token_payload_array)
    = Normal false
  ∧ isTokenExpired Samples.t_1700000000 (Some Samples.token_exp_soon)
    = Normal false.
Proof.
  split; [|split; [|split]].
  - destruct (isTokenExpired_fail_closed Samples.t_1700000000 "not-a-token")
      as (H & _).
    apply H. exact I.
  - destruct (isTokenExpired_fail_closed Samples.t_1700000000
                Samples.token_payload_tiny) as (_ & H & _).
    apply H. vm_compute. reflexivity.
  - destruct (isTokenExpired_fail_closed Samples.t_1700000000
                Samples.token_payload_array) as (_ & _ & H & _).
    apply H.
    + discriminate.
    + vm_compute. reflexivity.
    + vm_compute. discriminate.
  - destruct (isTokenExpired_fail_closed Samples.t_1700000000
                Samples.token_exp_soon) as (_ & _ & _ & H).
    apply (H ltac:(discriminate) (codes "soon")).
    + vm_compute. reflexivity.
    + vm_compute. reflexivity.
Defined.

(** C6, as the specification has it, fails: no claims can be decoded from
    these three tokens, whose payloads are the string "abc", the array
    [[1]] and an object whose [exp] is the string "soon", and each of
    them is reported as not expired. *)
Lemma isTokenExpired_not_fail_closed :
  let now := Samples.t_1700000000 in
  (Spec.malformed Samples.token_payload_string
   ∧ isTokenExpired now (Some Samples.token_payload_string) = Normal false)
  ∧ (Spec.malformed Samples.token_payload_array
     ∧ isTokenExpired now (Some Samples.token_payload_array) = Normal false)
  ∧ (Spec.malformed Samples.token_exp_soon
     ∧ isTokenExpired now (Some Samples.token_exp_soon) = Normal false).
Proof. vm_compute. repeat split. Qed.

(** C2, as the code has it.  [isTokenExpired(token)] has no skew parameter.
    It returns true for a missing or empty token and for a payload that
    [parseJwt] could not decode (or that is falsy); for a decoded payload
    without [exp] it returns false; for a payload whose [exp] is a number
    it returns whether [exp < Date.now() / 1000], a comparison of doubles.
    For an [exp] that is a whole number of seconds the rounding of the
    quotient changes nothing: the answer is true exactly when
    [exp * 1000 < Date.now()], strictly, so at the very millisecond of
    [exp] it is false. *)
Theorem isTokenExpired_cases (now : Z) :
  isTokenExpired now None = Normal true
  ∧ isTokenExpired now (Some "") = Normal true
  ∧ ∀ token, token ≠ "" →
      let payload := parseJwt token in
      (ToBoolean (Some payload) = false →
         isTokenExpired now (Some token) = Normal true)
      ∧ (ToBoolean (Some payload) = true → Get payload "exp" = undefined →
           isTokenExpired now (Some token) = Normal false)
      ∧ (∀ x, Get payload "exp" = Some (JNum x) →
           isTokenExpired now (Some token)
           = Normal (match Number_lt x (nearest_double now 1000) with
                     | Some b => b
                     | None => false
                     end))
      ∧ (∀ seconds, 0 ≤ seconds < 2 ^ 42 →
           Get payload "exp" = Some (JNum (integer seconds)) →
           isTokenExpired now (Some token)
           = Normal (seconds * 1000 <? now)).
Proof.
  split; [reflexivity | split; [reflexivity |]].
  intros token Hne payload.
  assert (Hnum : ∀ x, Get payload "exp" = Some (JNum x) →
            isTokenExpired now (Some token)
            = Normal (match Number_lt x (nearest_double now 1000) with
                      | Some b => b
                      | None => false
                      end)).
  { intros x Hexp.
    rewrite isTokenExpired_compares;
      [|assumption|exact (Get_Some_truthy _ _ _ Hexp)].
    fold payload. rewrite Hexp. unfold lt_number, ToNumber.
    now destruct (Number_lt x _) as [b|]. }
  split; [apply isTokenExpired_falsy|]. split; [|split].
  - intros Htruthy Hexp.
    rewrite isTokenExpired_compares by assumption. fold payload.
    now rewrite Hexp.
  - exact Hnum.
  - intros seconds Hrange Hexp.
    now rewrite (Hnum _ Hexp), integer_lt_seconds.
Qed.

Lemma isTokenExpired_cases_witness :
  isTokenExpired (Samples.t_1700000000 + 1)
    (Some Samples.token_exp_1700000000) = Normal true
  ∧ isTokenExpired Samples.t_1700000000
      (Some Samples.token_exp_1700000000) = Normal false.
Proof.
  split.
  - destruct (proj2 (proj2 (isTokenExpired_cases (Samples.t_1700000000 + 1)))
                Samples.token_exp_1700000000) as (_ & _ & _ & H).
    + discriminate.
    + apply (H 1700000000); [cbn; lia|vm_compute; reflexivity].
  - destruct (proj2 (proj2 (isTokenExpired_cases Samples.t_1700000000))
                Samples.token_exp_1700000000) as (_ & _ & _ & H).
    + discriminate.
    + apply (H 1700000000); [cbn; lia|vm_compute; reflexivity].
Defined.

(** C2, as the specification has it, fails on the code in three ways, each
    shown at a token whose payload is given in [Samples]: a payload without
    [exp] is not expired; a token is not yet expired at the very second of
    its [exp]; and no skew is taken into account, so a token ten seconds
    before its [exp] is not expired under a skew of thirty. *)
Lemma isTokenExpired_not_as_specified :
  let now := Samples.t_1700000000 in
  (Spec.claims_of (parseJwt Samples.token_without_exp)
     = Some (Spec.Decoded None)
   ∧ Spec.isExpired (Spec.Decoded None) now 0 = true
   ∧ isTokenExpired now (Some Samples.token_without_exp) = Normal false)
  ∧ (Spec.claims_of (parseJwt Samples.token_exp_1700000000)
       = Some (Spec.Decoded (Some (integer 1700000000)))
     ∧ Spec.isExpired (Spec.Decoded (Some (integer 1700000000))) now 0 = true
     ∧ isTokenExpired now (Some Samples.token_exp_1700000000) = Normal false)
  ∧ (Spec.claims_of (parseJwt Samples.token_exp_1700000010)
       = Some (Spec.Decoded (Some (integer 1700000010)))
     ∧ Spec.isExpired (Spec.Decoded (Some (integer 1700000010))) now 30 = true
     ∧ isTokenExpired now (Some Samples.token_exp_1700000010) = Normal false).
Proof. vm_compute. repeat split. Qed.

(** Numbers are doubles.  An [exp] written with more digits than a double
    holds is the double nearest to it, here 1700000000, and the token is
    not yet expired at that second; a payload that is a number too small
    for a double is zero, which is falsy, and the token counts as
    expired. *)
Example isTokenExpired_rounds :
  Get (parseJwt Samples.token_exp_fraction) "exp"
  = Some (JNum (integer 1700000000))
  ∧ isTokenExpired Samples.t_1700000000 (Some Samples.token_exp_fraction)
    = Normal false
  ∧ parseJwt Samples.token_payload_tiny = JNum (Fin false 0)
  ∧ isTokenExpired Samples.t_1700000000 (Some Samples.token_payload_tiny)
    = Normal true.
Proof. vm_compute. repeat split. Qed.

(** A second segment that decodes to JSON which is no claims object, here
    the number 5, is decodable: [parseJwt] returns it, it has no [exp], and
    the token counts as not expired. *)
Example isTokenExpired_payload_not_an_object :
  parseJwt "h.NQ.s" = JNum (integer 5)
  ∧ isTokenExpired Samples.t_1700000000 (Some "h.NQ.s") = Normal false.
Proof. vm_compute. split; reflexivity. Qed.

(** [isTokenExpired] does not always return: an [exp] that is an object
    with a member named [toString] makes the comparison throw. *)
Example isTokenExpired_throws :
  parseJwt Samples.token_exp_object
  = JObj [(codes "exp", JObj [(codes "toString", JNum (integer 1))])]
  ∧ isTokenExpired Samples.t_1700000000 (Some Samples.token_exp_object)
    = Throw TypeError.
Proof. vm_compute. split; reflexivity. Qed.

(** ** Request pipeline *)

Import Api.

Section Pipeline.

Implicit Types (w : World) (c config : Config) (env : Network).

Lemma retry_sent w c : _retry (sent w c) = _retry c.
Proof.
  unfold sent, onRequest, mergeConfig.
  now destruct (truthy _), (Authorization c).
Qed.

Lemma url_sent w c : url (sent w c) = url c.
Proof.
  unfold sent, onRequest, mergeConfig.
  now destruct (truthy _), (Authorization c).
Qed.

Lemma api_unfold n env now w config :
  api (S n) env now w config =
    let c := sent w config in
    let w1 := send (ApiCall c) w in
    match settle (env (length (wire w))) with
    | inl response => Some (w1, Fulfilled response)
    | inr response => onRejected (api n env now) env now w1 c response
    end.
Proof. reflexivity. Qed.

(** A request that carries the [_retry] mark is sent once and its answer,
    whatever it is, goes to the caller: the handler does nothing for it. *)
Lemma api_retried n env now w config :
  _retry config = true →
  api (S n) env now w config =
    Some (send (ApiCall (sent w config)) w,
          match settle (env (length (wire w))) with
          | inl response => Fulfilled response
          | inr response => Rejected (ApiError (sent w config) response)
          end).
Proof.
  intros Hretry. rewrite api_unfold. cbv zeta.
  destruct (settle _) as [response|response]; [reflexivity|].
  unfold onRejected, onRejected_begin.
  rewrite retry_sent, Hretry, andb_false_r. reflexivity.
Qed.

(** The handler suspends only on a first 401 with a refresh token in
    storage that has not run out, and then one renewal call has left. *)
Lemma onRejected_begin_suspended now w c response w1 original rt :
  onRejected_begin now w c response = (w1, inr (AwaitRefresh original rt)) →
  status <$> response = Some 401 ∧ _retry c = false
  ∧ rt = getRefreshToken (localStorage w)
  ∧ truthy rt = true ∧ isTokenExpired now rt = Normal false
  ∧ original = set_retry true c
  ∧ w1 = send (RefreshCall (String_of rt)) w.
Proof.
  unfold onRejected_begin.
  destruct (bool_decide _) eqn:Hstatus; [|discriminate].
  destruct (_retry c); [discriminate|]. simpl.
  apply bool_decide_eq_true in Hstatus.
  destruct (truthy (getRefreshToken (localStorage w))) eqn:Htruthy; simpl;
    [|discriminate].
  destruct (isTokenExpired now _) as [[|]|e] eqn:Hexpired; try discriminate.
  intros [= <- <- <-]. repeat split; assumption.
Qed.

(** Two units of fuel are enough: more change nothing. *)
Lemma api_fuel n env now w config :
  api (S (S n)) env now w config = api 2 env now w config.
Proof.
  rewrite !api_unfold. cbv zeta.
  destruct (settle _) as [response|response]; [reflexivity|].
  unfold onRejected.
  destruct (onRejected_begin _ _ _ _) as [w1 [outcome|[original rt]]] eqn:Hbegin;
    [reflexivity|].
  apply onRejected_begin_suspended in Hbegin as (_ & _ & _ & _ & _ & -> & _).
  unfold onRejected_resume.
  destruct (settle _) as [renewal|failed]; [|reflexivity].
  destruct (data renewal) as [d|]; [|reflexivity].
  now rewrite !api_retried.
Qed.

(** A renewal that succeeds: the access token of the reply is stored with
    the refresh token that was sent, the defaults and the request get the
    new header, and the request is sent again. *)
Lemma onRejected_resume_renewed
  (k : World → Config → option (World * Outcome)) w original rt response d :
  settle (Some response) = inl response → data response = Some d →
  onRejected_resume k w (AwaitRefresh original rt) (Some response)
  = k (set_defaults (Some (Bearer (access d)))
         (set_localStorage (saveTokens (access d) rt) w))
      (set_Authorization (Some (Bearer (access d))) original).
Proof.
  intros Hsettle Hdata. unfold onRejected_resume.
  now rewrite Hsettle, Hdata.
Qed.

(** A renewal that fails, by a rejected call or a body that is [null]. *)
Lemma onRejected_resume_failed
  (k : World → Config → option (World * Outcome)) w s reply :
  (∃ failed, settle reply = inr failed)
  ∨ (∃ response, settle reply = inl response ∧ data response = None) →
  ∃ error,
    onRejected_resume k w s reply
    = Some (set_href "/login?expired=true" (set_localStorage clearTokens w),
            Rejected error)
    ∧ match settle reply with
      | inr failed => error = RefreshError failed
      | inl _ => error = ThrownError TypeError
      end.
Proof.
  destruct s as [original rt]. unfold onRejected_resume, onRefreshFailed.
  intros [[failed ->] | (response & -> & ->)]; eauto.
Qed.

End Pipeline.

Ltac count_wire :=
  unfold requests_to, refresh_calls;
  cbn [wire set_href set_localStorage set_defaults send onRefreshFailed
       fst snd];
  rewrite ?filter_app, ?length_app, ?filter_cons, ?filter_nil;
  repeat (destruct (decide _)); cbn [length is_refresh] in *;
  try discriminate; try lia.

(** C3.  Retry-once.  Whatever the network answers, [api(config)] returns,
    having sent the request at most twice and asked for at most one renewal,
    three calls at most in all; more fuel changes nothing.  A request that
    already carries the [_retry] mark is sent exactly once: if it fails, with
    401 or anything else, that failure goes to the caller and nothing more
    is sent. *)
Theorem api_retries_at_most_once (env : Network) (now : Z) (w : World)
  (config : Config) :
  ∃ w' outcome,
    (∀ n, api (S (S n)) env now w config = Some (w', outcome))
    ∧ (requests_to (url config) w' ≤ requests_to (url config) w + 2)%nat
    ∧ (refresh_calls w' ≤ refresh_calls w + 1)%nat
    ∧ (length (wire w') ≤ length (wire w) + 3)%nat
    ∧ (_retry config = true →
       wire w' = wire w ++ [ApiCall (sent w config)]
       ∧ ∀ response,
           settle (env (length (wire w))) = inr response →
           outcome = Rejected (ApiError (sent w config) response)).
Proof.
  assert (H : ∃ w' outcome,
    api 2 env now w config = Some (w', outcome)
    ∧ (requests_to (url config) w' ≤ requests_to (url config) w + 2)%nat
    ∧ (refresh_calls w' ≤ refresh_calls w + 1)%nat
    ∧ (length (wire w') ≤ length (wire w) + 3)%nat
    ∧ (_retry config = true →
       wire w' = wire w ++ [ApiCall (sent w config)]
       ∧ ∀ response,
           settle (env (length (wire w))) = inr response →
           outcome = Rejected (ApiError (sent w config) response))).
  { destruct (_retry config) eqn:Hretry.
    - rewrite api_retried by assumption.
      eexists _, _. split; [reflexivity|].
      repeat split; try count_wire.
      intros response ->. reflexivity.
    - rewrite api_unfold. cbv zeta.
      destruct (settle (env (length (wire w)))) as [response|response].
      { eexists _, _. split; [reflexivity|].
        repeat split; try discriminate; count_wire. }
      unfold onRejected, onRejected_begin.
      destruct (bool_decide _ && negb _).
      2:{ eexists _, _. split; [reflexivity|].
          repeat split; try discriminate; count_wire. }
      destruct (if negb (truthy _) then _ else _) as [[|]|e].
      + eexists _, _. split; [reflexivity|].
        repeat split; try discriminate; count_wire.
      + unfold onRejected_resume.
        match goal with
        | |- context [settle ?x] => destruct (settle x) as [renewal|failed]
        end.
        * destruct (data renewal) as [d|].
          -- rewrite api_retried by reflexivity.
             eexists _, _. split; [reflexivity|].
             repeat split; try discriminate; count_wire.
          -- eexists _, _. split; [reflexivity|].
             repeat split; try discriminate; count_wire.
        * eexists _, _. split; [reflexivity|].
          repeat split; try discriminate; count_wire.
      + eexists _, _. split; [reflexivity|].
        repeat split; try discriminate; count_wire. }
  destruct H as (w' & outcome & Hrun & Hrest).
  exists w', outcome. split; [|exact Hrest].
  intros n. now rewrite api_fuel.
Qed.

(** A request that carries the mark and is answered 401: one call, and the
    401 goes to the caller. *)
Lemma api_retries_at_most_once_witness :
  let env := Samples.script [Some Samples.unauthorized] in
  let now := Samples.t_1700000000 + 5000 in
  let retried := set_retry true Samples.get_stocks in
  ∃ w',
    api 2 env now Samples.logged_in retried
    = Some (w', Rejected (ApiError (sent Samples.logged_in retried)
                            (Some Samples.unauthorized)))
    ∧ wire w' = [ApiCall (sent Samples.logged_in retried)].
Proof.
  intros env now retried.
  destruct (api_retries_at_most_once env now Samples.logged_in retried)
    as (w' & outcome & Hrun & _ & _ & _ & Hretried).
  destruct (Hretried eq_refl) as [Hwire Houtcome].
  rewrite (Houtcome (Some Samples.unauthorized) eq_refl) in Hrun.
  exists w'. split; [apply (Hrun 0%nat) | exact Hwire].
Defined.

(** The whole cycle: 401, renewal, the request again, 401 again.  The
    caller gets the second 401; three calls are on the wire and the fourth
    answer of the network is never asked for. *)
Example api_second_401_is_final :
  let env :=
    Samples.script [Some Samples.unauthorized;
                    Some (Samples.renewed (Some "A1") None);
                    Some Samples.unauthorized;
                    Some (Samples.ok "late")] in
  let now := Samples.t_1700000000 + 5000 in
  let retried :=
    {| url := "/stocks/"; Authorization := Some "Bearer A1";
       _retry := true |} in
  ∃ w',
    api 2 env now Samples.logged_in Samples.get_stocks
    = Some (w', Rejected (ApiError retried (Some Samples.unauthorized)))
    ∧ requests_to "/stocks/" w' = 2%nat
    ∧ refresh_calls w' = 1%nat
    ∧ length (wire w') = 3%nat.
Proof. vm_compute. eexists. repeat split. Qed.

(** ** Renewal *)

(** C4, as the code has it.  On a successful renewal the access token of
    the reply is stored, and with it the refresh token that was sent, not
    the one the reply may carry: the reply's [refresh] member has no
    influence on the outcome.  Both keys are written by one call of
    [saveTokens]. *)
Theorem renewal_stores_new_access_old_refresh (env : Network) (now : Z)
  (n : nat) (w : World) (original : Config) (rt : option string)
  (response : Response) (d : Data) (w' : World) (outcome : Outcome) :
  _retry original = true →
  settle (Some response) = inl response → data response = Some d →
  onRejected_resume (api (S n) env now) w (AwaitRefresh original rt)
    (Some response) = Some (w', outcome) →
  localStorage w' = saveTokens (access d) rt (localStorage w)
  ∧ getToken (localStorage w') = Some (String_of (access d))
  ∧ getRefreshToken (localStorage w') = Some (String_of rt)
  ∧ ∀ other,
      onRejected_resume (api (S n) env now) w (AwaitRefresh original rt)
        (Some {| status := status response;
                 data := Some {| access := access d; refresh := other;
                                 content := content d |} |})
      = Some (w', outcome).
Proof.
  intros Hretry Hsettle Hdata Hrun.
  assert (Hsettle' : ∀ other,
    let response' :=
      {| status := status response;
         data := Some {| access := access d; refresh := other;
                         content := content d |} |} in
    settle (Some response') = inl response').
  { intros other. unfold settle in *. simpl.
    destruct (_ && _); [reflexivity | discriminate]. }
  assert (Hother : ∀ other,
    onRejected_resume (api (S n) env now) w (AwaitRefresh original rt)
      (Some {| status := status response;
               data := Some {| access := access d; refresh := other;
                               content := content d |} |})
    = Some (w', outcome)).
  { intros other. rewrite <- Hrun.
    rewrite (onRejected_resume_renewed _ _ _ _ _ _ (Hsettle' other) eq_refl).
    now rewrite (onRejected_resume_renewed _ _ _ _ _ _ Hsettle Hdata). }
  rewrite (onRejected_resume_renewed _ _ _ _ _ _ Hsettle Hdata) in Hrun.
  rewrite api_retried in Hrun by exact Hretry.
  injection Hrun as <- <-.
  split; [reflexivity|].
  split; [apply getToken_saveTokens|].
  split; [apply getRefreshToken_saveTokens|].
  exact Hother.
Qed.

Lemma renewal_stores_new_access_old_refresh_witness :
  let env := Samples.script [None; None; Some (Samples.ok "stocks")] in
  let now := Samples.t_1700000000 + 5000 in
  let w := send (RefreshCall Samples.refresh_token_2100)
             (dispatch Samples.get_stocks Samples.logged_in) in
  let original := set_retry true (sent Samples.logged_in Samples.get_stocks) in
  ∃ w' outcome,
    onRejected_resume (api 1 env now) w
      (AwaitRefresh original (Some Samples.refresh_token_2100))
      (Some (Samples.renewed (Some "A1") (Some "R1"))) = Some (w', outcome)
    ∧ getToken (localStorage w') = Some "A1"
    ∧ getRefreshToken (localStorage w') = Some Samples.refresh_token_2100.
Proof.
  intros env now w original.
  destruct (onRejected_resume (api 1 env now) w
              (AwaitRefresh original (Some Samples.refresh_token_2100))
              (Some (Samples.renewed (Some "A1") (Some "R1"))))
    as [[w' outcome]|] eqn:Hrun; [|discriminate Hrun].
  exists w', outcome. split; [reflexivity|].
  destruct (renewal_stores_new_access_old_refresh env now 0 w original
              (Some Samples.refresh_token_2100)
              (Samples.renewed (Some "A1") (Some "R1"))
              {| access := Some "A1"; refresh := Some "R1"; content := "" |}
              w' outcome eq_refl eq_refl eq_refl Hrun)
    as (_ & Haccess & Hrefresh & _).
  split; assumption.
Defined.

(** C4, as the specification has it, fails: the server answers the renewal
    with the pair (A1, R1), and afterwards the store holds A1 next to the
    old refresh token; R1 is nowhere. *)
Lemma renewal_does_not_replace_the_pair :
  let env :=
    Samples.script [Some Samples.unauthorized;
                    Some (Samples.renewed (Some "A1") (Some "R1"));
                    Some (Samples.ok "stocks")] in
  let now := Samples.t_1700000000 + 5000 in
  ∃ w',
    api 2 env now Samples.logged_in Samples.get_stocks
    = Some (w', Fulfilled (Samples.ok "stocks"))
    ∧ getRefreshToken (localStorage Samples.logged_in)
      = Some Samples.refresh_token_2100
    ∧ getToken (localStorage w') = Some "A1"
    ∧ getRefreshToken (localStorage w') = Some Samples.refresh_token_2100
    ∧ getRefreshToken (localStorage w') ≠ Some "R1".
Proof.
  vm_compute. eexists. repeat split. discriminate.
Qed.

(** ** What the caller sees *)

Lemma length_wire_send (call : Call) (w : World) :
  length (wire (send call w)) = S (length (wire w)).
Proof. simpl. now rewrite length_app, Nat.add_1_r. Qed.

Ltac index_wire :=
  cbn [wire set_href set_localStorage set_defaults send];
  rewrite ?length_app; cbn [length]; rewrite ?Nat.add_1_r.

(** C9, as the code has it.  The promise of [api(config)] settles in one of
    four ways: fulfilled with the answer to the request or to its retry;
    rejected with the error of the request or of its retry; rejected with
    the error of the renewal call itself, handed on as it came; or rejected
    with the TypeError thrown while handling the renewal, in these two
    cases with the tokens cleared and the browser sent to the login page.
    Whenever the renewal call is rejected, its error is what the caller
    gets. *)
Theorem api_outcome_kinds (env : Network) (now : Z) (w : World)
  (config : Config) :
  let k := length (wire w) in
  ∃ w' outcome,
    (∀ n, api (S (S n)) env now w config = Some (w', outcome))
    ∧ match outcome with
      | Fulfilled response =>
          settle (env k) = inl response
          ∨ settle (env (S (S k))) = inl response
      | Rejected (ApiError c response) =>
          url c = url config
          ∧ (settle (env k) = inr response
             ∨ settle (env (S (S k))) = inr response)
      | Rejected (RefreshError failed) =>
          settle (env (S k)) = inr failed
          ∧ wire w' = wire w ++
              [ApiCall (sent w config);
               RefreshCall (String_of (getRefreshToken (localStorage w)))]
          ∧ getToken (localStorage w') = None
          ∧ href w' = Some "/login?expired=true"
      | Rejected (ThrownError e) =>
          e = TypeError
          ∧ getToken (localStorage w') = None
          ∧ href w' = Some "/login?expired=true"
      end
    ∧ (∀ first failed,
         settle (env k) = inr first → status <$> first = Some 401 →
         _retry config = false →
         truthy (getRefreshToken (localStorage w)) = true →
         isTokenExpired now (getRefreshToken (localStorage w))
           = Normal false →
         settle (env (S k)) = inr failed →
         outcome = Rejected (RefreshError failed)).
Proof.
  intros k.
  assert (H : ∃ w' outcome,
    api 2 env now w config = Some (w', outcome)
    ∧ match outcome with
      | Fulfilled response =>
          settle (env k) = inl response
          ∨ settle (env (S (S k))) = inl response
      | Rejected (ApiError c response) =>
          url c = url config
          ∧ (settle (env k) = inr response
             ∨ settle (env (S (S k))) = inr response)
      | Rejected (RefreshError failed) =>
          settle (env (S k)) = inr failed
          ∧ wire w' = wire w ++
              [ApiCall (sent w config);
               RefreshCall (String_of (getRefreshToken (localStorage w)))]
          ∧ getToken (localStorage w') = None
          ∧ href w' = Some "/login?expired=true"
      | Rejected (ThrownError e) =>
          e = TypeError
          ∧ getToken (localStorage w') = None
          ∧ href w' = Some "/login?expired=true"
      end
    ∧ (∀ first failed,
         settle (env k) = inr first → status <$> first = Some 401 →
         _retry config = false →
         truthy (getRefreshToken (localStorage w)) = true →
         isTokenExpired now (getRefreshToken (localStorage w))
           = Normal false →
         settle (env (S k)) = inr failed →
         outcome = Rejected (RefreshError failed))).
  { rewrite api_unfold. cbv zeta. fold k.
    destruct (settle (env k)) as [response|response] eqn:Hfirst.
    { eexists _, _. split; [reflexivity|]. split; [now left | discriminate]. }
    unfold onRejected, onRejected_begin. rewrite retry_sent.
    destruct (bool_decide (status <$> response = Some 401)) eqn:Hstatus;
      [apply bool_decide_eq_true in Hstatus
      |apply bool_decide_eq_false in Hstatus].
    2:{ eexists _, _. split; [reflexivity|]. split.
        - split; [apply url_sent | now left].
        - intros first failed [= <-] Hfirst'. contradiction. }
    destruct (_retry config) eqn:Hretry.
    { eexists _, _. split; [reflexivity|]. split.
      - split; [apply url_sent | now left].
      - discriminate. }
    cbn [negb andb localStorage send].
    destruct (truthy (getRefreshToken (localStorage w))) eqn:Htruthy;
      cbn [negb].
    2:{ eexists _, _. split; [reflexivity|]. split.
        - split; [apply url_sent | now left].
        - discriminate. }
    destruct (isTokenExpired now (getRefreshToken (localStorage w)))
      as [[|]|e] eqn:Hexpired.
    - eexists _, _. split; [reflexivity|]. split.
      + split; [apply url_sent | now left].
      + discriminate.
    - rewrite length_wire_send. fold k. unfold onRejected_resume.
      destruct (settle (env (S k))) as [renewal|failed] eqn:Hrenewal.
      + destruct (data renewal) as [d|].
        * rewrite api_retried by reflexivity. index_wire. fold k.
          eexists _, _. split; [reflexivity|]. split; [|discriminate].
          destruct (settle (env (S (S k)))) as [response'|response'].
          -- now right.
          -- split; [|now right]. rewrite url_sent. apply url_sent.
        * eexists _, _. split; [reflexivity|]. split; [|discriminate].
          split; [reflexivity|]. split; [|reflexivity].
          apply getToken_clearTokens.
      + eexists _, _. split; [reflexivity|]. split.
        * split; [reflexivity|]. cbn [onRefreshFailed fst]. split; [|split].
          -- index_wire. now rewrite <- app_assoc.
          -- apply getToken_clearTokens.
          -- reflexivity.
        * now intros first failed' _ _ _ _ _ [= <-].
    - destruct e. eexists _, _. split; [reflexivity|]. split; [|discriminate].
      split; [reflexivity|]. split; [|reflexivity].
      apply getToken_clearTokens. }
  destruct H as (w' & outcome & Hrun & Hrest).
  exists w', outcome. split; [|exact Hrest].
  intros n. now rewrite api_fuel.
Qed.

(** The renewal call is answered 503: the caller's promise is rejected with
    that very answer. *)
Lemma api_outcome_kinds_witness :
  let unavailable := {| status := 503; data := None |} in
  let env := Samples.script [Some Samples.unauthorized; Some unavailable] in
  let now := Samples.t_1700000000 + 5000 in
  ∃ w',
    api 2 env now Samples.logged_in Samples.get_stocks
    = Some (w', Rejected (RefreshError (Some unavailable))).
Proof.
  intros unavailable env now.
  destruct (api_outcome_kinds env now Samples.logged_in Samples.get_stocks)
    as (w' & outcome & Hrun & _ & Hraw).
  rewrite (Hraw (Some Samples.unauthorized) (Some unavailable)
             eq_refl eq_refl eq_refl eq_refl eq_refl eq_refl) in Hrun.
  exists w'. apply (Hrun 0%nat).
Defined.

(** C9, as the specification has it, fails: the network is down when the
    renewal call is made, and the caller's promise is rejected with the
    transport error of that call, not with the 401 of its own request and
    not with an error of another kind made from it. *)
Lemma api_surfaces_the_renewal_error :
  let env := Samples.script [Some Samples.unauthorized; None] in
  let now := Samples.t_1700000000 + 5000 in
  ∃ w',
    api 2 env now Samples.logged_in Samples.get_stocks
    = Some (w', Rejected (RefreshError None))
    ∧ wire w' = [ApiCall (sent Samples.logged_in Samples.get_stocks);
                 RefreshCall Samples.refresh_token_2100].
Proof. vm_compute. eexists. split; reflexivity. Qed.

(** ** Concurrent renewals *)

Lemma onRejected_begin_live (now : Z) (w : World) (c : Config)
  (response : option Response) :
  let rt := getRefreshToken (localStorage w) in
  truthy rt = true → isTokenExpired now rt = Normal false →
  status <$> response = Some 401 → _retry c = false →
  onRejected_begin now w c response
  = (send (RefreshCall (String_of rt)) w,
     inr (AwaitRefresh (set_retry true c) rt)).
Proof.
  intros rt Htruthy Hexpired Hstatus Hretry. unfold onRejected_begin.
  rewrite Hretry, (bool_decide_eq_true_2 _ Hstatus). cbn [negb andb].
  fold rt. now rewrite Htruthy, Hexpired.
Qed.

(** C1, as the code has it.  There is no shared renewal.  When [n] requests
    have been answered 401 and their handlers run before any renewal is
    answered, with a refresh token in storage that has not run out, every
    handler sends a renewal call of its own: [n] renewal calls leave, all
    with the same refresh token, and [n] handlers wait, each for its own
    answer.  A handler whose renewal succeeds stores the access token of
    its own answer and sends its request again with that token. *)
Theorem concurrent_renewals_one_per_request (now : Z) (w : World)
  (errors : list (Config * option Response)) :
  let rt := getRefreshToken (localStorage w) in
  truthy rt = true → isTokenExpired now rt = Normal false →
  Forall (λ e, status <$> snd e = Some 401 ∧ _retry (fst e) = false) errors →
  (∃ w',
     concurrent_begin now w errors
     = (w', map (λ e, inr (AwaitRefresh (set_retry true (fst e)) rt)) errors)
     ∧ wire w' = wire w ++ map (λ _, RefreshCall (String_of rt)) errors
     ∧ refresh_calls w' = (refresh_calls w + length errors)%nat
     ∧ localStorage w' = localStorage w)
  ∧ (∀ k w1 original response d,
       settle (Some response) = inl response → data response = Some d →
       onRejected_resume k w1 (AwaitRefresh original rt) (Some response)
       = k (set_defaults (Some (Bearer (access d)))
              (set_localStorage (saveTokens (access d) rt) w1))
           (set_Authorization (Some (Bearer (access d))) original)).
Proof.
  intros rt Htruthy Hexpired Herrors.
  split; [|intros; now apply onRejected_resume_renewed].
  subst rt. revert w Htruthy Hexpired.
  induction Herrors as [|[c response] errors [Hstatus Hretry] _ IH];
    intros w Htruthy Hexpired.
  - exists w. cbn. rewrite app_nil_r. repeat split. lia.
  - cbn [concurrent_begin].
    rewrite (onRejected_begin_live now w c response
               Htruthy Hexpired Hstatus Hretry).
    destruct (IH (send (RefreshCall
                          (String_of (getRefreshToken (localStorage w)))) w)
                Htruthy Hexpired)
      as (w' & Hrun & Hwire & Hcount & Hstore).
    cbn [localStorage send] in Hrun, Hstore.
    exists w'. rewrite Hrun. split; [reflexivity|]. split; [|split].
    + rewrite Hwire. cbn [wire send map localStorage].
      now rewrite <- app_assoc.
    + rewrite Hcount. count_wire.
    + exact Hstore.
Qed.

(** Three requests answered 401 together: three renewal calls. *)
Lemma concurrent_renewals_one_per_request_witness :
  let now := Samples.t_1700000000 + 5000 in
  let errors :=
    [(sent Samples.logged_in Samples.get_stocks, Some Samples.unauthorized);
     (sent Samples.logged_in Samples.get_news, Some Samples.unauthorized);
     (sent Samples.logged_in Samples.get_stocks, Some Samples.unauthorized)] in
  refresh_calls (fst (concurrent_begin now Samples.logged_in errors))
  = 3%nat.
Proof.
  intros now errors.
  destruct (concurrent_renewals_one_per_request now Samples.logged_in errors)
    as [(w' & Hrun & _ & Hcount & _) _].
  - reflexivity.
  - reflexivity.
  - repeat constructor.
  - rewrite Hrun. exact Hcount.
Defined.

(** C1, as the specification has it, fails already for two requests.  Both
    are in flight and both are answered 401 before any renewal returns:
    two renewal calls are on the wire and two handlers wait, so two
    renewals are in flight at once.  The server answers the first with the
    access token A1 and the second with A2; the first request goes out
    again with A1, the second with A2, and both are fulfilled: the two
    callers did not get the same token. *)
Lemma two_requests_two_renewals :
  let now := Samples.t_1700000000 + 5000 in
  let env :=
    Samples.script [Some Samples.unauthorized; Some Samples.unauthorized;
                    Some (Samples.renewed (Some "A1") None);
                    Some (Samples.renewed (Some "A2") None);
                    Some (Samples.ok "stocks"); Some (Samples.ok "news")] in
  let w0 := dispatch Samples.get_news
              (dispatch Samples.get_stocks Samples.logged_in) in
  let errors :=
    [(sent Samples.logged_in Samples.get_stocks, env 0%nat);
     (sent Samples.logged_in Samples.get_news, env 1%nat)] in
  ∃ w1 first second w2 w3,
    concurrent_begin now w0 errors = (w1, [inr first; inr second])
    ∧ refresh_calls w1 = 2%nat
    ∧ onRejected_resume (api 1 env now) w1 first (env 2%nat)
      = Some (w2, Fulfilled (Samples.ok "stocks"))
    ∧ onRejected_resume (api 1 env now) w2 second (env 3%nat)
      = Some (w3, Fulfilled (Samples.ok "news"))
    ∧ drop 4 (wire w3)
      = [ApiCall {| url := "/stocks/"; Authorization := Some "Bearer A1";
                    _retry := true |};
         ApiCall {| url := "/news/"; Authorization := Some "Bearer A2";
                    _retry := true |}].
Proof.
  intros now env w0 errors.
  eexists _, _, _, _, _.
  split; [vm_compute; reflexivity|].
  split; [vm_compute; reflexivity|].
  split; [vm_compute; reflexivity|].
  split; [vm_compute; reflexivity|].
  vm_compute; reflexivity.
Qed.

(** ** Inactivity timers *)

Import Page.

Section SessionTimeout.

Implicit Types (p : Page) (h : option Handler).

Lemma clearInactivityTimer_pending
  ls clk ts nid lst ns idt idw con loc auth dlg :
  idt ≠ 0 → idw ≠ 0 →
  clearInactivityTimer
    {| Page.localStorage := ls; clock := clk; timers := ts; next_id := nid;
       listeners := lst; next_serial := ns; inactivityTimer := Some idt;
       warningTimer := Some idw; console := con; location := loc;
       app_isAuthenticated := auth; dialog := dlg |}
  = {| Page.localStorage := ls; clock := clk;
       timers := filter (λ tm, timer_id tm ≠ idw)
                   (filter (λ tm, timer_id tm ≠ idt) ts);
       next_id := nid;
       listeners := lst; next_serial := ns; inactivityTimer := Some idt;
       warningTimer := Some idw; console := con; location := loc;
       app_isAuthenticated := auth; dialog := dlg |}.
Proof.
  intros Ht0 Hw0. unfold clearInactivityTimer.
  cbn [inactivityTimer warningTimer truthy_id].
  rewrite (proj2 (Z.eqb_neq _ _) Ht0). cbn [negb].
  unfold clearTimeout at 1. unfold set_timers at 1.
  cbn [inactivityTimer warningTimer truthy_id Page.localStorage clock timers
       next_id listeners next_serial console location app_isAuthenticated
       dialog].
  rewrite (proj2 (Z.eqb_neq _ _) Hw0). cbn [negb].
  reflexivity.
Qed.

Lemma tracking_initialized h ls now path :
  tracking h now (initializeInactivityTracking h (blank ls now path)).
Proof.
  exists 1, 2, 0%nat, 1%nat, 2%nat. cbn. repeat split; lia || discriminate.
Qed.

(** While the warning is not yet due, time passes and no timer fires. *)
Lemma tracking_quiet h t0 p t fuel :
  tracking h t0 p → t0 ≤ t < t0 + WARNING_DURATION →
  run_until fuel t p = Some (set_clock t p).
Proof.
  intros (idw & idt & a & b & c & _ & _ & _ & _ & _ & _ & Htimers & _
          & Hclock) Hlt.
  assert (Hnone : next_due t p = None).
  { unfold next_due. rewrite Htimers. cbn [earliest due].
    unfold WARNING_DURATION, TIMEOUT_DURATION in *.
    destruct (_ <? _) eqn:E; [apply Z.ltb_lt in E; lia|].
    cbn [due]. destruct (_ <=? _) eqn:E';
      [apply Z.leb_le in E'; lia | reflexivity]. }
  destruct fuel; cbn [run_until]; rewrite Hnone;
    rewrite Hclock, Z.max_r by lia; reflexivity.
Qed.

(** An activity event at [t] discards both timers and schedules two new
    ones, measured from [t]; nothing else on the page changes. *)
Lemma tracking_reset_page h t0 p t type :
  tracking h t0 p → activity type →
  dispatchEvent type (set_clock t p)
  = {| Page.localStorage := Page.localStorage p; clock := t;
       timers :=
         [ {| timer_id := next_id p; due := t + WARNING_DURATION;
              period := None; callback := InactivityWarning |};
           {| timer_id := next_id p + 1; due := t + TIMEOUT_DURATION;
              period := None; callback := InactivityTimeout h |} ];
       next_id := next_id p + 1 + 1;
       listeners := listeners p; next_serial := next_serial p;
       inactivityTimer := Some (next_id p + 1);
       warningTimer := Some (next_id p);
       console := console p; location := location p;
       app_isAuthenticated := app_isAuthenticated p; dialog := dialog p |}.
Proof.
  intros (idw & idt & a & b & c & Hw & Ht & Hw0 & Ht0 & Hne & Hnext
          & Htimers & Hlisteners & Hclock) Hact.
  destruct p as [ls clk ts nid lst ns it wt con loc auth dlg].
  cbn in Hw, Ht, Hnext, Htimers, Hlisteners, Hclock. subst.
  unfold activity in Hact. rewrite !elem_of_cons in Hact.
  unfold dispatchEvent, set_clock.
  cbn [Page.localStorage clock timers next_id listeners next_serial
       inactivityTimer warningTimer console location app_isAuthenticated
       dialog].
  assert (Hone : ∃ s,
    filter (λ entry : string * Listener, fst entry = type)
      [("mousemove"%string, ResetArrow a h);
       ("keydown"%string, ResetArrow b h);
       ("click"%string, ResetArrow c h)] = [(type, ResetArrow s h)]).
  { destruct Hact as [->|[->|[->|Hact]]]; [| | |inversion Hact];
      eexists; reflexivity. }
  destruct Hone as [s ->]. cbn [fold_left snd call_listener].
  unfold resetInactivityTimer, startInactivityTimer.
  rewrite !clearInactivityTimer_pending by assumption.
  rewrite !filter_cons, !filter_nil. cbn [timer_id].
  rewrite (decide_False (P := idt ≠ idt)) by congruence.
  rewrite (decide_True (P := idw ≠ idt)) by congruence.
  rewrite !filter_cons, !filter_nil. cbn [timer_id].
  rewrite (decide_False (P := idw ≠ idw)) by congruence.
  rewrite !filter_nil.
  reflexivity.
Qed.

Lemma tracking_reset h t0 p t type :
  tracking h t0 p → activity type →
  let p' := dispatchEvent type (set_clock t p) in
  tracking h t p'
  ∧ console p' = console p ∧ location p' = location p
  ∧ Page.localStorage p' = Page.localStorage p.
Proof.
  intros Htracking Hact p'. subst p'.
  rewrite (tracking_reset_page h t0 p t type Htracking Hact).
  destruct Htracking as (idw & idt & a & b & c & Hw & Ht & Hw0 & Ht0 & Hne
                         & Hnext & Htimers & Hlisteners & Hclock).
  split; [|repeat split].
  exists (next_id p), (next_id p + 1), a, b, c.
  cbn [Page.localStorage clock timers next_id listeners next_serial
       inactivityTimer warningTimer console location app_isAuthenticated
       dialog].
  repeat split; try lia. exact Hlisteners.
Qed.

(** Coalescing in [sessionTimeout.js] taken on its own.  On a page where
    only [initializeInactivityTracking(h)] has run, let every activity
    event come before the warning scheduled by the one before it.  Then no
    timer ever fires (the run needs no fuel, the console stays empty, the
    page is not redirected, the tokens stay), and after the last event
    exactly two timers are pending: the warning, 14 minutes after that
    event, and the timeout, 15 minutes after it. *)
Lemma activity_before_warning_coalesces h fuel events :
  ∀ t0 p,
    tracking h t0 p → before_warning t0 events →
    ∃ p',
      run_events fuel events p = Some p'
      ∧ tracking h (last_time t0 events) p'
      ∧ console p' = console p ∧ location p' = location p
      ∧ Page.localStorage p' = Page.localStorage p.
Proof.
  induction events as [|[t type] events IH]; intros t0 p Htracking Hbefore.
  - exists p. repeat split. exact Htracking.
  - destruct Hbefore as (Ht & Hact & Hrest).
    cbn [run_events last_time].
    rewrite (tracking_quiet h t0 p t fuel Htracking Ht). cbn [mbind option_bind].
    destruct (tracking_reset h t0 p t type Htracking Hact)
      as (Htracking' & Hconsole & Hlocation & Hstorage).
    destruct (IH t _ Htracking' Hrest)
      as (p' & Hrun & Hlast & Hconsole' & Hlocation' & Hstorage').
    exists p'. repeat split; try assumption; congruence.
Qed.

(** X21.  The same from the start.  Tracking begins on a blank document
    at [now], and every activity event comes before the warning scheduled
    by the one before it: no timer of [sessionTimeout.js] ever fires, the
    console stays empty, the location and the storage stay, and after the
    last event the warning is pending 14 minutes and the timeout 15 minutes
    after that event, and nothing else. *)
Corollary activity_from_start_coalesces h ls now path fuel events :
  before_warning now events →
  ∃ p',
    run_events fuel events
      (initializeInactivityTracking h (blank ls now path)) = Some p'
    ∧ tracking h (last_time now events) p'
    ∧ console p' = [] ∧ location p' = path ∧ Page.localStorage p' = ls.
Proof.
  intros Hbefore.
  apply (activity_before_warning_coalesces h fuel events now
           (initializeInactivityTracking h (blank ls now path))
           (tracking_initialized h ls now path) Hbefore).
Qed.

(** [removeInactivityTracking] clears the two timers and leaves every
    listener where it was: none of them is the function it names. *)
Lemma removeInactivityTracking_tracking h t0 p :
  tracking h t0 p →
  timers (removeInactivityTracking p) = []
  ∧ listeners (removeInactivityTracking p) = listeners p.
Proof.
  intros (idw & idt & a & b & c & Hw & Ht & Hw0 & Ht0 & Hne & Hnext
          & Htimers & Hlisteners & Hclock).
  destruct p as [ls clk ts nid lst ns it wt con loc auth dlg].
  cbn in Hw, Ht, Hnext, Htimers, Hlisteners, Hclock. subst.
  unfold removeInactivityTracking, removeEventListener, set_listeners.
  cbn [Page.localStorage clock timers next_id listeners next_serial
       inactivityTimer warningTimer console location app_isAuthenticated
       dialog].
  rewrite clearInactivityTimer_pending by assumption.
  cbn [timers listeners].
  rewrite !filter_cons, !filter_nil. cbn [timer_id].
  rewrite (decide_False (P := idt ≠ idt)) by congruence.
  rewrite (decide_True (P := idw ≠ idt)) by congruence.
  rewrite !filter_cons, !filter_nil. cbn [timer_id].
  rewrite (decide_False (P := idw ≠ idw)) by congruence.
  split; reflexivity.
Qed.

End SessionTimeout.

(** ** Forced logout *)

Section ForcedLogout.

Implicit Types (p : Page).

(** Clearing timers touches neither the storage, nor the location, nor
    the state of [AppWrapper]. *)
Lemma clearTimeout_frame id p :
  Page.localStorage (clearTimeout id p) = Page.localStorage p
  ∧ app_isAuthenticated (clearTimeout id p) = app_isAuthenticated p
  ∧ location (clearTimeout id p) = location p
  ∧ inactivityTimer (clearTimeout id p) = inactivityTimer p
  ∧ warningTimer (clearTimeout id p) = warningTimer p.
Proof. destruct id; repeat split. Qed.

Lemma clearInactivityTimer_frame p :
  Page.localStorage (clearInactivityTimer p) = Page.localStorage p
  ∧ app_isAuthenticated (clearInactivityTimer p) = app_isAuthenticated p
  ∧ location (clearInactivityTimer p) = location p.
Proof.
  unfold clearInactivityTimer.
  destruct (truthy_id (inactivityTimer p)).
  - destruct (clearTimeout_frame (inactivityTimer p) p)
      as (Hls & Hauth & Hloc & _ & Hw).
    rewrite Hw.
    destruct (truthy_id (warningTimer p)); [|now repeat split].
    destruct (clearTimeout_frame (warningTimer p)
                (clearTimeout (inactivityTimer p) p))
      as (Hls' & Hauth' & Hloc' & _).
    repeat split; congruence.
  - destruct (truthy_id (warningTimer p)); [|now repeat split].
    destruct (clearTimeout_frame (warningTimer p) p)
      as (Hls & Hauth & Hloc & _).
    repeat split; assumption.
Qed.

Lemma SessionTimeoutWarning_unmount_frame p :
  Page.localStorage (SessionTimeoutWarning_unmount p) = Page.localStorage p
  ∧ app_isAuthenticated (SessionTimeoutWarning_unmount p)
    = app_isAuthenticated p
  ∧ location (SessionTimeoutWarning_unmount p) = location p.
Proof.
  unfold SessionTimeoutWarning_unmount. destruct (dialog p) as [d|];
    [|now repeat split].
  unfold clearInterval.
  destruct (dialog_warningTimer d), (dialog_logoutTimer d),
    (dialog_intervalTimer d); repeat split; reflexivity.
Qed.

(** With no access token in storage, a change of location leaves
    [AppWrapper] not authenticated, whatever it was before. *)
Lemma navigate_without_token to p :
  getToken (Page.localStorage p) = None →
  Page.localStorage (navigate to p) = Page.localStorage p
  ∧ app_isAuthenticated (navigate to p) = false
  ∧ location (navigate to p) = to.
Proof.
  intros Htoken. unfold navigate, AppWrapper_location_effect.
  change (Page.localStorage (set_location to p)) with (Page.localStorage p).
  rewrite Htoken. cbn [truthy]. unfold setIsAuthenticated.
  change (app_isAuthenticated (set_location to p))
    with (app_isAuthenticated p).
  destruct (app_isAuthenticated p) eqn:Hauth; cbn [Bool.eqb].
  - set (q := clearInactivityTimer _).
    destruct (SessionTimeoutWarning_unmount_frame q) as (Hls & Happ & Hloc).
    destruct (clearInactivityTimer_frame
                (set_app_isAuthenticated false (set_location to p)))
      as (Hls' & Happ' & Hloc').
    fold q in Hls', Happ', Hloc'. repeat split.
    + now rewrite Hls, Hls'.
    + now rewrite Happ, Happ'.
    + now rewrite Hloc, Hloc'.
  - repeat split. exact Hauth.
Qed.

(** The three functions that log the user out of the page. *)
Lemma handlers_log_out p (cb : Callback) :
  cb ∈ [InactivityTimeout (Some handleTimeout);
        InactivityTimeout (Some handleTimeout_onReset); DialogLogout] →
  let p' := run_callback cb p in
  getToken (Page.localStorage p') = None
  ∧ getRefreshToken (Page.localStorage p') = None
  ∧ app_isAuthenticated p' = false.
Proof.
  rewrite !elem_of_cons.
  assert (Hnavigate : ∀ to q,
    getToken (Page.localStorage q) = None →
    getRefreshToken (Page.localStorage q) = None →
    getToken (Page.localStorage (navigate to q)) = None
    ∧ getRefreshToken (Page.localStorage (navigate to q)) = None
    ∧ app_isAuthenticated (navigate to q) = false).
  { intros to q Ha Hr.
    destruct (navigate_without_token to q Ha) as (-> & -> & _).
    now repeat split. }
  intros [->|[->|[->|Hcb]]]; [| | |inversion Hcb]; cbn zeta;
    cbn [run_callback call_handler]; unfold handleLogout;
    apply Hnavigate.
  - apply getToken_clearTokens.
  - apply getRefreshToken_clearTokens.
  - apply getToken_clearTokens.
  - apply getRefreshToken_clearTokens.
  - apply getToken_clearTokens.
  - apply getRefreshToken_clearTokens.
Qed.

(** A page loaded without an access token mounts not authenticated. *)
Lemma load_without_token ls now path :
  getToken ls = None → app_isAuthenticated (load ls now path) = false.
Proof.
  intros Htoken. unfold load, AppWrapper_location_effect.
  cbn [Page.localStorage blank]. now rewrite Htoken.
Qed.

End ForcedLogout.

(** Where the tokens do get cleared.  (1) When the inactivity timeout of
    [sessionTimeout.js] fires with either [handleTimeout] of [AppWrapper],
    or the logout timer of the warning dialog fires, the store holds no
    access token and no refresh token afterwards, [isAuthenticated()] is
    false and so is the [isAuthenticated] state of [AppWrapper].  (2) The
    handler of a first 401 that finds no refresh token in the store, or an
    empty one, or one that has run out, or one whose inspection throws,
    ends without a renewal call, and (3) so does the handler when the
    renewal call is rejected or answers with a body that is [null]: the
    store holds no token either, [isAuthenticated()] is false, the browser
    is sent to the login page, and the application loaded there mounts not
    authenticated. *)
Lemma forced_logout_clears_tokens :
  (∀ (p : Page) (cb : Callback),
     cb ∈ [InactivityTimeout (Some handleTimeout);
           InactivityTimeout (Some handleTimeout_onReset); DialogLogout] →
     let p' := run_callback cb p in
     getToken (Page.localStorage p') = None
     ∧ getRefreshToken (Page.localStorage p') = None
     ∧ isAuthenticated (Page.localStorage p') = false
     ∧ app_isAuthenticated p' = false)
  ∧ (∀ now (w : World) c response,
       let rt := getRefreshToken (Api.localStorage w) in
       status <$> response = Some 401 → _retry c = false →
       truthy rt = false ∨ isTokenExpired now rt ≠ Normal false →
       ∃ w' outcome,
         onRejected_begin now w c response = (w', inl outcome)
         ∧ wire w' = wire w
         ∧ getToken (Api.localStorage w') = None
         ∧ getRefreshToken (Api.localStorage w') = None
         ∧ isAuthenticated (Api.localStorage w') = false
         ∧ ∃ to, href w' = Some to
                 ∧ (to = "/login" ∨ to = "/login?expired=true")
                 ∧ ∀ t, app_isAuthenticated
                          (load (Api.localStorage w') t to) = false)
  ∧ (∀ k (w : World) s reply,
       (∃ failed, settle reply = inr failed)
       ∨ (∃ response, settle reply = inl response ∧ data response = None) →
       ∃ w' outcome,
         onRejected_resume k w s reply = Some (w', outcome)
         ∧ getToken (Api.localStorage w') = None
         ∧ getRefreshToken (Api.localStorage w') = None
         ∧ isAuthenticated (Api.localStorage w') = false
         ∧ href w' = Some "/login?expired=true"
         ∧ ∀ t, app_isAuthenticated
                  (load (Api.localStorage w') t "/login?expired=true")
                = false).
Proof.
  split; [|split].
  - intros p cb Hcb p'.
    destruct (handlers_log_out p cb Hcb) as (Ha & Hr & Happ).
    fold p' in Ha, Hr, Happ. repeat split; try assumption.
    unfold isAuthenticated. now rewrite Ha.
  - intros now w c response rt Hstatus Hretry Hrt.
    unfold onRejected_begin.
    rewrite Hretry, (bool_decide_eq_true_2 _ Hstatus). cbn [negb andb].
    fold rt.
    assert (Hcase :
      (if negb (truthy rt) then Normal true else isTokenExpired now rt)
      ≠ Normal false).
    { destruct (truthy rt); cbn [negb]; [|discriminate].
      destruct Hrt as [Hrt|Hrt]; [discriminate|exact Hrt]. }
    destruct (if negb (truthy rt) then _ else _) as [[|]|e];
      [|congruence|]; eexists _, _; (split; [reflexivity|]);
      cbn [Api.localStorage Api.set_localStorage set_href href wire
           onRefreshFailed fst];
      (split; [reflexivity|]);
      (split; [apply getToken_clearTokens|]);
      (split; [apply getRefreshToken_clearTokens|]);
      (split; [apply isAuthenticated_clearTokens|]);
      eexists; (split; [reflexivity|]);
      (split; [auto|]);
      intros t; apply load_without_token, getToken_clearTokens.
  - intros k w s reply Hfailed.
    destruct (onRejected_resume_failed k w s reply Hfailed)
      as (error & Heq & _).
    rewrite Heq. eexists _, _. split; [reflexivity|].
    cbn [Api.localStorage Api.set_localStorage set_href href].
    split; [apply getToken_clearTokens|].
    split; [apply getRefreshToken_clearTokens|].
    split; [apply isAuthenticated_clearTokens|].
    split; [reflexivity|].
    intros t. apply load_without_token, getToken_clearTokens.
Qed.

(** C5 fails on the code.  A logged-in user opens the dashboard: the
    profile request of [AuthProvider] is answered, its [isAuthenticated]
    becomes true, and [AppWrapper] starts the timers.  Nothing is touched
    for fifteen minutes.  At 840 s the warning is logged, and at 900 s the
    inactivity timeout runs [handleTimeout]: the tokens are cleared, the
    state of [AppWrapper] becomes false and the router goes to the login
    page.  The [isAuthenticated] state of [AuthProvider] is still true, and
    [ProtectedRoute], which reads that state and nothing else, still renders
    the protected pages.  "Logout Now" in the warning dialog leaves the
    same state behind.  [logout()] of the [AuthContext] is the path that
    does reset it. *)
Theorem timeout_leaves_AuthProvider_authenticated :
  let env := Samples.script [Some (Samples.ok "me")] in
  ∃ w1 a1 a2 a3,
    App.mount env 0 Samples.logged_in "/dashboard" = Some (w1, a1)
    ∧ AuthProvider.isAuthenticated (App.provider a1) = true
    ∧ app_isAuthenticated (App.page a1) = true
    ∧ App.run_until 100 900000 a1 = Some a2
    ∧ console (App.page a2)
      = ["You will be logged out soon due to inactivity.";
         "Session timeout due to inactivity"]
    ∧ getToken (Page.localStorage (App.page a2)) = None
    ∧ getRefreshToken (Page.localStorage (App.page a2)) = None
    ∧ app_isAuthenticated (App.page a2) = false
    ∧ location (App.page a2) = "/login?session_expired=true"
    ∧ timers (App.page a2) = []
    ∧ AuthProvider.isAuthenticated (App.provider a2) = true
    ∧ App.ProtectedRoute (App.provider a2) = App.Children
    ∧ App.run_until 100 850000 a1 = Some a3
    ∧ getToken (Page.localStorage (App.page (App.click_logout_now a3))) = None
    ∧ App.ProtectedRoute (App.provider (App.click_logout_now a3))
      = App.Children
    ∧ App.ProtectedRoute (snd (AuthProvider.logout w1 (App.provider a1)))
      = App.Navigate "/auth".
Proof.
  intros env. eexists _, _, _, _.
  repeat (split; [vm_compute; reflexivity|]).
  vm_compute; reflexivity.
Qed.

(** ** The warning dialog and the end of tracking *)

(** C7 holds for the timers of [sessionTimeout.js]
    ([activity_before_warning_coalesces]) and fails for the timers of
    [SessionTimeoutWarning], which no activity reschedules.  A logged-in
    user loads the page at time 0 and moves the mouse once a minute, every
    move well before the warning that the move before it scheduled.  No
    timer fires during these thirteen minutes.  At 840 s, one minute after
    the last move, the warning dialog opens all the same, while the warning
    of [sessionTimeout.js], now due at 1620 s, stays silent.  At 850 s the
    user clicks "Stay Logged In": the dialog closes and [sessionTimeout.js]
    is reset once more, but the logout timer that the dialog scheduled at
    840 s is still pending, and at 900 s it logs the user out.  (The click
    reaches the button's handler first and the listeners on [document]
    after it.) *)
Theorem dialog_timers_ignore_activity :
  let p0 := load Samples.tokens 0 "/dashboard" in
  before_warning 0 Samples.a_move_every_minute
  ∧ ∃ p1 p2 p3 p4 p5,
      app_isAuthenticated p0 = true
      ∧ run_events 0 Samples.a_move_every_minute p0 = Some p1
      ∧ run_until 1 840000 p1 = Some p2
      ∧ open <$> dialog p2 = Some true
      ∧ console p2 = []
      ∧ filter (λ tm, callback tm = InactivityWarning) (timers p2)
        = [{| timer_id := 28; due := 780000 + WARNING_DURATION;
              period := None; callback := InactivityWarning |}]
      ∧ run_until 10 850000 p2 = Some p3
      ∧ dispatchEvent "click" (handleStayLoggedIn p3) = p4
      ∧ open <$> dialog p4 = Some false
      ∧ filter (λ tm, callback tm = DialogLogout) (timers p4)
        = [{| timer_id := 31; due := 900000; period := None;
              callback := DialogLogout |}]
      ∧ run_until 51 900000 p4 = Some p5
      ∧ getToken (Page.localStorage p5) = None
      ∧ app_isAuthenticated p5 = false
      ∧ location p5 = "/login".
Proof.
  intros p0. split.
  - unfold Samples.a_move_every_minute, activity. cbn.
    unfold WARNING_DURATION. repeat split; try lia; apply list_elem_of_here.
  - eexists _, _, _, _, _.
    repeat (split; [vm_compute; reflexivity|]).
    vm_compute; reflexivity.
Qed.

(** C8 holds as far as the timers go ([removeInactivityTracking_tracking]:
    none is pending after the call) and fails for what follows, because the
    listeners stay.  Tracking starts at time 0 and is stopped at 1 s; no
    timer is pending then.  At 2 s the mouse moves: the listener that was
    to be removed runs and schedules both timers anew.  Nothing restarts
    tracking, and at 842 s the warning is logged and at 902 s the timeout
    callback runs and logs the user out. *)
Theorem removed_tracking_restarts_on_activity :
  let p0 :=
    initializeInactivityTracking (Some handleTimeout)
      (blank Samples.tokens 0 "/dashboard") in
  ∃ p1 p2 p3 p4,
    run_until 0 1000 p0 = Some p1
    ∧ removeInactivityTracking p1 = p2
    ∧ timers p2 = []
    ∧ listeners p2 = listeners p0
    ∧ run_events 0 [(2000, "mousemove")] p2 = Some p3
    ∧ timers p3
      = [{| timer_id := 3; due := 2000 + WARNING_DURATION; period := None;
            callback := InactivityWarning |};
         {| timer_id := 4; due := 2000 + TIMEOUT_DURATION; period := None;
            callback := InactivityTimeout (Some handleTimeout) |}]
    ∧ run_until 2 902000 p3 = Some p4
    ∧ console p4 = ["You will be logged out soon due to inactivity.";
                    "Session timeout due to inactivity"]
    ∧ getToken (Page.localStorage p4) = None
    ∧ location p4 = "/login?session_expired=true".
Proof.
  intros p0. eexists _, _, _, _.
  repeat (split; [vm_compute; reflexivity|]).
  vm_compute; reflexivity.
Qed.

(** * Further properties of the code *)

(** ** The token store *)

(** X1.  What [saveTokens] stores is what [getToken] and [getRefreshToken]
    read back, as text: an access token that is [undefined] is stored as
    the text "undefined", and [isAuthenticated()] is true after it; only a
    stored empty string gives false.  No other key of the storage is
    touched. *)
Theorem saveTokens_round_trip (ls : Storage) (a r : option string) :
  getToken (saveTokens a r ls) = Some (String_of a)
  ∧ getRefreshToken (saveTokens a r ls) = Some (String_of r)
  ∧ isAuthenticated (saveTokens a r ls) = negb (String.eqb (String_of a) "")
  ∧ isAuthenticated (saveTokens None r ls) = true
  ∧ ∀ key, key ≠ ACCESS_TOKEN_KEY → key ≠ REFRESH_TOKEN_KEY →
      getItem key (saveTokens a r ls) = getItem key ls.
Proof.
  assert (Ha : ∀ a', getToken (saveTokens a' r ls) = Some (String_of a')).
  { intros a'. unfold getToken, saveTokens, getItem, setItem.
    rewrite lookup_insert_ne by discriminate. apply lookup_insert_eq. }
  split; [apply Ha|]. split.
  { unfold getRefreshToken, saveTokens, getItem, setItem.
    apply lookup_insert_eq. }
  split; [unfold isAuthenticated; now rewrite Ha|].
  split; [unfold isAuthenticated; now rewrite Ha|].
  intros key Hk1 Hk2. unfold saveTokens, getItem, setItem.
  now rewrite !lookup_insert_ne by congruence.
Qed.

Ltac storage_eq :=
  apply map_eq; intros k;
  destruct (decide (k = REFRESH_TOKEN_KEY)) as [->|?];
  [|destruct (decide (k = ACCESS_TOKEN_KEY)) as [->|?]];
  repeat first
    [ rewrite lookup_insert_eq | rewrite lookup_delete_eq
    | rewrite lookup_insert_ne by (discriminate || congruence)
    | rewrite lookup_delete_ne by (discriminate || congruence) ];
  reflexivity.

(** X2.  The last write wins: [saveTokens] overwrites an earlier pair and
    [clearTokens] forgets it; [clearTokens] is idempotent, it does not
    matter to [saveTokens] whether the store was cleared before, and on a
    store without tokens [clearTokens] changes nothing. *)
Theorem token_store_composes (ls : Storage) (a1 r1 a2 r2 : option string) :
  saveTokens a2 r2 (saveTokens a1 r1 ls) = saveTokens a2 r2 ls
  ∧ clearTokens (saveTokens a1 r1 ls) = clearTokens ls
  ∧ clearTokens (clearTokens ls) = clearTokens ls
  ∧ saveTokens a1 r1 (clearTokens ls) = saveTokens a1 r1 ls
  ∧ (getToken ls = None → getRefreshToken ls = None → clearTokens ls = ls).
Proof.
  unfold saveTokens, clearTokens, setItem, removeItem.
  split; [storage_eq|]. split; [storage_eq|]. split; [storage_eq|].
  split; [storage_eq|].
  unfold getToken, getRefreshToken, getItem. intros Ha Hr.
  rewrite delete_id; [now apply delete_id|].
  now rewrite lookup_delete_ne by discriminate.
Qed.

(** ** The token inspector *)

Section Segments.

Lemma split_nonempty sep s : split sep s ≠ [].
Proof. induction s as [|c s IH]; cbn; [discriminate|].
  destruct (Ascii.eqb c sep); [discriminate|].
  destruct (split sep s); [contradiction|discriminate]. Qed.

Lemma split_String sep c rest :
  split sep (String c rest)
  = if Ascii.eqb c sep then EmptyString :: split sep rest
    else match split sep rest with
         | seg :: segs => String c seg :: segs
         | [] => [String c EmptyString]
         end.
Proof. reflexivity. Qed.

(** Up to the first separator. *)
Lemma split_app sep h rest :
  sep ∉ list_ascii_of_string h →
  split sep (h +:+ String sep rest) = h :: split sep rest.
Proof.
  induction h as [|c h IH]; intros Hsep.
  - change (EmptyString +:+ String sep rest) with (String sep rest).
    now rewrite split_String, Ascii.eqb_refl.
  - cbn [list_ascii_of_string] in Hsep.
    rewrite not_elem_of_cons in Hsep. destruct Hsep as [Hc Hh].
    change (String c h +:+ String sep rest)
      with (String c (h +:+ String sep rest)).
    rewrite split_String.
    destruct (Ascii.eqb_spec c sep) as [E|E]; [congruence|].
    now rewrite (IH Hh).
Qed.

Lemma payload_segment_middle h p s :
  "."%char ∉ list_ascii_of_string h →
  "."%char ∉ list_ascii_of_string p →
  payload_segment (h +:+ "." +:+ p +:+ "." +:+ s) = p.
Proof.
  intros Hh Hp. unfold payload_segment.
  change (h +:+ "." +:+ p +:+ "." +:+ s)
    with (h +:+ String "." (p +:+ String "." s)).
  rewrite (split_app _ _ _ Hh), (split_app _ _ _ Hp). reflexivity.
Qed.

End Segments.

(** X3.  [parseJwt] and [isTokenExpired] read the second segment of the
    token and nothing else: two tokens with the same second segment have
    the same payload and the same answer, whatever their header and their
    signature are. *)
Theorem only_the_second_segment_counts (now : Z) (h h' p s s' : string) :
  "."%char ∉ list_ascii_of_string h →
  "."%char ∉ list_ascii_of_string h' →
  "."%char ∉ list_ascii_of_string p →
  parseJwt (h +:+ "." +:+ p +:+ "." +:+ s)
  = parseJwt (h' +:+ "." +:+ p +:+ "." +:+ s')
  ∧ isTokenExpired now (Some (h +:+ "." +:+ p +:+ "." +:+ s))
    = isTokenExpired now (Some (h' +:+ "." +:+ p +:+ "." +:+ s')).
Proof.
  intros Hh Hh' Hp.
  assert (Hparse : parseJwt (h +:+ "." +:+ p +:+ "." +:+ s)
                   = parseJwt (h' +:+ "." +:+ p +:+ "." +:+ s')).
  { unfold parseJwt. now rewrite !payload_segment_middle. }
  split; [exact Hparse|].
  assert (Hne : ∀ x y, truthy (Some (x +:+ "." +:+ y)) = true).
  { intros x y. cbn. destruct x; reflexivity. }
  unfold isTokenExpired. rewrite !Hne. cbn [negb]. now rewrite Hparse.
Qed.

Lemma only_the_second_segment_counts_witness :
  isTokenExpired Samples.t_1700000000
    (Some ("a" +:+ "." +:+ "eyJleHAiOjE3MDAwMDAwMTB9" +:+ "." +:+ "b"))
  = isTokenExpired Samples.t_1700000000
      (Some ("c" +:+ "." +:+ "eyJleHAiOjE3MDAwMDAwMTB9" +:+ "." +:+ "d")).
Proof.
  refine (proj2 (only_the_second_segment_counts Samples.t_1700000000
                   "a" "c" "eyJleHAiOjE3MDAwMDAwMTB9" "b" "d" _ _ _));
    apply (bool_decide_unpack _); vm_compute; exact I.
Defined.

Section Base64.

Lemma strip_padding_eq l :
  strip_padding l
  = match rev l with
    | [] => l
    | x :: r =>
        if decide (x = 61) then
          match r with
          | [] => rev r
          | y :: r' => if decide (y = 61) then rev r' else rev r
          end
        else l
    end.
Proof.
  unfold strip_padding. destruct (rev l) as [|x r]; [reflexivity|].
  destruct x as [|p|p]; try reflexivity.
  do 6 (destruct p as [p|p|]; try reflexivity).
  destruct r as [|y r']; [reflexivity|].
  destruct y as [|p|p]; try reflexivity.
  do 6 (destruct p as [p|p|]; try reflexivity).
Qed.

Lemma elem_of_strip_padding c l :
  c ≠ 61 → c ∈ l → c ∈ strip_padding l.
Proof.
  intros Hc Hin. rewrite strip_padding_eq.
  destruct (rev l) as [|x r] eqn:E; [exact Hin|].
  assert (Hl : l = rev r ++ [x]).
  { rewrite <- (rev_involutive l), E. reflexivity. }
  destruct (decide (x = 61)) as [->|Hx]; [|exact Hin].
  assert (Hr : c ∈ rev r).
  { rewrite Hl, elem_of_app, list_elem_of_singleton in Hin.
    destruct Hin as [Hin|Hin]; [exact Hin|contradiction]. }
  destruct r as [|y r']; [exact Hr|].
  destruct (decide (y = 61)) as [->|Hy]; [|exact Hr].
  cbn [rev] in Hr. rewrite elem_of_app, list_elem_of_singleton in Hr.
  destruct Hr as [Hr|Hr]; [exact Hr|contradiction].
Qed.

(** [atob] throws on a character that is neither whitespace, nor padding,
    nor in the base64 alphabet. *)
Lemma atob_invalid_character data c :
  c ∈ codes data → is_ascii_whitespace c = false → c ≠ 61 →
  base64_value c = None → atob data = None.
Proof.
  intros Hin Hws Hpad Hval. unfold atob.
  set (l := filter _ (codes data)).
  assert (Hl : c ∈ l) by (apply list_elem_of_filter; split; assumption).
  set (l' := if Z.of_nat (length l) mod 4 =? 0 then strip_padding l else l).
  assert (Hl' : c ∈ l').
  { unfold l'. destruct (_ =? 0); [now apply elem_of_strip_padding|exact Hl]. }
  destruct (_ =? 1); [reflexivity|].
  destruct (mapM base64_value l') as [v|] eqn:E; [|reflexivity].
  assert (Hall : Forall (is_Some ∘ base64_value) l').
  { apply mapM_is_Some. rewrite E. eauto. }
  rewrite Forall_forall in Hall. specialize (Hall c Hl').
  cbn in Hall. rewrite Hval in Hall. destruct Hall as [? [=]].
Qed.

End Base64.

(** X4.  [atob] decodes base64, not base64url: a second segment with a
    minus sign or an underscore in it makes [atob] throw, [parseJwt]
    returns [null] and the token is reported expired at every time. *)
Theorem base64url_payload_is_expired (now : Z) (h p s : string) (c : Z) :
  "."%char ∉ list_ascii_of_string h →
  "."%char ∉ list_ascii_of_string p →
  c ∈ codes p → c = 45 ∨ c = 95 →
  parseJwt (h +:+ "." +:+ p +:+ "." +:+ s) = JNull
  ∧ isTokenExpired now (Some (h +:+ "." +:+ p +:+ "." +:+ s)) = Normal true.
Proof.
  intros Hh Hp Hin Hc.
  assert (Hnull : parseJwt (h +:+ "." +:+ p +:+ "." +:+ s) = JNull).
  { unfold parseJwt. rewrite (payload_segment_middle _ _ _ Hh Hp).
    rewrite (atob_invalid_character p c Hin); [reflexivity| | |];
      destruct Hc as [->| ->]; (reflexivity || discriminate). }
  split; [exact Hnull|].
  unfold isTokenExpired. destruct (negb _); [reflexivity|].
  now rewrite Hnull.
Qed.

Lemma base64url_payload_is_expired_witness :
  isTokenExpired Samples.t_1700000000
    (Some ("h" +:+ "." +:+ "e-J9" +:+ "." +:+ "s"))
  = Normal true.
Proof.
  refine (proj2 (base64url_payload_is_expired Samples.t_1700000000
                   "h" "e-J9" "s" 45 _ _ _ (or_introl eq_refl))).
  - apply (bool_decide_unpack _). vm_compute. exact I.
  - apply (bool_decide_unpack _). vm_compute. exact I.
  - vm_compute. apply list_elem_of_further, list_elem_of_here.
Defined.

(** X5.  Expiry is monotone in time: a token that [isTokenExpired] reports
    expired at one time is reported expired at every later time, and
    whether the call throws does not depend on the time at all. *)
Theorem isTokenExpired_monotone (now now' : Z) (token : option string) :
  now ≤ now' →
  (isTokenExpired now token = Normal true →
   isTokenExpired now' token = Normal true)
  ∧ (∀ e, isTokenExpired now token = Throw e ↔
          isTokenExpired now' token = Throw e).
Proof.
  intros Hle. unfold isTokenExpired.
  destruct token as [token|]; [|split; [easy|intros; split; easy]].
  destruct (negb (truthy (Some token))); [split; [easy|intros; split; easy]|].
  destruct (negb (ToBoolean _)); [split; [easy|intros; split; easy]|].
  cbv zeta. unfold lt_number.
  destruct (ToNumber _) as [x|e0]; [|split; [easy|intros; split; easy]].
  assert (Hmono : Number_le (nearest_double now 1000)
                    (nearest_double now' 1000))
    by (apply nearest_double_mono; lia).
  split.
  - destruct (Number_lt x (nearest_double now 1000)) as [[|]|] eqn:E;
      try discriminate.
    intros _. now rewrite (Number_lt_le _ _ _ Hmono E).
  - intros e.
    destruct (Number_lt x (nearest_double now 1000)),
      (Number_lt x (nearest_double now' 1000)); split; discriminate.
Qed.

Lemma isTokenExpired_monotone_witness :
  isTokenExpired (Samples.t_1700000000 + 5000)
    (Some Samples.token_exp_1700000000) = Normal true.
Proof.
  refine (proj1 (isTokenExpired_monotone (Samples.t_1700000000 + 1)
                   (Samples.t_1700000000 + 5000)
                   (Some Samples.token_exp_1700000000) _) _).
  - vm_compute. discriminate.
  - reflexivity.
Defined.

(** ** The request pipeline *)

Section Header.

Implicit Types (w : World) (c config : Config) (env : Network).

(** The interceptor re-reads the store, so the header of a retry is the
    one the handler wrote, also when the renewed token is the empty string
    and the interceptor leaves the header alone. *)
Lemma sent_after_renewal w c (access rt : option string) :
  sent (set_defaults (Some (Bearer access))
          (Api.set_localStorage (saveTokens access rt) w))
       (set_Authorization (Some (Bearer access)) c)
  = set_Authorization (Some (Bearer access)) c.
Proof.
  unfold sent, onRequest, mergeConfig.
  cbn [Authorization set_Authorization Api.localStorage set_defaults
       Api.set_localStorage].
  rewrite getToken_saveTokens.
  destruct (truthy (Some (String_of access))); reflexivity.
Qed.

End Header.

Section Returns.

Implicit Types (w : World) (c config : Config) (env : Network).

(** [api(config)] settles, with three calls at most. *)
Lemma api_returns env now w config :
  ∃ w' outcome,
    api 2 env now w config = Some (w', outcome)
    ∧ (∃ rest, wire w' = wire w ++ ApiCall (sent w config) :: rest
               ∧ (length rest ≤ 2)%nat)
    ∧ (∀ response, outcome = Fulfilled response →
         settle (env (length (wire w))) = inl response
         ∨ settle (env (S (S (length (wire w))))) = inl response).
Proof.
  rewrite api_unfold. cbv zeta.
  destruct (settle (env (length (wire w)))) as [response|response] eqn:Hfirst.
  { eexists _, _. split; [reflexivity|]. split.
    - exists []. split; [reflexivity|cbn; lia].
    - intros ? [= <-]. now left. }
  unfold onRejected, onRejected_begin.
  destruct (bool_decide _ && negb _).
  2:{ eexists _, _. split; [reflexivity|]. split; [|discriminate].
      exists []. split; [reflexivity|cbn; lia]. }
  destruct (if negb (truthy _) then _ else _) as [[|]|e].
  - eexists _, _. split; [reflexivity|]. split; [|discriminate].
    exists []. split; [reflexivity|cbn; lia].
  - unfold onRejected_resume. rewrite length_wire_send.
    match goal with
    | |- context [settle ?x] =>
        destruct (settle x) as [renewal|failed] eqn:Hrenewal
    end.
    + destruct (data renewal) as [d|].
      * rewrite api_retried by reflexivity.
        eexists _, _. split; [reflexivity|]. split.
        -- cbn [wire send set_href Api.set_localStorage set_defaults].
           eexists [_; _]. rewrite <- !app_assoc. split; [reflexivity|].
           cbn; lia.
        -- cbn [wire send set_href Api.set_localStorage set_defaults].
           rewrite !length_app. cbn [length]. rewrite !Nat.add_1_r.
           intros final.
           destruct (settle (env (S (S (length (wire w)))))) as [r|r];
             [|discriminate].
           intros [= <-]. now right.
      * eexists _, _. split; [reflexivity|]. split; [|discriminate].
        cbn [wire send set_href Api.set_localStorage onRefreshFailed fst].
        eexists [_]. rewrite <- !app_assoc. split; [reflexivity|cbn; lia].
    + eexists _, _. split; [reflexivity|]. split; [|discriminate].
      cbn [wire send set_href Api.set_localStorage onRefreshFailed fst].
      eexists [_]. rewrite <- !app_assoc. split; [reflexivity|cbn; lia].
  - eexists _, _. split; [reflexivity|]. split; [|discriminate].
    cbn [wire send set_href Api.set_localStorage onRefreshFailed fst].
    exists []. split; [reflexivity|cbn; lia].
Qed.

End Returns.

(** X6.  Only a 401 starts anything.  When the answer to a request is not
    a 401 (a success, another failure, or no answer at all), [api(config)]
    makes that one call, hands the answer to the caller and leaves the
    tokens, the default header and the location as they were. *)
Theorem api_passes_through (env : Network) (now : Z) (w : World)
  (config : Config) (n : nat) :
  status <$> env (length (wire w)) ≠ Some 401 →
  api (S n) env now w config
  = Some (send (ApiCall (sent w config)) w,
          match settle (env (length (wire w))) with
          | inl response => Fulfilled response
          | inr response => Rejected (ApiError (sent w config) response)
          end).
Proof.
  intros Hstatus. rewrite api_unfold. cbv zeta.
  destruct (settle _) as [response|response] eqn:Hsettle; [reflexivity|].
  assert (Hresponse : response = env (length (wire w))).
  { unfold settle in Hsettle. destruct (env _) as [r|]; [|congruence].
    destruct (_ && _); congruence. }
  unfold onRejected, onRejected_begin.
  rewrite Hresponse, (bool_decide_eq_false_2 _ Hstatus). reflexivity.
Qed.

Lemma api_passes_through_witness :
  let env := Samples.script [Some {| status := 500; data := None |}] in
  api 1 env Samples.t_1700000000 Samples.logged_in Samples.get_stocks
  = Some (send (ApiCall (sent Samples.logged_in Samples.get_stocks))
            Samples.logged_in,
          Rejected (ApiError (sent Samples.logged_in Samples.get_stocks)
                      (Some {| status := 500; data := None |}))).
Proof.
  intros env.
  apply (api_passes_through env Samples.t_1700000000 Samples.logged_in
           Samples.get_stocks 0).
  vm_compute. discriminate.
Defined.

(** X7.  The whole renewal cycle.  A first 401, a stored refresh token
    that has not run out and a renewal that succeeds: three calls are made,
    the request, the renewal carrying the stored refresh token, and the
    request again, marked [_retry] and carrying as header the text
    "Bearer " followed by the access token of the reply ("undefined" if the
    reply has none).  The answer to the third call is what the caller gets;
    the store then holds the new access token next to the old refresh
    token, the default header is the new one and the location is as it
    was. *)
Theorem api_renewal_cycle (env : Network) (now : Z) (w : World)
  (config : Config) (n : nat) (first : option Response)
  (renewal : Response) (d : Data) :
  let k := length (wire w) in
  let rt := getRefreshToken (Api.localStorage w) in
  let header := Some ("Bearer " +:+ String_of (access d)) in
  let retried :=
    {| url := url config; Authorization := header; _retry := true |} in
  settle (env k) = inr first → status <$> first = Some 401 →
  _retry config = false →
  truthy rt = true → isTokenExpired now rt = Normal false →
  settle (env (S k)) = inl renewal → data renewal = Some d →
  ∃ w',
    api (S (S n)) env now w config
    = Some (w', match settle (env (S (S k))) with
                | inl response => Fulfilled response
                | inr response => Rejected (ApiError retried response)
                end)
    ∧ wire w' = wire w ++ [ApiCall (sent w config);
                           RefreshCall (String_of rt);
                           ApiCall retried]
    ∧ Api.localStorage w' = saveTokens (access d) rt (Api.localStorage w)
    ∧ defaults w' = header
    ∧ href w' = href w.
Proof.
  intros k rt header retried Hfirst Hstatus Hretry Htruthy Hexpired
    Hrenewal Hdata.
  rewrite api_fuel, api_unfold. cbv zeta. fold k. rewrite Hfirst.
  unfold onRejected, onRejected_begin.
  rewrite retry_sent, Hretry, (bool_decide_eq_true_2 _ Hstatus).
  cbn [negb andb Api.localStorage send]. fold rt. rewrite Htruthy, Hexpired.
  cbn [negb]. rewrite length_wire_send. fold k.
  unfold onRejected_resume. rewrite Hrenewal, Hdata.
  rewrite api_retried by reflexivity.
  rewrite sent_after_renewal.
  assert (Hretried :
    set_Authorization (Some (Bearer (access d)))
      (set_retry true (sent w config)) = retried).
  { unfold retried, set_Authorization, set_retry.
    cbn [url _retry Authorization]. now rewrite url_sent. }
  rewrite Hretried.
  eexists. split; [|split; [|split; [|split]]].
  - f_equal. f_equal.
    cbn [wire set_defaults Api.set_localStorage send].
    rewrite !length_app. cbn [length]. rewrite !Nat.add_1_r. fold k.
    reflexivity.
  - cbn [wire set_defaults Api.set_localStorage send].
    now rewrite <- !app_assoc.
  - reflexivity.
  - reflexivity.
  - reflexivity.
Qed.

Lemma api_renewal_cycle_witness :
  let env :=
    Samples.script [Some Samples.unauthorized;
                    Some (Samples.renewed None None);
                    Some (Samples.ok "stocks")] in
  let now := Samples.t_1700000000 + 5000 in
  ∃ w',
    api 2 env now Samples.logged_in Samples.get_stocks
    = Some (w', Fulfilled (Samples.ok "stocks"))
    ∧ wire w' = [ApiCall (sent Samples.logged_in Samples.get_stocks);
                 RefreshCall Samples.refresh_token_2100;
                 ApiCall {| url := "/stocks/";
                            Authorization := Some "Bearer undefined";
                            _retry := true |}]
    ∧ getToken (Api.localStorage w') = Some "undefined".
Proof.
  intros env now.
  destruct (api_renewal_cycle env now Samples.logged_in Samples.get_stocks 0
              (Some Samples.unauthorized) (Samples.renewed None None)
              {| access := None; refresh := None; content := "" |}
              eq_refl eq_refl eq_refl eq_refl eq_refl eq_refl eq_refl)
    as (w' & Hrun & Hwire & Hstore & _).
  exists w'. split; [exact Hrun|]. split; [exact Hwire|].
  rewrite Hstore. reflexivity.
Defined.

(** X8.  A first 401 with no usable refresh token in the store (none, an
    empty one, or one that has run out): no renewal call is made, the
    tokens are cleared, the browser is sent to [/login], the default header
    stays, and the caller gets its own 401 back, its configuration now
    marked [_retry]. *)
Theorem api_without_refresh_token (env : Network) (now : Z) (w : World)
  (config : Config) (n : nat) (first : option Response) :
  let rt := getRefreshToken (Api.localStorage w) in
  settle (env (length (wire w))) = inr first →
  status <$> first = Some 401 → _retry config = false →
  truthy rt = false ∨ isTokenExpired now rt = Normal true →
  api (S n) env now w config
  = Some ({| Api.localStorage := clearTokens (Api.localStorage w);
             defaults := defaults w;
             href := Some "/login";
             wire := wire w ++ [ApiCall (sent w config)] |},
          Rejected (ApiError (set_retry true (sent w config)) first)).
Proof.
  intros rt Hfirst Hstatus Hretry Hrt.
  rewrite api_unfold. cbv zeta. rewrite Hfirst.
  unfold onRejected, onRejected_begin.
  rewrite retry_sent, Hretry, (bool_decide_eq_true_2 _ Hstatus).
  cbn [negb andb Api.localStorage send]. fold rt.
  destruct (truthy rt) eqn:Htruthy; cbn [negb].
  - destruct Hrt as [Hrt|Hrt]; [discriminate|]. rewrite Hrt. reflexivity.
  - reflexivity.
Qed.

Lemma api_without_refresh_token_witness :
  let env := Samples.script [Some Samples.unauthorized] in
  let w :=
    Api.set_localStorage (removeItem REFRESH_TOKEN_KEY) Samples.logged_in in
  ∃ w',
    api 1 env Samples.t_1700000000 w Samples.get_stocks
    = Some (w', Rejected (ApiError (set_retry true (sent w Samples.get_stocks))
                            (Some Samples.unauthorized)))
    ∧ wire w' = [ApiCall (sent w Samples.get_stocks)]
    ∧ getToken (Api.localStorage w') = None.
Proof.
  intros env w. eexists. split.
  - apply (api_without_refresh_token env Samples.t_1700000000 w
             Samples.get_stocks 0 (Some Samples.unauthorized)
             eq_refl eq_refl eq_refl (or_introl eq_refl)).
  - split; reflexivity.
Defined.

(** ** Logging in *)

Section Login.

Import AuthAPI.

Implicit Types (env : LoginNetwork) (b : Browser) (credentials : Credentials).

Lemma loginData_eta credentials :
  {| email := email credentials; password := password credentials |}
  = credentials.
Proof. now destruct credentials. Qed.

Lemma settle_inl reply response :
  AuthAPI.settle reply = inl response →
  reply = Some response ∧ 200 ≤ AuthAPI.status response < 300.
Proof.
  unfold AuthAPI.settle. destruct reply as [r|]; [|discriminate].
  destruct (_ && _) eqn:E; [|discriminate]. intros [= <-].
  apply andb_true_iff in E as [H1 H2]. split; [reflexivity|]. lia.
Qed.

Lemma settle_inr reply failed :
  AuthAPI.settle reply = inr failed → failed = reply.
Proof.
  unfold AuthAPI.settle. destruct reply as [r|]; [|congruence].
  destruct (_ && _); congruence.
Qed.

Lemma loginDirect_eq env b credentials :
  loginDirect env b credentials
  = let b1 := post direct_login_endpoint credentials b in
    match AuthAPI.settle (env (length (posts b))) with
    | inl response =>
        (if truthy (member access response) then
           AuthAPI.set_localStorage
             (saveTokens (member access response) (member refresh response)) b1
         else if truthy (member token response) then
           AuthAPI.set_localStorage
             (setItem "authToken" (member token response)) b1
         else b1, LoggedIn response)
    | inr response => (b1, Failed (AxiosError direct_login_endpoint response))
    end.
Proof. unfold loginDirect. now rewrite loginData_eta. Qed.

End Login.

(** X9.  [authAPI.login].  The token endpoint is asked once; the direct
    login endpoint is asked after it exactly when the token endpoint
    answers 404, with the same credentials.  A login that fails leaves the
    storage as it was: a 401 of the token endpoint becomes the error
    "Invalid email or password", every other failure is handed on as it
    came, a 401 of the direct login endpoint included.  A login that
    succeeds stores the pair of the reply when the reply has an access
    token; it stores nothing when the reply has none, except that the
    direct login stores a [token] member under the key [authToken]. *)
Theorem login_outcomes (env : AuthAPI.LoginNetwork) (b b' : AuthAPI.Browser)
  (credentials : AuthAPI.Credentials) (outcome : AuthAPI.LoginOutcome) :
  let k := length (AuthAPI.posts b) in
  let fallback := bool_decide (AuthAPI.status <$> env k = Some 404) in
  AuthAPI.login env b credentials = (b', outcome) →
  AuthAPI.posts b'
  = AuthAPI.posts b ++
      (AuthAPI.token_endpoint, credentials)
      :: (if fallback then [(AuthAPI.direct_login_endpoint, credentials)]
          else [])
  ∧ match outcome with
    | AuthAPI.Failed error =>
        AuthAPI.localStorage b' = AuthAPI.localStorage b
        ∧ match error with
          | AuthAPI.NewError message =>
              message = "Invalid email or password. Please try again."
              ∧ AuthAPI.status <$> env k = Some 401
          | AuthAPI.AxiosError AuthAPI.token_endpoint failed =>
              failed = env k ∧ fallback = false
              ∧ AuthAPI.status <$> env k ≠ Some 401
          | AuthAPI.AxiosError AuthAPI.direct_login_endpoint failed =>
              failed = env (S k) ∧ fallback = true
          end
    | AuthAPI.LoggedIn response =>
        env (if fallback then S k else k) = Some response
        ∧ 200 ≤ AuthAPI.status response < 300
        ∧ AuthAPI.localStorage b'
          = if truthy (AuthAPI.member AuthAPI.access response) then
              saveTokens (AuthAPI.member AuthAPI.access response)
                (AuthAPI.member AuthAPI.refresh response)
                (AuthAPI.localStorage b)
            else if fallback
                    && truthy (AuthAPI.member AuthAPI.token response) then
              setItem "authToken" (AuthAPI.member AuthAPI.token response)
                (AuthAPI.localStorage b)
            else AuthAPI.localStorage b
    end.
Proof.
  intros k fallback. unfold AuthAPI.login. rewrite loginData_eta.
  cbn [AuthAPI.posts AuthAPI.post]. fold k.
  destruct (AuthAPI.settle (env k)) as [response|failed] eqn:Hfirst.
  - apply settle_inl in Hfirst as [Hreply Hstatus].
    assert (Hfallback : fallback = false).
    { unfold fallback. apply bool_decide_eq_false. rewrite Hreply.
      cbn. intros [=]. lia. }
    rewrite Hfallback. intros [= <- <-]. split; [|split; [|split]].
    + now destruct (truthy _).
    + exact Hreply.
    + exact Hstatus.
    + now destruct (truthy _).
  - apply settle_inr in Hfirst as ->. fold fallback.
    destruct fallback eqn:Hfallback.
    + rewrite loginDirect_eq. cbv zeta.
      cbn [AuthAPI.posts AuthAPI.post]. rewrite length_app.
      cbn [length]. rewrite Nat.add_1_r. fold k.
      destruct (AuthAPI.settle (env (S k))) as [response|failed] eqn:Hsecond.
      * apply settle_inl in Hsecond as [Hreply Hstatus].
        intros [= <- <-]. split; [|split; [|split]].
        -- destruct (truthy _); [|destruct (truthy _)];
             cbn [AuthAPI.posts AuthAPI.post AuthAPI.set_localStorage];
             now rewrite <- app_assoc.
        -- exact Hreply.
        -- exact Hstatus.
        -- cbn [andb]. now destruct (truthy _); [|destruct (truthy _)].
      * apply settle_inr in Hsecond as ->. intros [= <- <-].
        split; [|split; [reflexivity|split; reflexivity]].
        cbn [AuthAPI.posts AuthAPI.post]. now rewrite <- app_assoc.
    + destruct (bool_decide (AuthAPI.status <$> env k = Some 401)) eqn:H401.
      * apply bool_decide_eq_true in H401. intros [= <- <-].
        split; [reflexivity|]. split; [reflexivity|]. split; [reflexivity|].
        exact H401.
      * apply bool_decide_eq_false in H401. intros [= <- <-].
        split; [reflexivity|]. split; [reflexivity|].
        split; [reflexivity|]. split; [reflexivity|]. exact H401.
Qed.

Lemma login_outcomes_witness :
  let credentials := {| AuthAPI.email := "a@b.c"; AuthAPI.password := "pw" |} in
  let reply :=
    {| AuthAPI.status := 200;
       AuthAPI.data := Some {| AuthAPI.access := None; AuthAPI.refresh := None;
                               AuthAPI.token := Some "T" |} |} in
  let env k :=
    match k with
    | O => Some {| AuthAPI.status := 404; AuthAPI.data := None |}
    | _ => Some reply
    end in
  let b := {| AuthAPI.localStorage := ∅; AuthAPI.posts := [] |} in
  ∃ b',
    AuthAPI.login env b credentials = (b', AuthAPI.LoggedIn reply)
    ∧ AuthAPI.posts b'
      = [(AuthAPI.token_endpoint, credentials);
         (AuthAPI.direct_login_endpoint, credentials)]
    ∧ AuthAPI.localStorage b' = setItem "authToken" (Some "T") ∅
    ∧ isAuthenticated (AuthAPI.localStorage b') = false.
Proof.
  intros credentials reply env b.
  destruct (AuthAPI.login env b credentials) as [b' outcome] eqn:Hrun.
  assert (Houtcome : outcome = AuthAPI.LoggedIn reply).
  { vm_compute in Hrun. now injection Hrun as _ <-. }
  subst outcome. exists b'. split; [reflexivity|].
  destruct (login_outcomes env b b' credentials _ Hrun)
    as (Hposts & _ & _ & Hstore).
  split; [exact Hposts|]. split; [exact Hstore|].
  rewrite Hstore. reflexivity.
Defined.

(** X10.  A direct login whose reply has no access token succeeds, and
    [isAuthenticated()] is what it was before: what is stored under
    [authToken] is read by neither [getToken] nor [getRefreshToken]. *)
Theorem loginDirect_token_reply_is_no_session (env : AuthAPI.LoginNetwork)
  (b : AuthAPI.Browser) (credentials : AuthAPI.Credentials)
  (response : AuthAPI.LoginResponse) :
  let b' := fst (AuthAPI.loginDirect env b credentials) in
  AuthAPI.settle (env (length (AuthAPI.posts b))) = inl response →
  truthy (AuthAPI.member AuthAPI.access response) = false →
  snd (AuthAPI.loginDirect env b credentials) = AuthAPI.LoggedIn response
  ∧ getToken (AuthAPI.localStorage b') = getToken (AuthAPI.localStorage b)
  ∧ getRefreshToken (AuthAPI.localStorage b')
    = getRefreshToken (AuthAPI.localStorage b)
  ∧ isAuthenticated (AuthAPI.localStorage b')
    = isAuthenticated (AuthAPI.localStorage b).
Proof.
  intros b' Hsettle Haccess. unfold b'. rewrite loginDirect_eq. cbv zeta.
  rewrite Hsettle, Haccess. clear Haccess. cbn [fst snd].
  split; [reflexivity|].
  set (b1 := AuthAPI.post AuthAPI.direct_login_endpoint credentials b).
  set (t := AuthAPI.member AuthAPI.token response).
  assert (Ha : getToken
                 (AuthAPI.localStorage
                    (if truthy t then
                       AuthAPI.set_localStorage (setItem "authToken" t) b1
                     else b1))
               = getToken (AuthAPI.localStorage b)).
  { destruct (truthy t); [|reflexivity].
    unfold getToken, getItem, setItem.
    cbn [AuthAPI.localStorage AuthAPI.set_localStorage AuthAPI.post b1].
    now rewrite lookup_insert_ne by discriminate. }
  split; [exact Ha|]. split.
  - destruct (truthy t); [|reflexivity].
    unfold getRefreshToken, getItem, setItem.
    cbn [AuthAPI.localStorage AuthAPI.set_localStorage AuthAPI.post b1].
    now rewrite lookup_insert_ne by discriminate.
  - unfold isAuthenticated. cbv zeta. now rewrite Ha.
Qed.

Lemma loginDirect_token_reply_is_no_session_witness :
  let credentials := {| AuthAPI.email := "a@b.c"; AuthAPI.password := "pw" |} in
  let reply :=
    {| AuthAPI.status := 200;
       AuthAPI.data := Some {| AuthAPI.access := None; AuthAPI.refresh := None;
                               AuthAPI.token := Some "T" |} |} in
  let b := {| AuthAPI.localStorage := ∅; AuthAPI.posts := [] |} in
  snd (AuthAPI.loginDirect (λ _, Some reply) b credentials)
  = AuthAPI.LoggedIn reply
  ∧ isAuthenticated
      (AuthAPI.localStorage
         (fst (AuthAPI.loginDirect (λ _, Some reply) b credentials)))
    = false.
Proof.
  intros credentials reply b.
  destruct (loginDirect_token_reply_is_no_session (λ _, Some reply) b
              credentials reply eq_refl eq_refl) as (Hout & _ & _ & Hauth).
  split; [exact Hout|]. rewrite Hauth. reflexivity.
Defined.

(** ** News *)

(** X11.  [fetchNewsArticle(id)] always settles, after three calls at
    most.  Without a stored access token it makes no call and throws
    "Authentication required".  When it throws "Your session has expired"
    the tokens are gone and the browser has been sent to
    [/login?session_expired=true].  An error that it hands on unchanged
    either carries a response whose status is none of 401, 404 and 500, or
    is the TypeError thrown inside the interceptor.  What it returns is the
    body of the answer to the request or to its retry. *)
Theorem fetchNewsArticle_outcomes (env : Network) (now : Z) (w : World)
  (id : string) :
  ∃ w' result,
    News.fetchNewsArticle env now w id = Some (w', result)
    ∧ (length (wire w') ≤ length (wire w) + 3)%nat
    ∧ (isAuthenticated (Api.localStorage w) = false →
       w' = w
       ∧ result = News.Threw
           (News.NewError "Authentication required. Please log in again."))
    ∧ (result = News.Threw
         (News.NewError "Your session has expired. Please log in again.") →
       getToken (Api.localStorage w') = None
       ∧ getRefreshToken (Api.localStorage w') = None
       ∧ href w' = Some "/login?session_expired=true")
    ∧ (∀ error, result = News.Threw (News.Caught error) →
       match News.error_response error with
       | Some response =>
           status response ≠ 401 ∧ status response ≠ 404
           ∧ status response ≠ 500
       | None => error = ThrownError TypeError
       end)
    ∧ (∀ body, result = News.Returned body →
       ∃ response,
         body = data response
         ∧ (settle (env (length (wire w))) = inl response
            ∨ settle (env (S (S (length (wire w))))) = inl response)).
Proof.
  unfold News.fetchNewsArticle, isAuthenticated. cbv zeta.
  destruct (truthy (getToken (Api.localStorage w))) eqn:Htoken; cbn [negb].
  2:{ eexists _, _. split; [reflexivity|]. split; [lia|].
      split; [now split|]. split; [discriminate|].
      split; discriminate. }
  destruct (api_returns env now w (News.getNewsDetail id))
    as (w1 & outcome & -> & (rest & Hwire & Hrest) & Hfulfilled).
  assert (Hlen : (length (wire w1) ≤ length (wire w) + 3)%nat).
  { rewrite Hwire, length_app. cbn [length]. lia. }
  destruct outcome as [response|error].
  { eexists _, _. split; [reflexivity|]. split; [lia|].
    split; [discriminate|]. split; [discriminate|]. split; [discriminate|].
    intros body [= <-]. exists response. split; [reflexivity|].
    now apply Hfulfilled. }
  unfold News.onError.
  destruct (News.error_response error) as [response|] eqn:Hresponse.
  - destruct (status response =? 401) eqn:H401.
    { eexists _, _. split; [reflexivity|].
      cbn [wire set_href Api.set_localStorage]. split; [lia|].
      split; [discriminate|]. split; [|split; discriminate].
      intros _. cbn [Api.localStorage set_href Api.set_localStorage href].
      split; [apply getToken_clearTokens|].
      split; [apply getRefreshToken_clearTokens|reflexivity]. }
    destruct (status response =? 404) eqn:H404.
    { eexists _, _. split; [reflexivity|]. split; [lia|].
      split; [discriminate|]. split; [discriminate|]. split; discriminate. }
    destruct (status response =? 500) eqn:H500.
    { eexists _, _. split; [reflexivity|]. split; [lia|].
      split; [discriminate|]. split; [discriminate|]. split; discriminate. }
    eexists _, _. split; [reflexivity|]. split; [lia|].
    split; [discriminate|]. split; [discriminate|]. split; [|discriminate].
    intros ? [= <-]. rewrite Hresponse. lia.
  - destruct (News.error_request error) eqn:Hrequest.
    { eexists _, _. split; [reflexivity|]. split; [lia|].
      split; [discriminate|]. split; [discriminate|]. split; discriminate. }
    eexists _, _. split; [reflexivity|]. split; [lia|].
    split; [discriminate|]. split; [discriminate|]. split; [|discriminate].
    intros ? [= <-]. rewrite Hresponse.
    destruct error as [| |[]]; try discriminate. reflexivity.
Qed.

(** X12.  [newsAPI.getNews] builds its own header from the stored token,
    and the request interceptor leaves that request as it is: with a token
    in the store the two agree, and without one the header "Bearer null"
    goes out, whatever the default header of the instance is. *)
Theorem getNews_header (w : World) :
  sent w (News.getNews w) = News.getNews w
  ∧ (getToken (Api.localStorage w) = None →
     Authorization (sent w (News.getNews w)) = Some "Bearer null")
  ∧ (∀ token, getToken (Api.localStorage w) = Some token →
     Authorization (sent w (News.getNews w)) = Some ("Bearer " +:+ token)).
Proof.
  assert (Hsent : sent w (News.getNews w) = News.getNews w).
  { unfold sent, onRequest, mergeConfig, News.getNews.
    cbn [Authorization set_Authorization url _retry].
    destruct (getToken (Api.localStorage w)) as [token|]; [|reflexivity].
    destruct (truthy (Some token)); reflexivity. }
  rewrite Hsent. split; [reflexivity|]. unfold News.getNews.
  cbn [Authorization]. split.
  - now intros ->.
  - now intros token ->.
Qed.

(** ** [AuthProvider] *)

(** X13.  The effect that [AuthProvider] runs when it mounts always ends,
    with [isLoading] false.  If it ends not authenticated, there is no user
    and [isAuthenticated()] of the storage is false as well: a profile
    request that fails clears the tokens.  If it ends authenticated, the
    storage held a token at the start and the user is the body of the
    answer to the profile request or to its retry.  Without a token at the
    start nothing is sent and nothing is changed. *)
Theorem checkAuth_settles (env : Network) (now : Z) (w : World)
  (st : AuthProvider.State) :
  ∃ w' st',
    AuthProvider.checkAuth env now w st = Some (w', st')
    ∧ AuthProvider.isLoading st' = false
    ∧ (AuthProvider.isAuthenticated st' = false →
       AuthProvider.user st' = None
       ∧ isAuthenticated (Api.localStorage w') = false)
    ∧ (AuthProvider.isAuthenticated st' = true →
       isAuthenticated (Api.localStorage w) = true
       ∧ ∃ response,
           AuthProvider.user st' = data response
           ∧ (settle (env (length (wire w))) = inl response
              ∨ settle (env (S (S (length (wire w))))) = inl response))
    ∧ (isAuthenticated (Api.localStorage w) = false → w' = w).
Proof.
  unfold AuthProvider.checkAuth.
  destruct (isAuthenticated (Api.localStorage w)) eqn:Hauth.
  2:{ eexists _, _. split; [reflexivity|]. split; [reflexivity|].
      split; [now split|]. split; [discriminate|reflexivity]. }
  destruct (api_returns env now w AuthProvider.getProfile)
    as (w1 & outcome & -> & _ & Hfulfilled).
  destruct outcome as [response|error].
  - eexists _, _. split; [reflexivity|]. split; [reflexivity|].
    split; [discriminate|]. split; [|discriminate].
    intros _. split; [reflexivity|]. exists response.
    split; [reflexivity|]. now apply Hfulfilled.
  - eexists _, _. split; [reflexivity|]. split; [reflexivity|].
    split; [|split; discriminate].
    intros _. split; [reflexivity|].
    cbn [Api.localStorage Api.set_localStorage].
    apply isAuthenticated_clearTokens.
Qed.

Section ProviderLogin.

Lemma login_Failed_localStorage env b credentials b' error :
  AuthAPI.login env b credentials = (b', AuthAPI.Failed error) →
  AuthAPI.localStorage b' = AuthAPI.localStorage b.
Proof.
  unfold AuthAPI.login, AuthAPI.loginDirect.
  destruct (AuthAPI.settle _); [discriminate|].
  destruct (bool_decide _).
  - destruct (AuthAPI.settle _); [discriminate|]. now intros [= <- _].
  - destruct (bool_decide _); now intros [= <- _].
Qed.

End ProviderLogin.

(** X14.  [login] of [AuthProvider] always settles.  When [authAPI.login]
    fails, the state, the storage and the wire are as before.  When the
    reply has no body, reading [access] from it throws, with the state and
    the wire as before.  When the profile request fails the state is as
    before.  Only a profile that arrives sets the user and
    [isAuthenticated], leaving [isLoading] alone. *)
Theorem provider_login_settles (lenv : AuthAPI.LoginNetwork) (env : Network)
  (now : Z) (posts : list (AuthAPI.Endpoint * AuthAPI.Credentials))
  (w : World) (st : AuthProvider.State) (credentials : AuthAPI.Credentials) :
  ∃ posts' w' st' result,
    AuthProvider.login lenv env now posts w st credentials
    = Some (posts', w', st', result)
    ∧ match result with
      | AuthProvider.LoginFailed _ =>
          st' = st ∧ Api.localStorage w' = Api.localStorage w
          ∧ wire w' = wire w
      | AuthProvider.Thrown _ => st' = st ∧ wire w' = wire w
      | AuthProvider.ProfileFailed _ => st' = st
      | AuthProvider.Profile body =>
          AuthProvider.user st' = body
          ∧ AuthProvider.isAuthenticated st' = true
          ∧ AuthProvider.isLoading st' = AuthProvider.isLoading st
          ∧ ∃ response,
              body = data response
              ∧ (settle (env (length (wire w))) = inl response
                 ∨ settle (env (S (S (length (wire w))))) = inl response)
      end.
Proof.
  unfold AuthProvider.login.
  destruct (AuthAPI.login lenv _ credentials) as [b outcome] eqn:Hlogin.
  destruct outcome as [response|error].
  2:{ eexists _, _, _, _. split; [reflexivity|].
      split; [reflexivity|]. split; [|reflexivity].
      cbn [Api.localStorage Api.set_localStorage].
      now rewrite (login_Failed_localStorage _ _ _ _ _ Hlogin). }
  destruct (AuthAPI.data response) as [d|].
  2:{ eexists _, _, _, _. split; [reflexivity|]. now split. }
  match goal with
  | |- context [api 2 env now ?w1 ?c] =>
      destruct (api_returns env now w1 c)
        as (w2 & outcome & -> & _ & Hfulfilled)
  end.
  cbn [wire Api.set_localStorage] in Hfulfilled.
  destruct outcome as [userResponse|error].
  - eexists _, _, _, _. split; [reflexivity|].
    split; [reflexivity|]. split; [reflexivity|]. split; [reflexivity|].
    exists userResponse. split; [reflexivity|]. now apply Hfulfilled.
  - eexists _, _, _, _. split; [reflexivity|]. reflexivity.
Qed.

(** X15.  [login] of [AuthProvider] saves the pair of the reply whatever
    it holds, and the profile request is made with it: after a login that
    succeeded with a body, the next call on the wire is the profile request
    carrying "Bearer " followed by the text of [access], which for a reply
    without an access token is "Bearer undefined". *)
Theorem provider_login_saves_the_reply (lenv : AuthAPI.LoginNetwork)
  (env : Network) (now : Z)
  (posts : list (AuthAPI.Endpoint * AuthAPI.Credentials))
  (w : World) (st : AuthProvider.State) (credentials : AuthAPI.Credentials)
  (b : AuthAPI.Browser) (response : AuthAPI.LoginResponse)
  (d : AuthAPI.LoginData) :
  AuthAPI.login lenv
    {| AuthAPI.localStorage := Api.localStorage w; AuthAPI.posts := posts |}
    credentials = (b, AuthAPI.LoggedIn response) →
  AuthAPI.data response = Some d →
  AuthAPI.access d ≠ Some "" →
  ∃ posts' w' st' result rest,
    AuthProvider.login lenv env now posts w st credentials
    = Some (posts', w', st', result)
    ∧ wire w'
      = wire w ++
          ApiCall {| url := "/accounts/users/me/";
                     Authorization :=
                       Some ("Bearer " +:+ String_of (AuthAPI.access d));
                     _retry := false |}
          :: rest.
Proof.
  intros Hlogin Hdata Haccess. unfold AuthProvider.login.
  rewrite Hlogin, Hdata.
  match goal with
  | |- context [api 2 env now ?w1 ?c] =>
      destruct (api_returns env now w1 c)
        as (w2 & outcome & -> & (rest & Hwire & _) & _)
  end.
  assert (Hsent :
    sent (Api.set_localStorage
            (saveTokens (AuthAPI.access d) (AuthAPI.refresh d))
            (Api.set_localStorage (λ _, AuthAPI.localStorage b) w))
         AuthProvider.getProfile
    = {| url := "/accounts/users/me/";
         Authorization := Some ("Bearer " +:+ String_of (AuthAPI.access d));
         _retry := false |}).
  { unfold sent, onRequest, mergeConfig.
    cbn [Authorization AuthProvider.getProfile Api.localStorage
         Api.set_localStorage].
    rewrite getToken_saveTokens.
    assert (Htruthy : truthy (Some (String_of (AuthAPI.access d))) = true).
    { destruct (AuthAPI.access d) as [a|]; [|reflexivity].
      cbn. apply negb_true_iff, String.eqb_neq. congruence. }
    now rewrite Htruthy. }
  rewrite Hsent in Hwire. cbn [wire Api.set_localStorage] in Hwire.
  destruct outcome as [userResponse|error];
    eexists _, _, _, _, rest; (split; [reflexivity|exact Hwire]).
Qed.

Lemma provider_login_saves_the_reply_witness :
  let credentials := {| AuthAPI.email := "a@b.c"; AuthAPI.password := "pw" |} in
  let reply :=
    {| AuthAPI.status := 200;
       AuthAPI.data := Some {| AuthAPI.access := None; AuthAPI.refresh := None;
                               AuthAPI.token := Some "T" |} |} in
  let w := {| Api.localStorage := ∅; defaults := None; href := None;
              wire := [] |} in
  ∃ posts' w' st' result rest,
    AuthProvider.login (λ _, Some reply) (λ _, Some (Samples.ok "me"))
      Samples.t_1700000000 [] w AuthProvider.initial credentials
    = Some (posts', w', st', result)
    ∧ wire w'
      = ApiCall {| url := "/accounts/users/me/";
                   Authorization := Some "Bearer undefined";
                   _retry := false |} :: rest.
Proof.
  intros credentials reply w.
  apply (provider_login_saves_the_reply (λ _, Some reply)
           (λ _, Some (Samples.ok "me")) Samples.t_1700000000 [] w
           AuthProvider.initial credentials
           {| AuthAPI.localStorage := ∅;
              AuthAPI.posts := [(AuthAPI.token_endpoint, credentials)] |}
           reply
           {| AuthAPI.access := None; AuthAPI.refresh := None;
              AuthAPI.token := Some "T" |}).
  - reflexivity.
  - reflexivity.
  - discriminate.
Defined.

(** ** Timers and listeners *)

Section Timers.

Implicit Types (p : Page) (h : option Handler) (tm : Timer).

(** [clearInactivityTimer] changes the table of timers and nothing else. *)
Lemma clearInactivityTimer_set_timers p :
  clearInactivityTimer p
  = set_timers (λ _, timers (clearInactivityTimer p)) p.
Proof.
  destruct p as [ls clk ts nid lst ns it wt con loc auth dlg].
  unfold clearInactivityTimer.
  cbn [inactivityTimer warningTimer].
  destruct (truthy_id it); [destruct it as [i|]|];
    cbn [clearTimeout set_timers Page.localStorage clock timers next_id
         listeners next_serial inactivityTimer warningTimer console location
         app_isAuthenticated dialog];
    (destruct (truthy_id wt); [destruct wt as [j|]|]); reflexivity.
Qed.

(** A timer is still pending after [clearInactivityTimer] unless one of the
    two module variables holds its id. *)
Lemma elem_of_timers_clearInactivityTimer p tm :
  tm ∈ timers (clearInactivityTimer p)
  ↔ tm ∈ timers p
    ∧ (truthy_id (inactivityTimer p) = true →
       inactivityTimer p ≠ Some (timer_id tm))
    ∧ (truthy_id (warningTimer p) = true →
       warningTimer p ≠ Some (timer_id tm)).
Proof.
  destruct p as [ls clk ts nid lst ns it wt con loc auth dlg].
  unfold clearInactivityTimer.
  cbn [inactivityTimer warningTimer timers].
  destruct (truthy_id it) eqn:Hit; [destruct it as [i|]; [|discriminate]|];
    cbn [clearTimeout set_timers Page.localStorage clock timers next_id
         listeners next_serial inactivityTimer warningTimer console location
         app_isAuthenticated dialog];
    (destruct (truthy_id wt) eqn:Hwt; [destruct wt as [j|]; [|discriminate]|]);
    cbn [clearTimeout set_timers timers];
    rewrite ?list_elem_of_filter; split.
  - intros (Hj & Hi & Hin). split; [exact Hin|]. split; congruence.
  - intros (Hin & Hi & Hj). split; [|split; [|exact Hin]].
    + intros E. apply Hj; [reflexivity|congruence].
    + intros E. apply Hi; [reflexivity|congruence].
  - intros (Hi & Hin). split; [exact Hin|]. split; [congruence|discriminate].
  - intros (Hin & Hi & _). split; [|exact Hin].
    intros E. apply Hi; [reflexivity|congruence].
  - intros (Hj & Hin). split; [exact Hin|]. split; [discriminate|congruence].
  - intros (Hin & _ & Hj). split; [|exact Hin].
    intros E. apply Hj; [reflexivity|congruence].
  - intros Hin. split; [exact Hin|]. split; discriminate.
  - now intros (Hin & _).
Qed.

Lemma startInactivityTimer_eq h p :
  startInactivityTimer h p
  = {| Page.localStorage := Page.localStorage p; clock := clock p;
       timers :=
         timers (clearInactivityTimer p) ++
           [ {| timer_id := next_id p; due := clock p + WARNING_DURATION;
                period := None; callback := InactivityWarning |};
             {| timer_id := next_id p + 1; due := clock p + TIMEOUT_DURATION;
                period := None; callback := InactivityTimeout h |} ];
       next_id := next_id p + 1 + 1;
       listeners := listeners p; next_serial := next_serial p;
       inactivityTimer := Some (next_id p + 1);
       warningTimer := Some (next_id p);
       console := console p; location := location p;
       app_isAuthenticated := app_isAuthenticated p; dialog := dialog p |}.
Proof.
  unfold startInactivityTimer.
  assert (H := clearInactivityTimer_set_timers p).
  set (q := clearInactivityTimer p) in *. clearbody q.
  destruct p as [ls clk ts nid lst ns it wt con loc auth dlg].
  destruct q as [ls' clk' ts' nid' lst' ns' it' wt' con' loc' auth' dlg'].
  unfold set_timers in H.
  cbn [Page.localStorage clock timers next_id listeners next_serial
       inactivityTimer warningTimer console location app_isAuthenticated
       dialog] in H.
  injection H as -> -> -> -> -> -> -> -> -> -> ->.
  cbn.
  cbv [set_inactivityTimer set_next_id set_timers set_warningTimer
       Page.localStorage clock timers next_id listeners next_serial
       inactivityTimer warningTimer console location app_isAuthenticated
       dialog].
  now rewrite <- app_assoc.
Qed.

End Timers.

(** X16.  [resetInactivityTimer(onTimeout)] on any page.  Afterwards the
    pending timers are the two new ones, the warning 14 minutes and the
    timeout 15 minutes from now, and every timer that was pending before
    except those that the two module variables named; the module variables
    name the new timers; storage, listeners, dialog, location, the state of
    [AppWrapper] and the console are untouched. *)
Theorem resetInactivityTimer_timers (h : option Handler) (p : Page)
  (tm : Timer) :
  let p' := resetInactivityTimer h p in
  let warning :=
    {| timer_id := next_id p; due := clock p + WARNING_DURATION;
       period := None; callback := InactivityWarning |} in
  let timeout :=
    {| timer_id := next_id p + 1; due := clock p + TIMEOUT_DURATION;
       period := None; callback := InactivityTimeout h |} in
  (tm ∈ timers p'
   ↔ (tm ∈ timers p
      ∧ (truthy_id (inactivityTimer p) = true →
         inactivityTimer p ≠ Some (timer_id tm))
      ∧ (truthy_id (warningTimer p) = true →
         warningTimer p ≠ Some (timer_id tm)))
     ∨ tm = warning ∨ tm = timeout)
  ∧ warningTimer p' = Some (next_id p)
  ∧ inactivityTimer p' = Some (next_id p + 1)
  ∧ Page.localStorage p' = Page.localStorage p
  ∧ listeners p' = listeners p
  ∧ dialog p' = dialog p
  ∧ location p' = location p
  ∧ app_isAuthenticated p' = app_isAuthenticated p
  ∧ console p' = console p.
Proof.
  intros p' warning timeout. unfold p', resetInactivityTimer.
  rewrite startInactivityTimer_eq.
  assert (H := clearInactivityTimer_set_timers p).
  assert (Hin := elem_of_timers_clearInactivityTimer p).
  assert (Hin' := elem_of_timers_clearInactivityTimer (clearInactivityTimer p)).
  set (q := clearInactivityTimer p) in *.
  set (q' := clearInactivityTimer q) in *. clearbody q'. clearbody q.
  destruct p as [ls clk ts nid lst ns it wt con loc auth dlg].
  destruct q as [ls' clk' ts' nid' lst' ns' it' wt' con' loc' auth' dlg'].
  unfold set_timers in H.
  cbn [Page.localStorage clock timers next_id listeners next_serial
       inactivityTimer warningTimer console location app_isAuthenticated
       dialog] in *.
  injection H as -> -> -> -> -> -> -> -> -> -> ->.
  split; [|repeat split].
  rewrite elem_of_app, !elem_of_cons, elem_of_nil.
  rewrite Hin', Hin. fold warning timeout. tauto.
Qed.

Section Listeners.

Implicit Types (p : Page) (h : option Handler) (l : Listener).

Lemma addEventListener_new type l p :
  (type, l) ∉ listeners p →
  addEventListener type l p = set_listeners (λ ls, ls ++ [(type, l)]) p.
Proof.
  intros Hnew. unfold addEventListener.
  now rewrite (bool_decide_eq_false_2 _ Hnew).
Qed.

Lemma resetInactivityTimer_eq h p :
  resetInactivityTimer h p
  = {| Page.localStorage := Page.localStorage p; clock := clock p;
       timers :=
         timers (clearInactivityTimer (clearInactivityTimer p)) ++
           [ {| timer_id := next_id p; due := clock p + WARNING_DURATION;
                period := None; callback := InactivityWarning |};
             {| timer_id := next_id p + 1; due := clock p + TIMEOUT_DURATION;
                period := None; callback := InactivityTimeout h |} ];
       next_id := next_id p + 1 + 1;
       listeners := listeners p; next_serial := next_serial p;
       inactivityTimer := Some (next_id p + 1);
       warningTimer := Some (next_id p);
       console := console p; location := location p;
       app_isAuthenticated := app_isAuthenticated p; dialog := dialog p |}.
Proof.
  unfold resetInactivityTimer. rewrite startInactivityTimer_eq.
  assert (H := clearInactivityTimer_set_timers p).
  set (q := clearInactivityTimer p) in *.
  set (q' := clearInactivityTimer q). clearbody q'. clearbody q.
  rewrite H. reflexivity.
Qed.

(** Listeners called one after the other: the clock and the listeners stay,
    and after the last one its timeout is pending. *)
Lemma call_listeners_pending (entries : list (string * Listener)) :
  ∀ p,
    let p' := fold_left (λ p entry, call_listener (snd entry) p) entries p in
    clock p' = clock p ∧ listeners p' = listeners p
    ∧ (entries ≠ [] →
       ∃ tm onTimeout,
         tm ∈ timers p' ∧ inactivityTimer p' = Some (timer_id tm)
         ∧ callback tm = InactivityTimeout onTimeout
         ∧ due tm = clock p + TIMEOUT_DURATION).
Proof.
  induction entries as [|[type l] entries IH]; intros p; cbn zeta.
  - split; [reflexivity|]. split; [reflexivity|]. now intros [].
  - cbn [fold_left snd].
    assert (Hcall : ∃ h, call_listener l p = resetInactivityTimer h p).
    { destruct l; eexists; reflexivity. }
    destruct Hcall as [h Hcall]. rewrite Hcall.
    destruct (IH (resetInactivityTimer h p)) as (Hclock & Hlisteners & Hlast).
    rewrite Hclock, Hlisteners. rewrite resetInactivityTimer_eq at 1 2.
    cbn [clock listeners]. split; [reflexivity|]. split; [reflexivity|].
    intros _. destruct entries as [|entry entries].
    + cbn [fold_left]. rewrite resetInactivityTimer_eq.
      cbn [timers inactivityTimer]. eexists _, h.
      split.
      { rewrite elem_of_app, !elem_of_cons. right. right. left.
        reflexivity. }
      repeat split.
    + destruct (Hlast ltac:(discriminate))
        as (tm & h' & Hin & Hid & Hcb & Hdue).
      exists tm, h'. repeat split; try assumption.
      rewrite Hdue. rewrite resetInactivityTimer_eq. reflexivity.
Qed.

Lemma listeners_clearInactivityTimer p :
  listeners (clearInactivityTimer p) = listeners p.
Proof. now rewrite clearInactivityTimer_set_timers. Qed.

Lemma clock_clearInactivityTimer p :
  clock (clearInactivityTimer p) = clock p.
Proof. now rewrite clearInactivityTimer_set_timers. Qed.

End Listeners.

(** X17.  [removeInactivityTracking] does not end tracking.  An arrow
    function that [initializeInactivityTracking] registered is still
    registered after it, and the next event of its type schedules the
    timeout again, due 15 minutes later. *)
Theorem removeInactivityTracking_keeps_the_arrows (p : Page) (type : string)
  (serial : nat) (h : option Handler) :
  (type, ResetArrow serial h) ∈ listeners p →
  let p' := removeInactivityTracking p in
  let p'' := dispatchEvent type p' in
  (type, ResetArrow serial h) ∈ listeners p'
  ∧ ∃ tm onTimeout,
      tm ∈ timers p'' ∧ inactivityTimer p'' = Some (timer_id tm)
      ∧ callback tm = InactivityTimeout onTimeout
      ∧ due tm = clock p + TIMEOUT_DURATION.
Proof.
  intros Hin p' p''.
  set (f := resetInactivityTimer_function).
  assert (Hp' : listeners p'
    = filter (λ entry, entry ≠ ("click"%string, f))
        (filter (λ entry, entry ≠ ("keydown"%string, f))
           (filter (λ entry, entry ≠ ("mousemove"%string, f))
              (listeners p)))).
  { unfold p', removeInactivityTracking.
    now rewrite listeners_clearInactivityTimer. }
  assert (Hclock : clock p' = clock p).
  { unfold p', removeInactivityTracking.
    now rewrite clock_clearInactivityTimer. }
  assert (Hin' : (type, ResetArrow serial h) ∈ listeners p').
  { rewrite Hp', !list_elem_of_filter. repeat split; try discriminate.
    exact Hin. }
  split; [exact Hin'|].
  unfold p'', dispatchEvent.
  destruct (call_listeners_pending
              (filter (λ entry, fst entry = type) (listeners p')) p')
    as (_ & _ & Hlast).
  rewrite Hclock in Hlast. apply Hlast.
  intros Hnil.
  assert (Hf : (type, ResetArrow serial h)
               ∈ filter (λ entry : string * Listener, fst entry = type)
                   (listeners p')).
  { apply list_elem_of_filter. split; [reflexivity|exact Hin']. }
  rewrite Hnil in Hf. inversion Hf.
Qed.

Lemma removeInactivityTracking_keeps_the_arrows_witness :
  let p :=
    initializeInactivityTracking (Some handleTimeout)
      (blank Samples.tokens 0 "/dashboard") in
  ∃ tm onTimeout,
    tm ∈ timers (dispatchEvent "keydown" (removeInactivityTracking p))
    ∧ callback tm = InactivityTimeout onTimeout
    ∧ due tm = TIMEOUT_DURATION.
Proof.
  intros p.
  destruct (removeInactivityTracking_keeps_the_arrows p "keydown" 1
              (Some handleTimeout))
    as (_ & tm & onTimeout & Hin & _ & Hcb & Hdue).
  - vm_compute. apply list_elem_of_further, list_elem_of_here.
  - exists tm, onTimeout. repeat split; assumption.
Defined.

Section Register.

Implicit Types (p : Page) (h : option Handler) (l : Listener).

(** One arrow function made and registered: it is new, so it is added. *)
Lemma register_arrow type h p :
  (∀ type' s h', (type', ResetArrow s h') ∈ listeners p →
                 (s < next_serial p)%nat) →
  let '(f, p1) := new_arrow h p in
  let p2 := addEventListener type f p1 in
  listeners p2 = listeners p ++ [(type, ResetArrow (next_serial p) h)]
  ∧ next_serial p2 = S (next_serial p)
  ∧ (∀ type' s h', (type', ResetArrow s h') ∈ listeners p2 →
                   (s < next_serial p2)%nat)
  ∧ Page.localStorage p2 = Page.localStorage p
  ∧ app_isAuthenticated p2 = app_isAuthenticated p
  ∧ location p2 = location p ∧ dialog p2 = dialog p
  ∧ clock p2 = clock p.
Proof.
  intros Hbelow. unfold new_arrow. cbv zeta.
  rewrite addEventListener_new.
  2:{ cbn [listeners set_next_serial]. intros Hin.
      apply Hbelow in Hin. lia. }
  cbn [listeners next_serial set_listeners set_next_serial Page.localStorage
       app_isAuthenticated location dialog clock].
  split; [reflexivity|]. split; [reflexivity|].
  split; [|repeat split].
  intros type' s h'. rewrite elem_of_app, list_elem_of_singleton.
  intros [Hin|[= _ -> _]]; [apply Hbelow in Hin|]; lia.
Qed.

End Register.

Section Tracking.

Implicit Types (p : Page) (h : option Handler).

Lemma initializeInactivityTracking_listeners h p :
  (∀ type s h', (type, ResetArrow s h') ∈ listeners p →
                (s < next_serial p)%nat) →
  let n := next_serial p in
  let p' := initializeInactivityTracking h p in
  listeners p'
  = listeners p ++
      [("mousemove"%string, ResetArrow n h);
       ("keydown"%string, ResetArrow (S n) h);
       ("click"%string, ResetArrow (S (S n)) h)]
  ∧ next_serial p' = S (S (S n))
  ∧ Page.localStorage p' = Page.localStorage p
  ∧ app_isAuthenticated p' = app_isAuthenticated p
  ∧ location p' = location p ∧ dialog p' = dialog p.
Proof.
  intros Hbelow n p'. unfold p', initializeInactivityTracking.
  assert (H1 := register_arrow "mousemove" h p Hbelow).
  destruct (new_arrow h p) as [f1 q1]. cbv zeta in H1.
  set (p1 := addEventListener "mousemove" f1 q1) in *. clearbody p1.
  destruct H1 as (Hl1 & Hn1 & Hb1 & Hs1 & Ha1 & Hloc1 & Hd1 & _).
  assert (H2 := register_arrow "keydown" h p1 Hb1).
  destruct (new_arrow h p1) as [f2 q2]. cbv zeta in H2.
  set (p2 := addEventListener "keydown" f2 q2) in *. clearbody p2.
  destruct H2 as (Hl2 & Hn2 & Hb2 & Hs2 & Ha2 & Hloc2 & Hd2 & _).
  assert (H3 := register_arrow "click" h p2 Hb2).
  destruct (new_arrow h p2) as [f3 q3]. cbv zeta in H3.
  set (p3 := addEventListener "click" f3 q3) in *. clearbody p3.
  destruct H3 as (Hl3 & Hn3 & Hb3 & Hs3 & Ha3 & Hloc3 & Hd3 & _).
  rewrite startInactivityTimer_eq.
  cbn [listeners next_serial Page.localStorage app_isAuthenticated location
       dialog].
  rewrite Hl3, Hl2, Hl1, Hn3, Hn2, Hn1, <- !app_assoc.
  repeat split; congruence.
Qed.

End Tracking.

(** X18.  Every call of [initializeInactivityTracking] registers three
    more listeners, since each of its arrow functions is a new object; the
    serial numbers of the registered arrows stay below the next one to be
    given out.  So every reset through [handleResetTimeout] on an
    authenticated page leaves three listeners more than before. *)
Theorem tracking_listeners_accumulate (h : option Handler) (p : Page) :
  (∀ type s h', (type, ResetArrow s h') ∈ listeners p →
                (s < next_serial p)%nat) →
  let n := next_serial p in
  let p' := initializeInactivityTracking h p in
  listeners p'
  = listeners p ++
      [("mousemove"%string, ResetArrow n h);
       ("keydown"%string, ResetArrow (S n) h);
       ("click"%string, ResetArrow (S (S n)) h)]
  ∧ (∀ type s h', (type, ResetArrow s h') ∈ listeners p' →
                  (s < next_serial p')%nat)
  ∧ (app_isAuthenticated p = true →
     length (listeners (handleResetTimeout p))
     = (length (listeners p) + 3)%nat).
Proof.
  intros Hbelow n p'.
  destruct (initializeInactivityTracking_listeners h p Hbelow)
    as (Hl & Hn & _).
  fold p' n in Hl, Hn. split; [exact Hl|]. split.
  - intros type s h'. rewrite Hl, Hn, elem_of_app, !elem_of_cons, elem_of_nil.
    intros [Hin|[[= _ -> _]|[[= _ -> _]|[[= _ -> _]|[]]]]];
      [apply Hbelow in Hin; fold n in Hin|..]; lia.
  - intros Hauth. unfold handleResetTimeout. rewrite Hauth.
    destruct (initializeInactivityTracking_listeners
                (Some handleTimeout_onReset) (clearInactivityTimer p))
      as (Hl' & _).
    { rewrite clearInactivityTimer_set_timers.
      cbn [listeners next_serial set_timers]. exact Hbelow. }
    rewrite Hl', listeners_clearInactivityTimer, length_app. reflexivity.
Qed.

Lemma tracking_listeners_accumulate_witness :
  let p := load Samples.tokens 0 "/dashboard" in
  length (listeners p) = 3%nat
  ∧ length (listeners (handleResetTimeout p)) = 6%nat.
Proof.
  intros p. split; [reflexivity|].
  refine (proj2 (proj2 (tracking_listeners_accumulate None p _)) eq_refl).
  intros type s h'. vm_compute.
  intros Hin. repeat (apply elem_of_cons in Hin as [[= _ -> _]|Hin]; [lia|]).
  inversion Hin.
Defined.

Section AppWrapper.

Implicit Types (p : Page).

Lemma SessionTimeoutWarning_mount_frame threshold total p :
  let p' := SessionTimeoutWarning_mount threshold total p in
  Page.localStorage p' = Page.localStorage p
  ∧ app_isAuthenticated p' = app_isAuthenticated p
  ∧ location p' = location p
  ∧ listeners p' = listeners p ∧ next_serial p' = next_serial p
  ∧ is_Some (dialog p').
Proof. cbn. repeat split. eauto. Qed.

Lemma dialog_clearInactivityTimer p :
  dialog (clearInactivityTimer p) = dialog p.
Proof. now rewrite clearInactivityTimer_set_timers. Qed.

Lemma dialog_SessionTimeoutWarning_unmount p :
  dialog (SessionTimeoutWarning_unmount p) = None.
Proof.
  unfold SessionTimeoutWarning_unmount.
  destruct (dialog p) as [d|] eqn:E; [reflexivity|exact E].
Qed.

End AppWrapper.

(** X19.  After every change of location the [isAuthenticated] state of
    [AppWrapper] is [isAuthenticated()] of the storage; the storage is not
    changed, and [SessionTimeoutWarning] is rendered exactly when the state
    is true, provided it was so before. *)
Theorem navigate_mirrors_storage (to : string) (p : Page) :
  (∀ type s h, (type, ResetArrow s h) ∈ listeners p →
               (s < next_serial p)%nat) →
  (is_Some (dialog p) ↔ app_isAuthenticated p = true) →
  let p' := navigate to p in
  app_isAuthenticated p' = isAuthenticated (Page.localStorage p)
  ∧ Page.localStorage p' = Page.localStorage p
  ∧ location p' = to
  ∧ (is_Some (dialog p') ↔ app_isAuthenticated p' = true)
  ∧ (∀ type s h, (type, ResetArrow s h) ∈ listeners p' →
                 (s < next_serial p')%nat).
Proof.
  intros Hbelow Hdialog p'. unfold p', navigate, AppWrapper_location_effect.
  change (Page.localStorage (set_location to p)) with (Page.localStorage p).
  unfold isAuthenticated. cbv zeta.
  set (b := truthy (getToken (Page.localStorage p))).
  unfold setIsAuthenticated.
  change (app_isAuthenticated (set_location to p))
    with (app_isAuthenticated p).
  destruct (Bool.eqb b (app_isAuthenticated p)) eqn:Heq.
  { apply Bool.eqb_prop in Heq. cbn [app_isAuthenticated set_location
      Page.localStorage location dialog listeners next_serial].
    repeat split; try (symmetry; exact Heq); try apply Hdialog.
    exact Hbelow. }
  destruct b.
  - set (q := set_app_isAuthenticated true (set_location to p)).
    destruct (SessionTimeoutWarning_mount_frame 60 900 q)
      as (Hs & Ha & Hloc & Hl & Hn & Hd).
    cbv zeta in Hs, Ha, Hloc, Hl, Hn, Hd.
    set (q1 := SessionTimeoutWarning_mount 60 900 q) in *. clearbody q1.
    assert (Hbelow1 : ∀ type s h, (type, ResetArrow s h) ∈ listeners q1 →
                                  (s < next_serial q1)%nat).
    { rewrite Hl, Hn. exact Hbelow. }
    destruct (initializeInactivityTracking_listeners (Some handleTimeout) q1
                Hbelow1) as (Hl' & Hn' & Hs' & Ha' & Hloc' & Hd').
    cbv zeta in Hl', Hn', Hs', Ha', Hloc', Hd'.
    rewrite Ha', Hs', Hloc', Hd', Ha, Hs, Hloc.
    split; [reflexivity|]. split; [reflexivity|]. split; [reflexivity|].
    split; [now split|].
    intros type s h. rewrite Hl', Hn', elem_of_app, !elem_of_cons, elem_of_nil.
    intros [Hin|[[= _ -> _]|[[= _ -> _]|[[= _ -> _]|[]]]]];
      [apply Hbelow1 in Hin|..]; lia.
  - set (q := set_app_isAuthenticated false (set_location to p)).
    destruct (clearInactivityTimer_frame q) as (Hs & Ha & Hloc).
    destruct (SessionTimeoutWarning_unmount_frame (clearInactivityTimer q))
      as (Hs' & Ha' & Hloc').
    rewrite Ha', Hs', Hloc', Ha, Hs, Hloc, dialog_SessionTimeoutWarning_unmount.
    split; [reflexivity|]. split; [reflexivity|]. split; [reflexivity|].
    split.
    + split; [intros [? [=]]|discriminate].
    + set (q' := SessionTimeoutWarning_unmount (clearInactivityTimer q)).
      assert (Hl : listeners q' = listeners p
                   ∧ next_serial q' = next_serial p).
      { unfold q', SessionTimeoutWarning_unmount.
        rewrite dialog_clearInactivityTimer.
        destruct (dialog q) as [d|].
        - unfold clearInterval.
          destruct (dialog_warningTimer d), (dialog_logoutTimer d),
            (dialog_intervalTimer d);
            cbn [clearTimeout set_dialog set_timers listeners next_serial];
            rewrite clearInactivityTimer_set_timers; split; reflexivity.
        - rewrite clearInactivityTimer_set_timers; split; reflexivity. }
      destruct Hl as [-> ->]. exact Hbelow.
Qed.

Lemma navigate_mirrors_storage_witness :
  let p := load Samples.tokens 0 "/dashboard" in
  let p' := navigate "/news" (Page.set_localStorage clearTokens p) in
  app_isAuthenticated p = true
  ∧ app_isAuthenticated p' = false
  ∧ location p' = "/news"
  ∧ dialog p' = None.
Proof.
  intros p p'. split; [reflexivity|].
  destruct (navigate_mirrors_storage "/news"
              (Page.set_localStorage clearTokens p))
    as (Ha & _ & Hloc & Hd & _).
  - intros type s h. vm_compute.
    intros Hin.
    repeat (apply elem_of_cons in Hin as [[= _ -> _]|Hin]; [lia|]).
    inversion Hin.
  - split; [reflexivity|]. intros _. vm_compute. eauto.
  - fold p' in Ha, Hloc, Hd. split; [|split; [exact Hloc|]].
    + rewrite Ha. reflexivity.
    + destruct (dialog p') as [d|] eqn:E; [|reflexivity].
      assert (Hf : app_isAuthenticated p' = true) by (apply Hd; eauto).
      rewrite Ha in Hf. discriminate Hf.
Defined.

Section Pending.

Implicit Types (p : Page) (h : option Handler) (tm : Timer).

Lemma addEventListener_timers type l p :
  addEventListener type l p = p
  ∨ addEventListener type l p = set_listeners (λ ls, ls ++ [(type, l)]) p.
Proof. unfold addEventListener. destruct (bool_decide _); auto. Qed.

(** Registering the listeners touches no timer and neither module
    variable. *)
Lemma register_timers type h p :
  let q := addEventListener type (fst (new_arrow h p)) (snd (new_arrow h p)) in
  timers q = timers p ∧ inactivityTimer q = inactivityTimer p
  ∧ warningTimer q = warningTimer p.
Proof.
  cbv zeta. unfold new_arrow. cbn [fst snd].
  destruct (addEventListener_timers type (ResetArrow (next_serial p) h)
              (set_next_serial (S (next_serial p)) p)) as [-> | ->];
    repeat split.
Qed.

Lemma elem_of_timers_initializeInactivityTracking h p tm :
  tm ∈ timers p →
  inactivityTimer p ≠ Some (timer_id tm) →
  warningTimer p ≠ Some (timer_id tm) →
  tm ∈ timers (initializeInactivityTracking h p).
Proof.
  intros Hin Hi Hw. unfold initializeInactivityTracking.
  assert (H1 := register_timers "mousemove" h p). cbv zeta in H1.
  destruct (new_arrow h p) as [f1 q1]. cbn [fst snd] in H1.
  set (p1 := addEventListener "mousemove" f1 q1) in *. clearbody p1.
  destruct H1 as (Ht1 & Hi1 & Hw1).
  assert (H2 := register_timers "keydown" h p1). cbv zeta in H2.
  destruct (new_arrow h p1) as [f2 q2]. cbn [fst snd] in H2.
  set (p2 := addEventListener "keydown" f2 q2) in *. clearbody p2.
  destruct H2 as (Ht2 & Hi2 & Hw2).
  assert (H3 := register_timers "click" h p2). cbv zeta in H3.
  destruct (new_arrow h p2) as [f3 q3]. cbn [fst snd] in H3.
  set (p3 := addEventListener "click" f3 q3) in *. clearbody p3.
  destruct H3 as (Ht3 & Hi3 & Hw3).
  rewrite startInactivityTimer_eq. cbn [timers].
  rewrite elem_of_app. left.
  apply elem_of_timers_clearInactivityTimer.
  rewrite Ht3, Ht2, Ht1, Hi3, Hi2, Hi1, Hw3, Hw2, Hw1.
  split; [exact Hin|]. split; intros _; assumption.
Qed.

End Pending.

(** X20.  "Stay Logged In" and [handleResetTimeout] cancel the two timers
    of [sessionTimeout.js] and no other: a timer that neither module
    variable names is still pending afterwards, the logout timer of the
    warning dialog among them. *)
Theorem handleStayLoggedIn_keeps_other_timers (p : Page) (tm : Timer) :
  tm ∈ timers p →
  inactivityTimer p ≠ Some (timer_id tm) →
  warningTimer p ≠ Some (timer_id tm) →
  tm ∈ timers (handleStayLoggedIn p)
  ∧ tm ∈ timers (handleResetTimeout p).
Proof.
  intros Hin Hi Hw.
  assert (Hreset : ∀ q,
    timers q = timers p → inactivityTimer q = inactivityTimer p →
    warningTimer q = warningTimer p → tm ∈ timers (handleResetTimeout q)).
  { intros q Ht Hiq Hwq. unfold handleResetTimeout.
    destruct (app_isAuthenticated q); [|now rewrite Ht].
    assert (Hc := clearInactivityTimer_set_timers q).
    assert (Hc' := elem_of_timers_clearInactivityTimer q tm).
    set (c := clearInactivityTimer q) in *. clearbody c.
    apply elem_of_timers_initializeInactivityTracking.
    - apply Hc'. rewrite Ht, Hiq, Hwq.
      split; [exact Hin|]. split; intros _; assumption.
    - rewrite Hc. cbn [inactivityTimer set_timers]. now rewrite Hiq.
    - rewrite Hc. cbn [warningTimer set_timers]. now rewrite Hwq. }
  split; [|now apply Hreset].
  unfold handleStayLoggedIn. destruct (dialog p) as [d|]; [|exact Hin].
  apply Hreset; reflexivity.
Qed.

Lemma handleStayLoggedIn_keeps_other_timers_witness :
  let p0 := load Samples.tokens 0 "/dashboard" in
  let logout :=
    {| timer_id := 5; due := 900000; period := None;
       callback := DialogLogout |} in
  ∃ p1, run_until 20 850000 p0 = Some p1
        ∧ logout ∈ timers (handleStayLoggedIn p1).
Proof.
  intros p0 logout.
  destruct (run_until 20 850000 p0) as [p1|] eqn:Hrun;
    [|vm_compute in Hrun; discriminate Hrun].
  exists p1. split; [reflexivity|].
  assert (Hp1 : timers p1 !! 2%nat = Some logout
                ∧ inactivityTimer p1 = Some 3 ∧ warningTimer p1 = Some 2).
  { vm_compute in Hrun. injection Hrun as <-. repeat split. }
  destruct Hp1 as (Hin & Hi & Hw).
  apply (handleStayLoggedIn_keeps_other_timers p1 logout).
  - eapply list_elem_of_lookup_2. exact Hin.
  - rewrite Hi. discriminate.
  - rewrite Hw. discriminate.
Defined.

(** Thirteen mouse moves a minute apart, from a page where tracking has
    just begun: no timer fires, and the two timers pending at the end are
    measured from the last move. *)
Lemma activity_from_start_coalesces_witness :
  ∃ p',
    run_events 0 Samples.a_move_every_minute
      (initializeInactivityTracking (Some handleTimeout)
         (blank Samples.tokens 0 "/dashboard")) = Some p'
    ∧ tracking (Some handleTimeout) 780000 p'
    ∧ console p' = [] ∧ location p' = "/dashboard"
    ∧ Page.localStorage p' = Samples.tokens.
Proof.
  apply (activity_from_start_coalesces (Some handleTimeout) Samples.tokens 0
           "/dashboard" 0 Samples.a_move_every_minute).
  unfold Samples.a_move_every_minute, activity. cbn.
  unfold WARNING_DURATION. repeat split; try lia; apply list_elem_of_here.
Defined.
